(** * HAFiscal empirical pipeline: liquid wealth from the SCF 2004

    A shallow embedding of [Code/Empirical/make_liquid_wealth.py],
    [Code/Empirical/adjust_scf_inflation.py] and
    [Code/Empirical/compare_scf_datasets.py].

    A pandas DataFrame is a list of rows (a record per stage of the
    pipeline), a column is a list, a boolean mask is a [List.filter], a
    [groupby(...).transform(f)] recomputes [f] over the rows that share the
    key of the current row.  The table of [adjust_scf_inflation.py], whose
    columns are addressed by name, is a [gmap string (list A)].

    Numbers.  The source computes in binary64.  Every definition below is
    written once, over an interface [Num] of the arithmetic the source uses,
    and is run at two instances: exact rationals [Q] (the arithmetic the
    statements about sums and shares are proved in) and Rocq's primitive
    binary64 floats (to replay concrete panels bit for bit).  Rounding error
    of long sums, and the infinities and NaN of a division by zero (the
    exact quotient by zero is 0), are outside the exact model; where a
    property turns on them the binary64 instance is run next to it.

    Missing values.  The columns read from the data files are taken to
    have no missing value: pandas leaves a NaN out of a mean, a sum or a
    maximum, which the embedding does not do. *)

From Stdlib Require Import ZArith QArith Qround Qabs Lia Lqa List Bool.
From Stdlib Require Import Permutation Sorted.
From Stdlib Require Import PrimFloat Uint63.
From stdpp Require Import base option list gmap strings.

Set Default Proof Using "Type".

(** ** The arithmetic interface *)

Class Num (A : Type) := {
  of_Q : Q -> A;             (* a numeric literal of the source *)
  add : A -> A -> A;
  sub : A -> A -> A;
  mul : A -> A -> A;
  div : A -> A -> A;
  abs : A -> A;
  leb : A -> A -> bool;
  ltb : A -> A -> bool;
  eqb : A -> A -> bool;
  round2 : A -> A            (* round(x, 2) *)
}.

Arguments of_Q : simpl never.
Arguments add : simpl never.
Arguments sub : simpl never.
Arguments mul : simpl never.
Arguments div : simpl never.
Arguments abs : simpl never.
Arguments leb : simpl never.
Arguments ltb : simpl never.
Arguments eqb : simpl never.
Arguments round2 : simpl never.

Declare Scope num_scope.
Delimit Scope num_scope with num.
Infix "+" := add : num_scope.
Infix "-" := sub : num_scope.
Infix "*" := mul : num_scope.
Infix "/" := div : num_scope.
Infix "<=?" := leb : num_scope.
Infix "<?" := ltb : num_scope.
Infix "=?" := eqb : num_scope.

(** Exact rationals.  [round(x, 2)] rounds to the nearest multiple of
    1/100, halves to the even one. *)

Definition round_half_even (q : Q) : Z :=
  let f := Qfloor q in
  let r := (q - inject_Z f)%Q in
  match (r ?= 1 # 2)%Q with
  | Lt => f
  | Gt => (f + 1)%Z
  | Eq => if Z.even f then f else (f + 1)%Z
  end.

#[export] Instance Num_Q : Num Q := {|
  of_Q q := q;
  add := Qplus;
  sub := Qminus;
  mul := Qmult;
  div := Qdiv;
  abs := Qabs;
  leb := Qle_bool;
  ltb x y := negb (Qle_bool y x);
  eqb := Qeq_bool;
  round2 x := (inject_Z (round_half_even (x * 100)) / 100)%Q
|}.

(** Binary64.  A literal [n/d] with [n] and [d] below [2^53] is the
    correctly rounded quotient, which is the double Python reads the
    decimal as.  [rint] is round-to-nearest-even through the [2^52] shift,
    as [np.round] does after scaling by 100. *)

Definition float_of_Z (z : Z) : float :=
  match z with
  | Z0 => PrimFloat.zero
  | Zpos _ => PrimFloat.of_uint63 (Uint63.of_Z z)
  | Zneg _ => PrimFloat.opp (PrimFloat.of_uint63 (Uint63.of_Z (- z)))
  end.

Definition rint (x : float) : float :=
  let big := float_of_Z 4503599627370496 in
  if PrimFloat.ltb (PrimFloat.abs x) big then
    if PrimFloat.ltb x PrimFloat.zero
    then PrimFloat.add (PrimFloat.sub x big) big
    else PrimFloat.sub (PrimFloat.add x big) big
  else x.

#[export] Instance Num_float : Num float := {|
  of_Q q := PrimFloat.div (float_of_Z (Qnum q)) (float_of_Z (Zpos (Qden q)));
  add := PrimFloat.add;
  sub := PrimFloat.sub;
  mul := PrimFloat.mul;
  div := PrimFloat.div;
  abs := PrimFloat.abs;
  leb := PrimFloat.leb;
  ltb := PrimFloat.ltb;
  eqb := PrimFloat.eqb;
  round2 x := PrimFloat.div (rint (PrimFloat.mul x (float_of_Z 100))) (float_of_Z 100)
|}.

(** ** Columns: sums, running sums, sorting, grouping *)

Section Columns.
Context {A : Type} `{Num A}.
Local Open Scope num_scope.

(** [Series.sum()]: 0 for an empty column. *)
Definition col_sum (col : list A) : A := fold_left add col (of_Q 0).

(** [Series.cumsum()] / [np.cumsum]: the running sums, first entry the
    first element itself. *)
Fixpoint cumsum_from (acc : A) (col : list A) : list A :=
  match col with
  | [] => []
  | x :: rest => let s := acc + x in s :: cumsum_from s rest
  end.

Definition cumsum (col : list A) : list A :=
  match col with
  | [] => []
  | x :: rest => x :: cumsum_from x rest
  end.

(** [Series.mean()] of a column without missing values (pandas leaves a
    NaN out of the mean; the embedding does not). *)
Definition mean (col : list A) : A :=
  col_sum col / of_Q (inject_Z (Z.of_nat (length col))).

(** [Series.max()]: NaN (here [None]) for an empty column. *)
Definition col_max (col : list A) : option A :=
  match col with
  | [] => None
  | x :: rest => Some (fold_left (fun m y => if m <? y then y else m) rest x)
  end.

(** [Series.min()]. *)
Definition col_min (col : list A) : option A :=
  match col with
  | [] => None
  | x :: rest => Some (fold_left (fun m y => if y <? m then y else m) rest x)
  end.
End Columns.

Section Frames.
Context {R : Type}.

(** [df.sort_values(...)]: a stable insertion sort under the comparison
    [le] of the sort key(s); rows that compare equal keep their order.
    (pandas sorts several keys stably; for a single key its default
    quicksort leaves the order of equal keys open, and this is one of the
    orders it can produce.) *)
Fixpoint insert_row (le : R -> R -> bool) (x : R) (df : list R) : list R :=
  match df with
  | [] => [x]
  | y :: rest => if le x y then x :: y :: rest else y :: insert_row le x rest
  end.

Definition sort_values (le : R -> R -> bool) (df : list R) : list R :=
  fold_right (insert_row le) [] df.

(** The rows of [df] in the group of [r] under [groupby(key)], for an
    integer key column. *)
Definition group_of (key : R -> Z) (df : list R) (r : R) : list R :=
  List.filter (fun x => (key x =? key r)%Z) df.

(** Python's [seq[-1]]: [None] stands for the IndexError on an empty
    sequence. *)
Definition last_item {B : Type} (l : list B) : option B := last l.
End Frames.

(** ** The tables of make_liquid_wealth.py *)

(** A row of [rscfp2004.dta] restricted to the columns [load_data] reads:
    one row per household [yy1] and implicate [y1]. *)
Module Raw.
Section Row.
Context {A : Type}.
Record t := mk {
  yy1 : Z; y1 : Z; wgt : A; age : A; educ : Z; edcl : Z; norminc : A;
  liq : A; cds : A; nmmf : A; stocks : A; bond : A; ccbal : A;
  install : A; veh_inst : A
}.

(** [df.loc[mask, 'ccbal'] = v] on one row. *)
Definition set_ccbal (v : A) (r : t) : t :=
  mk (yy1 r) (y1 r) (wgt r) (age r) (educ r) (edcl r) (norminc r)
     (liq r) (cds r) (nmmf r) (stocks r) (bond r) v (install r) (veh_inst r).

(** [df['age'] = v] on one row. *)
Definition set_age (v : A) (r : t) : t :=
  mk (yy1 r) (y1 r) (wgt r) v (educ r) (edcl r) (norminc r)
     (liq r) (cds r) (nmmf r) (stocks r) (bond r) (ccbal r) (install r)
     (veh_inst r).
End Row.
Arguments t : clear implicits.
End Raw.

(** A row of [ccbal_answer.dta]: the answer [x432] of implicate [y1]. *)
Module Aux.
Record t := mk { y1 : Z; x432 : Z }.
End Aux.

Section MergeAndFilter.
Context {A : Type} `{Num A}.
Local Open Scope num_scope.

(** [df.merge(ccbal_df, on='y1', how='left')]: the rows of [df] in their
    order, each once per matching row of [ccbal_df]; a row without a match
    stays, with a missing [x432]. *)
Definition merge_left (df : list (Raw.t A)) (ccbal_df : list Aux.t)
  : list (Raw.t A * option Z) :=
  flat_map
    (fun r =>
       match List.filter (fun a => (Aux.y1 a =? Raw.y1 r)%Z) ccbal_df with
       | [] => [(r, None)]
       | matches => map (fun a => (r, Some (Aux.x432 a))) matches
       end) df.

(** [df['x432'] == 1]: false on a missing value. *)
Definition x432_is_1 (x : option Z) : bool :=
  match x with Some v => (v =? 1)%Z | None => false end.

(** Lines 66-68: merge, zero the credit-card balance where [x432 == 1],
    drop the column [x432]. *)
Definition merge_ccbal (df : list (Raw.t A)) (ccbal_df : list Aux.t)
  : list (Raw.t A) :=
  let df := merge_left df ccbal_df in
  let df := map (fun p => if x432_is_1 (snd p)
                          then (Raw.set_ccbal (of_Q 0) (fst p), snd p)
                          else p) df in
  map fst df.

(** [df.groupby(key)[col].transform('mean')] at row [r]. *)
Definition transform_mean {R : Type} (key : R -> Z) (col : R -> A)
    (df : list R) (r : R) : A :=
  mean (map col (group_of key df r)).

(** [df.groupby(key)[col].transform('sum')] at row [r]. *)
Definition transform_sum {R : Type} (key : R -> Z) (col : R -> A)
    (df : list R) (r : R) : A :=
  col_sum (map col (group_of key df r)).

(** [merge_and_filter]: the merge, the household mean of [age], then the
    sample selection: age 25 to 62 and non-negative [norminc]. *)
Definition merge_and_filter (df : list (Raw.t A)) (ccbal_df : list Aux.t)
  : list (Raw.t A) :=
  let df := merge_ccbal df ccbal_df in
  let df := map (fun r => Raw.set_age (transform_mean Raw.yy1 Raw.age df r) r) df in
  let df := List.filter
              (fun r => (of_Q 25 <=? Raw.age r) && (Raw.age r <=? of_Q 62)) df in
  List.filter (fun r => of_Q 0 <=? Raw.norminc r) df.
End MergeAndFilter.

(** A household row after the implicate collapse (lines 111-124). *)
Module HH.
Section Row.
Context {A : Type}.
Record t := mk {
  yy1 : Z; age : A; myEd : Z;
  liqWealthInst : A; liqWealthKaplan : A; permInc : A; weight : A
}.
End Row.
Arguments t : clear implicits.
End HH.

(** A row of the panel [calculate_liquid_wealth] returns: the household
    columns and [liqWealth], [normweight], [edfrac], [edWeight]. *)
Module Panel.
Section Row.
Context {A : Type}.
Record t := mk {
  hh : HH.t A;
  liqWealth : A; normweight : A; edfrac : A; edWeight : A
}.
Definition yy1 (p : t) : Z := HH.yy1 (hh p).
Definition myEd (p : t) : Z := HH.myEd (hh p).
Definition permInc (p : t) : A := HH.permInc (hh p).
Definition weight (p : t) : A := HH.weight (hh p).
End Row.
Arguments t : clear implicits.
End Panel.

(** A row of [LorenzAll.csv]. *)
Module Lorenz.
Section Row.
Context {A : Type}.
Record t := mk { yy1 : Z; myEd : Z; sumNormW : A; sumLWall : A }.
End Row.
Arguments t : clear implicits.
End Lorenz.

Section CalculateLiquidWealth.
Context {A : Type} `{Num A}.
Local Open Scope num_scope.

(** Lines 85-92: the two liquid-wealth measures of an implicate row. *)
Definition tempLiqWealthInst (r : Raw.t A) : A :=
  Raw.liq r * of_Q 1.05 + Raw.cds r + Raw.nmmf r + Raw.stocks r
  + Raw.bond r - Raw.ccbal r - (Raw.install r - Raw.veh_inst r).

Definition tempLiqWealthKaplan (r : Raw.t A) : A :=
  Raw.liq r * of_Q 1.05 + Raw.cds r + Raw.nmmf r + Raw.stocks r
  + Raw.bond r - Raw.ccbal r.

(** Lines 100-102: 1 = no high school, 2 = high school / some college,
    3 = college. *)
Definition myEd_of (edcl : Z) : Z :=
  let myEd := 1%Z in
  let myEd := if existsb (Z.eqb edcl) [2%Z; 3%Z] then 2%Z else myEd in
  if (edcl =? 4)%Z then 3%Z else myEd.

(** Lines 104-108. *)
Definition myEdText (myEd : Z) : option string :=
  if (myEd =? 1)%Z then Some "No high school"
  else if (myEd =? 2)%Z then Some "High school/some college"
  else if (myEd =? 3)%Z then Some "College"
  else None.

(** Lines 111-124: household means of the two measures and of the income,
    the weight [mean(wgt) * 5], then one row per household: the row whose
    [y1 % 5 == 1]; the column [y1] is dropped last. *)
Definition household_rows (df : list (Raw.t A)) : list (HH.t A) :=
  let rows :=
    map (fun r =>
           (Raw.y1 r,
            HH.mk (Raw.yy1 r) (Raw.age r) (myEd_of (Raw.edcl r))
                  (transform_mean Raw.yy1 tempLiqWealthInst df r)
                  (transform_mean Raw.yy1 tempLiqWealthKaplan df r)
                  (transform_mean Raw.yy1 Raw.norminc df r)
                  (transform_mean Raw.yy1 Raw.wgt df r * of_Q 5))) df in
  let rows := List.filter (fun p => (fst p mod 5 =? 1)%Z) rows in
  map snd rows.

(** [df.sort_values('permInc')]. *)
Definition by_permInc (a b : HH.t A * A) : bool :=
  HH.permInc (fst a) <=? HH.permInc (fst b).

(** Lines 126-132: the rows of [df] with their [normweight], sorted by
    [permInc], and the column [sumW] next to them. *)
Definition with_sumW (df : list (HH.t A)) : list (HH.t A * A * A) :=
  let total_weight := col_sum (map HH.weight df) in
  let df := map (fun h => (h, HH.weight h / total_weight)) df in
  let df := sort_values by_permInc df in
  combine df (cumsum (map snd df)).

(** Lines 126-132: drop the rows whose [sumW] is not [>= 0.05]. *)
Definition drop_lowest_income (df : list (HH.t A)) : list (HH.t A) :=
  let df := List.filter (fun p => of_Q 0.05 <=? snd p) (with_sumW df) in
  map (fun p => fst (fst p)) df.

(** Lines 134-138. *)
Definition select_liqWealth (include_installment : bool) (h : HH.t A) : A :=
  if include_installment then HH.liqWealthInst h else HH.liqWealthKaplan h.

(** Lines 140-149: drop negative liquid wealth, then [normweight],
    [edfrac] and [edWeight] over the rows that are left. *)
Definition reweight (df : list (HH.t A * A)) : list (Panel.t A) :=
  let df := List.filter (fun p => of_Q 0 <=? snd p) df in
  let total_weight := col_sum (map (fun p => HH.weight (fst p)) df) in
  let df := map (fun p => (p, HH.weight (fst p) / total_weight)) df in
  map (fun q =>
         let edfrac := transform_sum (fun x => HH.myEd (fst (fst x))) snd df q in
         Panel.mk (fst (fst q)) (snd (fst q)) (snd q) edfrac (snd q / edfrac))
      df.

Definition calculate_liquid_wealth (df : list (Raw.t A))
    (include_installment : bool) : list (Panel.t A) :=
  let df := household_rows df in
  let df := drop_lowest_income df in
  let df := map (fun h => (h, select_liqWealth include_installment h)) df in
  reweight df.

(** The default of the parameter: [include_installment: bool = False]. *)
Definition include_installment_default : bool := false.
End CalculateLiquidWealth.

(** [calculate_statistics] computes its statistics one after the other on
    the panel, and an exception in one step ends the whole call.  Embedded
    here is the call as far as line 289, where the Lorenz table of all
    households is complete: the steps that can raise an exception on the
    way (the weighted averages of line 208, the aggregation of line 216,
    the weighted medians of lines 243-253), the weighted medians, the
    Lorenz table of all households and its readouts.  The values of the
    shares by education and of the income moments, which need logarithms
    and square roots, are not embedded, nor are the Lorenz curves by
    education and the wealth quartiles, which come after line 289. *)

(** How the call can end before line 289, and what it has computed when it
    gets there. *)
Module Stats.
(** [ZeroDivisionError]: [np.average] at line 208, the weights of the
    households aged 25 of a group sum to zero.  [KeyError]: line 216, no
    household of the three groups is aged 25, so that lines 213-214 never
    created the columns to aggregate.  [IndexError]: line 251, [cumsum[-1]] of a group without
    a household.  [Exception]: an empty panel, on which the call raises at
    line 216 at the latest. *)
Inductive raised : Type :=
| Exception
| ZeroDivisionError
| KeyError
| IndexError.

Section Results.
Context {A : Type}.
Record t := mk {
  wtMedLWoPI : list (Z * A);
  lorenz_points : list (string * option A);
  lorenz_all : list (Lorenz.t A)
}.
End Results.
Arguments t : clear implicits.
End Stats.

Section CalculateStatistics.
Context {A : Type} `{Num A}.
Local Open Scope num_scope.

(** [np.searchsorted(a, v)] (side = 'left'): numpy's binary search.  It
    probes the middle of [lo, hi) and moves right while the probe is
    below [v]; [hi - lo] steps of fuel are enough. *)
Fixpoint binsearch_left (fuel : nat) (a : list A) (v : A) (lo hi : nat) : nat :=
  match fuel with
  | O => lo
  | S fuel =>
      if (lo <? hi)%nat then
        let mid := (lo + (hi - lo) / 2)%nat in
        match a !! mid with
        | Some x => if x <? v then binsearch_left fuel a v (S mid) hi
                    else binsearch_left fuel a v lo mid
        | None => lo
        end
      else lo
  end.

Definition searchsorted (a : list A) (v : A) : nat :=
  binsearch_left (length a) a v 0 (length a).

(** [df.sort_values(['liqWealth', 'yy1'])]. *)
Definition by_liqWealth_yy1 (a b : Panel.t A) : bool :=
  (Panel.liqWealth a <? Panel.liqWealth b)
  || ((Panel.liqWealth a =? Panel.liqWealth b) && (Panel.yy1 a <=? Panel.yy1 b)%Z).

(** Line 241.  In binary64 a household with [permInc] 0 has the ratio inf,
    or NaN when its liquid wealth is 0 as well; exact rationals have no
    such values, and the statements in exact arithmetic are about groups
    whose households have a [permInc] other than 0. *)
Definition indLWoPI (p : Panel.t A) : A := Panel.liqWealth p / Panel.permInc p.

(** [subset.sort_values('indLWoPI')]: ascending, with a missing ratio (NaN,
    the value that is not equal to itself) after every number. *)
Definition by_indLWoPI (a b : Panel.t A * A) : bool :=
  (snd a <=? snd b) || negb (snd b =? snd b).

(** Lines 245-252 on the rows of one education group, given with their
    [indLWoPI].  [None] is the IndexError of [cumsum[-1]] on an empty
    group. *)
Definition weighted_median (subset : list (Panel.t A * A)) : option A :=
  let subset := sort_values by_indLWoPI subset in
  let weights := map (fun p => Panel.edWeight (fst p)) subset in
  let values := map snd subset in
  let cumsum := cumsum weights in
  match last_item cumsum with
  | None => None
  | Some total =>
      let median_idx := searchsorted cumsum (total / of_Q 2) in
      if (median_idx <? length values)%nat then values !! median_idx
      else last_item values
  end.

(** Lines 160, 241 and 244: the rows of education group [ed], in the
    order of the table sorted at line 160, each with its [indLWoPI]. *)
Definition subset_of (df : list (Panel.t A)) (ed : Z) : list (Panel.t A * A) :=
  let df := sort_values by_liqWealth_yy1 df in
  let df := map (fun p => (p, indLWoPI p)) df in
  List.filter (fun p => (Panel.myEd (fst p) =? ed)%Z) df.

(** One turn of the loop of lines 243-253: [wtMedLWoPI] of education
    group [ed].  The loop is [median_loop], which ends the call at the
    first group without a household. *)
Definition wtMedLWoPI (df : list (Panel.t A)) (ed : Z) : option A :=
  weighted_median (subset_of df ed).

(** Lines 160-163 and 274-277: the Lorenz table of all households, which
    the call has at line 289 when no step before has raised (see
    [calculate_statistics_to_lorenz_all]).  [sumNormW] is computed after
    the first sort, [sumLWall] after the second. *)
Definition lorenz_all (df : list (Panel.t A)) : list (Lorenz.t A) :=
  let df := sort_values by_liqWealth_yy1 df in
  let sumNormW := map (fun s => s * of_Q 100) (cumsum (map Panel.normweight df)) in
  let df := combine df sumNormW in
  let df := sort_values (fun a b => by_liqWealth_yy1 (fst a) (fst b)) df in
  let weightedLW_all :=
    map (fun p => Panel.normweight (fst p) * Panel.liqWealth (fst p)) df in
  let tot_weighted_lw := col_sum weightedLW_all in
  let sumLWall :=
    map (fun s => s * of_Q 100)
        (cumsum (map (fun w => w / tot_weighted_lw) weightedLW_all)) in
  map (fun q => Lorenz.mk (Panel.yy1 (fst (fst q))) (Panel.myEd (fst (fst q)))
                          (snd (fst q)) (snd q))
      (combine df sumLWall).

(** Line 282: [df[df['sumNormW'] < pct]['sumLWall'].max()]; [None] is the
    NaN of an empty selection. *)
Definition wealth_share (lorenz : list (Lorenz.t A)) (pct : A) : option A :=
  col_max (map Lorenz.sumLWall
               (List.filter (fun r => Lorenz.sumNormW r <? pct) lorenz)).

(** Lines 280-286: the entry [results['lorenz_all']]. *)
Definition lorenz_points (df : list (Panel.t A)) : list (string * option A) :=
  let lorenz := lorenz_all df in
  map (fun kp => (fst kp, option_map round2 (wealth_share lorenz (of_Q (snd kp)))))
      [("LC_all_20", 20%Q); ("LC_all_40", 40%Q);
       ("LC_all_60", 60%Q); ("LC_all_80", 80%Q)].

(** Line 202: the households of group [ed] aged 25. *)
Definition aged_25 (df : list (Panel.t A)) (ed : Z) : list (Panel.t A) :=
  List.filter (fun p => (Panel.myEd p =? ed)%Z
                        && (HH.age (Panel.hh p) =? of_Q 25)) df.

(** Lines 201-214, for the groups [eds] still to come: [np.average] raises
    when the weights sum to zero; [created] tells whether lines 213-214
    have run, which creates the columns [mean_initial_income] and
    [sdev_initial_logIncome]. *)
Fixpoint initial_income (eds : list Z) (df : list (Panel.t A)) (created : bool)
  : Stats.raised + bool :=
  match eds with
  | [] => inr created
  | ed :: eds =>
      let subset := aged_25 df ed in
      if (0 <? length subset)%nat then
        if col_sum (map Panel.edWeight subset) =? of_Q 0
        then inl Stats.ZeroDivisionError
        else initial_income eds df true
      else initial_income eds df created
  end.

(** Lines 243-253, for the groups [eds] still to come. *)
Fixpoint median_loop (eds : list Z) (df : list (Panel.t A))
  : Stats.raised + list (Z * A) :=
  match eds with
  | [] => inr []
  | ed :: eds =>
      match wtMedLWoPI df ed with
      | None => inl Stats.IndexError
      | Some median =>
          match median_loop eds df with
          | inl e => inl e
          | inr medians => inr ((ed, median) :: medians)
          end
      end
  end.

(** [calculate_statistics] as far as line 289. *)
Definition calculate_statistics_to_lorenz_all (df : list (Panel.t A))
  : Stats.raised + Stats.t A :=
  match df with
  | [] => inl Stats.Exception
  | _ =>
      match initial_income [1%Z; 2%Z; 3%Z] df false with
      | inl e => inl e
      | inr false => inl Stats.KeyError
      | inr true =>
          match median_loop [1%Z; 2%Z; 3%Z] df with
          | inl e => inl e
          | inr medians =>
              inr (Stats.mk medians (lorenz_points df) (lorenz_all df))
          end
      end
  end.
End CalculateStatistics.

(** ** adjust_scf_inflation.py *)

(** Empirically-determined inflation factor (2013$ -> 2022$). *)
Definition INFLATION_FACTOR : Q := 1.1587.

(** Dollar-denominated variables in rscfp2004.dta. *)
Definition DOLLAR_VARIABLES : list string :=
  [ "income"; "wageinc"; "bussefarminc"; "intdivinc"; "kginc"; "ssretinc";
    "transfothinc"; "norminc"; "networth"; "asset"; "fin"; "nfin"; "debt";
    "mrthel"; "resdbt"; "othloc"; "ccbal"; "install"; "odebt"; "liq"; "cds";
    "nmmf"; "stocks"; "bond"; "savbnd"; "cashli"; "othma"; "othfin"; "vehic";
    "houses"; "oresre"; "nnresre"; "bus"; "othnfin"; "veh_inst" ].

Section AdjustInflation.
Context {A : Type} `{Num A}.
Local Open Scope num_scope.

(** [df[var].abs().max() > 0]: false on an empty column, whose maximum is
    NaN. *)
Definition has_nonzero (col : list A) : bool :=
  match col_max (map abs col) with
  | Some m => of_Q 0 <? m
  | None => false
  end.

(** Lines 98-100: the body of the loop for one variable. *)
Definition adjust_var (df : gmap string (list A)) (var : string)
  : gmap string (list A) :=
  match df !! var with
  | Some col =>
      if has_nonzero col
      then <[var := map (fun x => x / of_Q INFLATION_FACTOR) col]> df
      else df
  | None => df
  end.

(** Lines 86 and 94-100 on the table read from [input_file]; the result is
    the table written to [output_file]. *)
Definition adjust_inflation (df : gmap string (list A)) : gmap string (list A) :=
  let present_vars :=
    List.filter (fun var => bool_decide (is_Some (df !! var))) DOLLAR_VARIABLES in
  fold_left adjust_var present_vars df.
End AdjustInflation.

(** ** compare_scf_datasets.py *)

(** What [print_comparison] can raise: a missing key of a results
    dictionary, or a division by zero. *)
Inductive error : Type :=
| KeyError (key : string)
| ZeroDivisionError.

Definition M (X : Type) : Type := (error + X)%type.

#[export] Instance M_ret : MRet M := fun _ x => inr x.
#[export] Instance M_bind : MBind M :=
  fun _ _ f m => match m with inl e => inl e | inr x => f x end.

Inductive verdict : Type :=
| EXCELLENT_MATCH
| GOOD_MATCH
| SIGNIFICANT_DIFFERENCES.

Definition dollar_metrics : list string :=
  [ "median_income"; "mean_income"; "min_income"; "median_liq_wealth";
    "mean_liq_wealth"; "p10_liq_wealth"; "p25_liq_wealth"; "p50_liq_wealth";
    "p75_liq_wealth"; "p90_liq_wealth" ].

Definition non_dollar_metrics : list string :=
  [ "median_wealth_income_ratio"; "frac_negative_wealth"; "mean_age";
    "frac_ed_1"; "frac_ed_2"; "frac_ed_3" ].

Section PrintComparison.
Context {A : Type} `{Num A}.
Local Open Scope num_scope.

(** [results[key]]. *)
Definition getitem (results : gmap string A) (key : string) : M A :=
  match results !! key with
  | Some v => mret v
  | None => inl (KeyError key)
  end.

(** [x / y], with the division by zero made visible. *)
Definition checked_div (x y : A) : M A :=
  if y =? of_Q 0 then inl ZeroDivisionError else mret (x / y).

(** Lines 144 and 168:
    [abs(latest_val - git_val) / abs(git_val) * 100 if git_val != 0 else 0]. *)
Definition pct_diff (git_val latest_val : A) : M A :=
  if negb (git_val =? of_Q 0) then
    q ← checked_div (abs (latest_val - git_val)) (abs git_val);
    mret (q * of_Q 100)
  else mret (of_Q 0).

(** Python's [max(a, b)]: [b] when [b > a], else [a]. *)
Definition max2 (a b : A) : A := if a <? b then b else a.

(** The loops at lines 140-146 and 164-169, from the running maximum
    [max_diff]. *)
Fixpoint max_pct_diff (metrics : list string)
    (results_git results_latest : gmap string A) (max_diff : A) : M A :=
  match metrics with
  | [] => mret max_diff
  | key :: rest =>
      git_val ← getitem results_git key;
      latest_val ← getitem results_latest key;
      d ← pct_diff git_val latest_val;
      max_pct_diff rest results_git results_latest (max2 max_diff d)
  end.

(** Lines 183-194. *)
Definition verdict_of (max_dollar_diff max_nondollar_diff : A) : verdict :=
  if (max_dollar_diff <? of_Q 0.05) && (max_nondollar_diff <? of_Q 0.01)
  then EXCELLENT_MATCH
  else if max_dollar_diff <? of_Q 0.1 then GOOD_MATCH
  else SIGNIFICANT_DIFFERENCES.

(** [print_comparison]: the two maxima of the summary and the verdict. *)
Definition print_comparison (results_git results_latest : gmap string A)
  : M (A * A * verdict) :=
  _ ← getitem results_git "n_observations";
  _ ← getitem results_latest "n_observations";
  _ ← getitem results_git "n_households";
  _ ← getitem results_latest "n_households";
  max_dollar_diff ←
    max_pct_diff dollar_metrics results_git results_latest (of_Q 0);
  max_nondollar_diff ←
    max_pct_diff non_dollar_metrics results_git results_latest (of_Q 0);
  mret (max_dollar_diff, max_nondollar_diff,
        verdict_of max_dollar_diff max_nondollar_diff).
End PrintComparison.

(** ** Auxiliary definitions of the proofs *)

Section ProofDefinitions.
Context {A : Type} `{Num A}.

(** What lines 66-68 make of one row [r]. *)
Definition corrected_rows (ccbal_df : list Aux.t) (r : Raw.t A) : list (Raw.t A) :=
  match List.filter (fun a => (Aux.y1 a =? Raw.y1 r)%Z) ccbal_df with
  | [] => [r]
  | matches =>
      map (fun a => if (Aux.x432 a =? 1)%Z then Raw.set_ccbal (of_Q 0) r else r)
          matches
  end.

(** The key convention of the SCF extract: [y1] identifies a row and is
    [10 * yy1 + i] for the implicate number [i] in 1..5. *)
Definition scf_keys (df : list (Raw.t A)) : Prop :=
  List.NoDup (map Raw.y1 df)
  /\ Forall (fun r => exists i, (1 <= i <= 5)%Z
                             /\ Raw.y1 r = (10 * Raw.yy1 r + i)%Z) df.

(** The household row that lines 111-120 compute at the implicate row
    [r] of [df]. *)
Definition household_of (df : list (Raw.t A)) (r : Raw.t A) : HH.t A :=
  HH.mk (Raw.yy1 r) (Raw.age r) (myEd_of (Raw.edcl r))
        (transform_mean Raw.yy1 tempLiqWealthInst df r)
        (transform_mean Raw.yy1 tempLiqWealthKaplan df r)
        (transform_mean Raw.yy1 Raw.norminc df r)
        (mul (transform_mean Raw.yy1 Raw.wgt df r) (of_Q 5)).
End ProofDefinitions.

(** A table in the order of the comparison [le]. *)
Definition ordered {R : Type} (le : R -> R -> bool) (l : list R) : Prop :=
  Sorted (fun a b => le a b = true) l.

(** The sum of a list of rationals written out, the measure of the
    statements about sums; [col_sum] is the sum the program computes. *)
Definition Qsum (l : list Q) : Q := fold_right Qplus 0%Q l.

(** The arithmetic of the interface at the exact instance. *)
Ltac unfold_num :=
  change (@add Q Num_Q) with Qplus in *;
  change (@sub Q Num_Q) with Qminus in *;
  change (@mul Q Num_Q) with Qmult in *;
  change (@div Q Num_Q) with Qdiv in *;
  change (@abs Q Num_Q) with Qabs in *;
  change (@leb Q Num_Q) with Qle_bool in *;
  change (@eqb Q Num_Q) with Qeq_bool in *;
  change (@of_Q Q Num_Q) with (fun q : Q => q) in *;
  cbv beta in *.

(** ** Example tables *)

Definition raw_row := @Raw.mk Q.

(** Two implicates of household 7 and one of household 8; the answer table
    flags implicate 71 ([x432 = 1]), answers 5 for implicate 72 and has no
    row for implicate 81. *)
Definition raw_example : list (Raw.t Q) :=
  [ raw_row 7 71 1000 40 9 2 50000 100 0 0 0 0 500 0 0;
    raw_row 7 72 1200 42 9 2 52000 200 0 0 0 0 300 40 10;
    raw_row 8 81 900 30 12 4 80000 1000 50 0 0 0 250 0 0 ].

Definition ccbal_example : list Aux.t :=
  [ Aux.mk 71 1; Aux.mk 72 5 ]%Z.


(** A table with a listed column that has a non-zero entry, a listed column
    that is entirely zero, and a column that is not listed. *)
Definition table_example : gmap string (list Q) :=
  <["income" := [11587%Q; 0%Q]]>
    (<["kginc" := [0%Q; 0%Q]]> (<["age" := [40%Q; 42%Q]]> ∅)).

(** Two results dictionaries that agree on every statistic but
    [min_income], whose reference value is 0. *)
Definition results_example (min_income : Q) : gmap string Q :=
  list_to_map
    [ ("n_observations", 15%Q); ("n_households", 3%Q);
      ("median_income", 50000%Q); ("mean_income", 61000%Q);
      ("min_income", min_income); ("median_liq_wealth", 1200%Q);
      ("mean_liq_wealth", 9000%Q); ("p10_liq_wealth", 10%Q);
      ("p25_liq_wealth", 300%Q); ("p50_liq_wealth", 1200%Q);
      ("p75_liq_wealth", 7000%Q); ("p90_liq_wealth", 30000%Q);
      ("median_wealth_income_ratio", 0.024%Q);
      ("frac_negative_wealth", 0.1%Q); ("mean_age", 43.5%Q);
      ("frac_ed_1", 0.1%Q); ("frac_ed_2", 0.5%Q); ("frac_ed_3", 0.4%Q) ].

(** Four households with the SCF keys: household 1, aged 25, has two
    implicates, the others one; two of them are in education tier 2. *)
Definition raw_panel_example : list (Raw.t Q) :=
  [ raw_row 1 11 100 25 8 1 20000 100 0 0 0 0 0 0 0;
    raw_row 1 12 120 25 8 1 20000 300 0 0 0 0 0 0 0;
    raw_row 2 21 200 41 9 2 40000 1000 500 0 0 0 50 0 0;
    raw_row 3 31 300 52 12 4 90000 2000 0 0 10000 0 100 0 0;
    raw_row 4 41 180 37 10 3 45000 0 0 0 0 0 0 0 0 ].

(** Four households of one education tier with weights 1, 1, 1, 1 and
    liquid wealth 0, 10, 20, 70, and the panel the re-weighting makes of
    them. *)
Definition hh4 {A : Type} `{Num A} : list (HH.t A * A) :=
  map (fun iw : Z * Q =>
         (HH.mk (fst iw) (of_Q 40) 2%Z (of_Q (snd iw)) (of_Q (snd iw))
                (of_Q 1000) (of_Q 1),
          of_Q (snd iw)))
      [ (1%Z, 0%Q); (2%Z, 10%Q); (3%Z, 20%Q); (4%Z, 70%Q) ].

Definition panel4 {A : Type} `{Num A} : list (Panel.t A) := reweight hh4.

(** A hundred households with the same weight 1 and the distinct incomes
    1000, 2000, ..., 100000; household [i] has the [i]-th lowest income. *)
Definition hh100 {A : Type} `{Num A} : list (HH.t A) :=
  map (fun i : nat =>
         HH.mk (Z.of_nat i) (of_Q 40) 2%Z (of_Q 0) (of_Q 0)
               (of_Q (inject_Z (1000 * Z.of_nat i))) (of_Q 1))
      (seq 1 100).

(** The panel of the same four households of weight 1 and liquid wealth
    0, 10, 20, 70, spread over the three education tiers, the first of
    them aged 25. *)
Definition hh4_three_tiers {A : Type} `{Num A} : list (HH.t A * A) :=
  map (fun r : Z * Z * Q * Q =>
         let '(id, ed, age, w) := r in
         (HH.mk id (of_Q age) ed (of_Q w) (of_Q w) (of_Q 1000) (of_Q 1),
          of_Q w))
      [ (1%Z, 1%Z, 25%Q, 0%Q); (2%Z, 2%Z, 40%Q, 10%Q);
        (3%Z, 3%Z, 40%Q, 20%Q); (4%Z, 2%Z, 40%Q, 70%Q) ].

Definition panel4_three_tiers {A : Type} `{Num A} : list (Panel.t A) :=
  reweight hh4_three_tiers.

(** Five households of weight 1 and liquid wealth 0, 10, 20, 30, 40 in the
    three education tiers, the first of them aged 25: the cumulative
    population shares are the thresholds 20, 40, 60, 80 themselves. *)
Definition hh5_three_tiers {A : Type} `{Num A} : list (HH.t A * A) :=
  map (fun r : Z * Z * Q * Q =>
         let '(id, ed, age, w) := r in
         (HH.mk id (of_Q age) ed (of_Q w) (of_Q w) (of_Q 1000) (of_Q 1),
          of_Q w))
      [ (1%Z, 1%Z, 25%Q, 0%Q); (2%Z, 2%Z, 40%Q, 10%Q);
        (3%Z, 3%Z, 40%Q, 20%Q); (4%Z, 2%Z, 40%Q, 30%Q);
        (5%Z, 2%Z, 40%Q, 40%Q) ].

Definition panel5_three_tiers {A : Type} `{Num A} : list (Panel.t A) :=
  reweight hh5_three_tiers.

(** A raw row from rational entries, at any instance of the arithmetic. *)
Definition raw_of {A : Type} `{Num A} (yy1 y1 : Z) (wgt age : Q) (edcl : Z)
    (norminc liq cds ccbal : Q) : Raw.t A :=
  Raw.mk yy1 y1 (of_Q wgt) (of_Q age) 12%Z edcl (of_Q norminc)
         (of_Q liq) (of_Q cds) (of_Q 0) (of_Q 0) (of_Q 0) (of_Q ccbal)
         (of_Q 0) (of_Q 0).

(** Three households, one in each education tier and the first aged 25,
    none with any liquid wealth. *)
Definition raw_no_wealth {A : Type} `{Num A} : list (Raw.t A) :=
  [ raw_of 1 11 100 25 1 20000 0 0 0;
    raw_of 2 21 100 40 2 40000 0 0 0;
    raw_of 3 31 100 50 4 90000 0 0 0 ].

(** Four households in the three tiers, the first aged 25, with liquid
    wealth 0, 1000, 2000 and 3000; the third has the sample weight -40. *)
Definition raw_negative_weight {A : Type} `{Num A} : list (Raw.t A) :=
  [ raw_of 1 11 100 25 1 20000 0 0 0;
    raw_of 2 21 100 40 2 40000 0 1000 0;
    raw_of 3 31 (-40) 50 4 90000 0 2000 0;
    raw_of 4 41 100 45 2 50000 0 3000 0 ].

(** Four households: the first, with the lowest income, carries less than
    5 percent of the weight, the second has negative liquid wealth, the
    third and the fourth are in tier 2. *)
Definition raw_with_drops {A : Type} `{Num A} : list (Raw.t A) :=
  [ raw_of 1 11 1 30 1 1000 100 0 0;
    raw_of 2 21 100 30 1 20000 0 0 500;
    raw_of 3 31 200 30 2 40000 1000 0 0;
    raw_of 4 41 300 30 2 90000 2000 0 0 ].

(** Two households: the first has the sample weight 0, the second has
    negative liquid wealth and the lower income. *)
Definition raw_zero_weight {A : Type} `{Num A} : list (Raw.t A) :=
  [ raw_of 1 11 0 30 1 50000 100 0 0;
    raw_of 2 21 100 30 1 20000 0 0 500 ].

(** Four households in the three tiers, the first aged 25; in tier 2
    household 2 has liquid wealth 20000 on the income 40000, and household
    3 has neither income nor liquid wealth. *)
Definition raw_zero_income {A : Type} `{Num A} : list (Raw.t A) :=
  [ raw_of 1 11 100 25 1 20000 100 0 0;
    raw_of 2 21 100 40 2 40000 0 20000 0;
    raw_of 3 31 300 40 2 0 0 0 0;
    raw_of 4 41 100 50 4 90000 0 1000 0 ].

(** Household 1 with three implicates, the first of them with a negative
    [norminc], and household 2 with one. *)
Definition raw_lost_implicate {A : Type} `{Num A} : list (Raw.t A) :=
  [ raw_of 1 11 100 40 2 (-1) 100 0 0;
    raw_of 1 12 110 40 2 30000 100 0 0;
    raw_of 1 13 120 40 2 31000 100 0 0;
    raw_of 2 21 200 40 2 40000 100 0 0 ].

(** Two rows of household 2 numbered 21 and 26, against the SCF
    convention. *)
Definition raw_other_keys {A : Type} `{Num A} : list (Raw.t A) :=
  [ raw_of 2 21 200 40 2 40000 100 0 0;
    raw_of 2 26 220 40 2 40000 100 0 0 ].

(** A hand-made panel in three tiers, the first household aged 25, in
    which the two households of tier 2 have the tier weights -2 and 1 and
    the ratios 1/10 and 3/10. *)
Definition panel_negative_weights : list (Panel.t Q) :=
  map (fun r : Z * Z * Q * Q * Q =>
         let '(id, ed, age, w, edw) := r in
         Panel.mk (HH.mk id age ed w w 1000%Q 1%Q) w (1 # 4)%Q (1 # 4)%Q edw)
      [ (1%Z, 1%Z, 25%Q, 100%Q, 1%Q); (2%Z, 2%Z, 40%Q, 100%Q, (-2)%Q);
        (3%Z, 2%Z, 40%Q, 300%Q, 1%Q); (4%Z, 3%Z, 40%Q, 500%Q, 1%Q) ].

(** A hand-made panel in three tiers, the first household aged 25, in
    which the three households of tier 2 have the tier weights 1, -1, 1
    and the ratios 0.1, 0.2, 0.3. *)
Definition panel_mixed_weights {A : Type} `{Num A} : list (Panel.t A) :=
  map (fun r : Z * Z * Q * Q * Q =>
         let '(id, ed, age, w, edw) := r in
         Panel.mk (HH.mk id (of_Q age) ed (of_Q w) (of_Q w) (of_Q 1000) (of_Q 1))
                  (of_Q w) (of_Q 0.2) (of_Q 0.2) (of_Q edw))
      [ (1%Z, 1%Z, 25%Q, 100%Q, 1%Q); (2%Z, 2%Z, 40%Q, 100%Q, 1%Q);
        (3%Z, 2%Z, 40%Q, 200%Q, (-1)%Q); (4%Z, 2%Z, 40%Q, 300%Q, 1%Q);
        (5%Z, 3%Z, 40%Q, 500%Q, 1%Q) ].

(** A table whose listed column [income] has its only non-zero entry in
    the second row. *)
Definition table_late_nonzero : gmap string (list Q) :=
  <["income" := [0%Q; 11587%Q]]> (<["age" := [40%Q; 42%Q]]> ∅).
(** ** Further example tables *)

(** [raw_example] after the household ages 40 and 42 of household 7 are
    replaced by their mean 41. *)
Definition merged_example : list (Raw.t Q) :=
  merge_and_filter raw_example ccbal_example.


Definition hh_default : HH.t Q := HH.mk 0%Z 0%Q 0%Z 0%Q 0%Q 0%Q 0%Q.

Definition panel_default : Panel.t Q := Panel.mk hh_default 0%Q 0%Q 0%Q 0%Q.


(** The keys [print_comparison] reads from each of its two dictionaries,
    in the order of the reads (lines 118-119, 127-138 and 155-162). *)
Definition keys_read : list string :=
  ["n_observations"; "n_households"] ++ dollar_metrics ++ non_dollar_metrics.

(** [results_example] with other education shares. *)
Definition results_other_shares : gmap string Q :=
  <["frac_ed_1" := 0.6%Q]> (<["frac_ed_2" := 0.3%Q]> (results_example 30000)).

(** * Properties *)

(** ** Auxiliary-correction merge *)

Section MergeFacts.
Context {A : Type} `{Num A}.

Lemma merge_ccbal_flat_map (df : list (Raw.t A)) (ccbal_df : list Aux.t) :
  merge_ccbal df ccbal_df = flat_map (corrected_rows ccbal_df) df.
Proof.
  unfold merge_ccbal, merge_left, corrected_rows.
  induction df as [|r df IH]; [reflexivity|].
  cbn [flat_map]. rewrite !map_app, IH. f_equal.
  destruct (List.filter _ ccbal_df) as [|a matches]; [reflexivity|].
  rewrite !map_map. apply map_ext. intros b. cbn.
  destruct (Aux.x432 b =? 1)%Z; reflexivity.
Qed.

Lemma corrected_rows_nonempty ccbal_df (r : Raw.t A) :
  (1 <= length (corrected_rows ccbal_df r))%nat.
Proof.
  unfold corrected_rows.
  destruct (List.filter _ ccbal_df); cbn; lia.
Qed.

Lemma flat_map_length_ge {X Y : Type} (f : X -> list Y) (l : list X) :
  (forall x, 1 <= length (f x))%nat -> (length l <= length (flat_map f l))%nat.
Proof.
  intros Hf. induction l as [|x l IH]; cbn; [lia|].
  rewrite length_app. specialize (Hf x). lia.
Qed.

Lemma filter_key_at_most_one (ccbal_df : list Aux.t) (k : Z) :
  List.NoDup (map Aux.y1 ccbal_df) ->
  List.filter (fun a => (Aux.y1 a =? k)%Z) ccbal_df
  = match List.find (fun a => (Aux.y1 a =? k)%Z) ccbal_df with
    | Some a => [a]
    | None => []
    end.
Proof.
  induction ccbal_df as [|a l IH]; intros Hnd; [reflexivity|].
  cbn in Hnd. apply NoDup_cons_iff in Hnd as [Hnin Hnd].
  cbn. destruct (Aux.y1 a =? k)%Z eqn:E.
  - f_equal. apply Z.eqb_eq in E.
    destruct (List.filter _ l) as [|b l'] eqn:F; [reflexivity|].
    assert (Hb : In b (List.filter (fun a0 => (Aux.y1 a0 =? k)%Z) l))
      by (rewrite F; left; reflexivity).
    apply filter_In in Hb as [Hb1 Hb2]. apply Z.eqb_eq in Hb2.
    exfalso. apply Hnin. rewrite E, <- Hb2. apply in_map. exact Hb1.
  - apply IH. exact Hnd.
Qed.
End MergeFacts.

(** C8.  Lines 66-68 are a left join: no row of the raw table is lost (a
    row without a match in the answer table stays as it is), a row joined
    to an answer [x432 = 1] gets [ccbal = 0] whatever its raw value, and a
    row joined to another answer keeps its [ccbal]; every output row arises
    in one of these ways.  When the answer table has one row per [y1] the
    output is the raw table, row for row, with only those balances
    zeroed. *)
Theorem C8_merge_left_join_zeroes_flagged_ccbal
    {A : Type} `{Num A} (df : list (Raw.t A)) (ccbal_df : list Aux.t) :
  (length df <= length (merge_ccbal df ccbal_df))%nat
  /\ (forall r, In r df ->
        let matches := List.filter (fun a => (Aux.y1 a =? Raw.y1 r)%Z) ccbal_df in
        (matches = [] -> In r (merge_ccbal df ccbal_df))
        /\ (forall a, In a matches ->
              In (if (Aux.x432 a =? 1)%Z then Raw.set_ccbal (of_Q 0) r else r)
                 (merge_ccbal df ccbal_df)))
  /\ (forall r', In r' (merge_ccbal df ccbal_df) ->
        exists r, In r df
          /\ ((r' = r /\ forall a, In a ccbal_df -> Aux.y1 a <> Raw.y1 r)
              \/ (exists a, In a ccbal_df /\ Aux.y1 a = Raw.y1 r
                    /\ r' = if (Aux.x432 a =? 1)%Z
                            then Raw.set_ccbal (of_Q 0) r else r)))
  /\ (List.NoDup (map Aux.y1 ccbal_df) ->
        merge_ccbal df ccbal_df
        = map (fun r =>
                 match List.find (fun a => (Aux.y1 a =? Raw.y1 r)%Z) ccbal_df with
                 | Some a => if (Aux.x432 a =? 1)%Z
                             then Raw.set_ccbal (of_Q 0) r else r
                 | None => r
                 end) df).
Proof.
  rewrite merge_ccbal_flat_map. split; [|split; [|split]].
  - apply flat_map_length_ge, corrected_rows_nonempty.
  - intros r Hr matches. split.
    + intros E. apply in_flat_map. exists r. split; [assumption|].
      unfold corrected_rows. fold matches. rewrite E. left; reflexivity.
    + intros a Ha. apply in_flat_map. exists r. split; [assumption|].
      unfold corrected_rows. fold matches.
      destruct matches as [|b l]; [destruct Ha|].
      apply (in_map (fun a => if (Aux.x432 a =? 1)%Z
                              then Raw.set_ccbal (of_Q 0) r else r)) in Ha.
      exact Ha.
  - intros r' Hr'. apply in_flat_map in Hr' as (r & Hr & Hin).
    exists r. split; [assumption|]. unfold corrected_rows in Hin.
    destruct (List.filter _ ccbal_df) as [|b l] eqn:F.
    + left. destruct Hin as [<-|[]]. split; [reflexivity|].
      intros a Ha E.
      assert (Hf : In a (List.filter (fun a => (Aux.y1 a =? Raw.y1 r)%Z) ccbal_df))
        by (apply filter_In; split; [assumption|apply Z.eqb_eq; assumption]).
      rewrite F in Hf. destruct Hf.
    + right. apply in_map_iff in Hin as (a & <- & Ha).
      rewrite <- F in Ha. apply filter_In in Ha as [Ha1 Ha2].
      apply Z.eqb_eq in Ha2. exists a. auto.
  - intros Hnd. induction df as [|r df IH]; [reflexivity|].
    cbn [flat_map map]. rewrite IH. clear IH.
    change (corrected_rows ccbal_df r ++ ?l) with (corrected_rows ccbal_df r ++ l).
    unfold corrected_rows at 1.
    rewrite (filter_key_at_most_one ccbal_df (Raw.y1 r) Hnd).
    destruct (List.find _ ccbal_df); reflexivity.
Qed.

(** The scenario of C8 on [raw_example]: the raw balance 500 of the flagged
    implicate 71 becomes 0, the other two balances stay, no row is lost. *)
Lemma C8_witness :
  List.NoDup (map Aux.y1 ccbal_example)
  /\ map Raw.ccbal (merge_ccbal raw_example ccbal_example) = [0%Q; 300%Q; 250%Q]
  /\ merge_ccbal raw_example ccbal_example
     = map (fun r =>
              match List.find (fun a => (Aux.y1 a =? Raw.y1 r)%Z) ccbal_example with
              | Some a => if (Aux.x432 a =? 1)%Z
                          then Raw.set_ccbal (of_Q 0) r else r
              | None => r
              end) raw_example.
Proof.
  assert (Hnd : List.NoDup (map Aux.y1 ccbal_example)).
  { cbn. repeat constructor; cbn; intuition discriminate. }
  split; [exact Hnd|]. split; [reflexivity|].
  exact (proj2 (proj2 (proj2
    (C8_merge_left_join_zeroes_flagged_ccbal raw_example ccbal_example))) Hnd).
Defined.

(** ** Exact arithmetic: comparisons, sums, maxima *)

Section QFacts.
Local Open Scope Q_scope.

Lemma ltb_Q_lt (x y : Q) : ltb x y = true <-> x < y.
Proof.
  unfold ltb, Num_Q. rewrite negb_true_iff. split.
  - intros E. apply Qnot_le_lt. intros L. apply Qle_bool_iff in L. congruence.
  - intros L. destruct (Qle_bool y x) eqn:E; [|reflexivity].
    apply Qle_bool_iff in E. exfalso. exact (Qlt_not_le _ _ L E).
Qed.

Lemma ltb_Q_ge (x y : Q) : ltb x y = false <-> y <= x.
Proof.
  unfold ltb, Num_Q. rewrite negb_false_iff. apply Qle_bool_iff.
Qed.

Lemma leb_Q_le (x y : Q) : leb x y = true <-> x <= y.
Proof. unfold leb, Num_Q. apply Qle_bool_iff. Qed.

Lemma leb_Q_gt (x y : Q) : leb x y = false <-> y < x.
Proof.
  unfold leb, Num_Q. split.
  - intros E. apply Qnot_le_lt. intros L. apply Qle_bool_iff in L. congruence.
  - intros L. destruct (Qle_bool x y) eqn:E; [|reflexivity].
    apply Qle_bool_iff in E. exfalso. exact (Qlt_not_le _ _ L E).
Qed.

Lemma eqb_Q_eq (x y : Q) : eqb x y = true <-> x == y.
Proof. unfold eqb, Num_Q. apply Qeq_bool_iff. Qed.

Lemma eqb_Q_neq (x y : Q) : eqb x y = false <-> ~ x == y.
Proof.
  unfold eqb, Num_Q. split.
  - intros E L. apply Qeq_bool_iff in L. congruence.
  - intros L. destruct (Qeq_bool x y) eqn:E; [|reflexivity].
    apply Qeq_bool_iff in E. contradiction.
Qed.

(** The running maximum of [Series.max()]. *)
Lemma fold_max_spec (l : list Q) (m0 : Q) :
  let m := fold_left (fun m y => if ltb m y then y else m) l m0 in
  (m = m0 \/ In m l) /\ m0 <= m /\ Forall (fun x => x <= m) l.
Proof.
  revert m0. induction l as [|y l IH]; intros m0; cbn [fold_left].
  - split; [left; reflexivity|]. split; [apply Qle_refl|constructor].
  - specialize (IH (if ltb m0 y then y else m0)).
    cbn zeta in IH. destruct IH as (Hin & Hle & Hall).
    set (m := fold_left _ l _) in *.
    destruct (ltb m0 y) eqn:E.
    + apply ltb_Q_lt in E. split; [|split].
      * right. destruct Hin as [->|Hin]; [left; reflexivity|right; exact Hin].
      * apply Qle_trans with y; [apply Qlt_le_weak; exact E|exact Hle].
      * constructor; assumption.
    + apply ltb_Q_ge in E. split; [|split].
      * destruct Hin as [->|Hin]; [left; reflexivity|right; right; exact Hin].
      * exact Hle.
      * constructor; [apply Qle_trans with m0; assumption|assumption].
Qed.

Lemma col_max_spec (l : list Q) (m : Q) :
  col_max l = Some m -> In m l /\ Forall (fun x => x <= m) l.
Proof.
  destruct l as [|x l]; [discriminate|]. unfold col_max. intros [= <-].
  destruct (fold_max_spec l x) as (Hin & Hle & Hall). split.
  - destruct Hin as [->|Hin]; [left; reflexivity|right; exact Hin].
  - constructor; assumption.
Qed.

Lemma col_max_is_Some (l : list Q) : l <> [] -> exists m, col_max l = Some m.
Proof. destruct l; [congruence|]. intros _. eexists. reflexivity. Qed.

(** The running minimum of [Series.min()]. *)
Lemma fold_min_spec (l : list Q) (m0 : Q) :
  let m := fold_left (fun m y => if ltb y m then y else m) l m0 in
  (m = m0 \/ In m l) /\ m <= m0 /\ Forall (fun x => m <= x) l.
Proof.
  revert m0. induction l as [|y l IH]; intros m0; cbn [fold_left].
  - split; [left; reflexivity|]. split; [apply Qle_refl|constructor].
  - specialize (IH (if ltb y m0 then y else m0)).
    cbn zeta in IH. destruct IH as (Hin & Hle & Hall).
    set (m := fold_left _ l _) in *.
    destruct (ltb y m0) eqn:E.
    + apply ltb_Q_lt in E. split; [|split].
      * right. destruct Hin as [->|Hin]; [left; reflexivity|right; exact Hin].
      * apply Qle_trans with y; [exact Hle|apply Qlt_le_weak; exact E].
      * constructor; assumption.
    + apply ltb_Q_ge in E. split; [|split].
      * destruct Hin as [->|Hin]; [left; reflexivity|right; right; exact Hin].
      * exact Hle.
      * constructor; [apply Qle_trans with m0; assumption|assumption].
Qed.

Lemma col_min_spec (l : list Q) (m : Q) :
  col_min l = Some m -> In m l /\ Forall (fun x => m <= x) l.
Proof.
  destruct l as [|x l]; [discriminate|]. unfold col_min. intros [= <-].
  destruct (fold_min_spec l x) as (Hin & Hle & Hall). split.
  - destruct Hin as [->|Hin]; [left; reflexivity|right; exact Hin].
  - constructor; assumption.
Qed.
End QFacts.

(** ** Vintage rescaling *)

Lemma DOLLAR_VARIABLES_NoDup : List.NoDup DOLLAR_VARIABLES.
Proof. apply NoDup_ListNoDup, (bool_decide_unpack _). vm_compute. exact I. Qed.

Section AdjustFacts.
Context {A : Type} `{Num A}.

Lemma adjust_var_lookup_same (df : gmap string (list A)) (var : string) :
  adjust_var df var !! var
  = match df !! var with
    | Some col =>
        Some (if has_nonzero col
              then map (fun x => div x (of_Q INFLATION_FACTOR)) col else col)
    | None => None
    end.
Proof.
  unfold adjust_var. destruct (df !! var) as [col|] eqn:E; [|exact E].
  destruct (has_nonzero col); [apply lookup_insert_eq|exact E].
Qed.

Lemma adjust_var_lookup_other (df : gmap string (list A)) (var other : string) :
  var <> other -> adjust_var df var !! other = df !! other.
Proof.
  intros Hne. unfold adjust_var. destruct (df !! var) as [col|]; [|reflexivity].
  destruct (has_nonzero col); [apply lookup_insert_ne; exact Hne|reflexivity].
Qed.

(** The loop over a duplicate-free list of variables touches each of them
    once and nothing else. *)
Lemma adjust_loop_lookup (vars : list string) (df : gmap string (list A))
    (var : string) :
  List.NoDup vars ->
  fold_left adjust_var vars df !! var
  = if bool_decide (var ∈ vars) then adjust_var df var !! var else df !! var.
Proof.
  revert df. induction vars as [|v vars IH]; intros df Hnd.
  - cbn. rewrite bool_decide_eq_false_2; [reflexivity|]. apply not_elem_of_nil.
  - apply NoDup_cons_iff in Hnd as [Hnin Hnd]. cbn [fold_left].
    rewrite <- list_elem_of_In in Hnin.
    rewrite (IH _ Hnd). destruct (decide (v = var)) as [->|Hne].
    + rewrite (bool_decide_eq_false_2 (var ∈ vars)) by exact Hnin.
      rewrite (bool_decide_eq_true_2 (var ∈ var :: vars)) by apply list_elem_of_here.
      reflexivity.
    + destruct (decide (var ∈ vars)) as [Hin|Hout].
      * rewrite (bool_decide_eq_true_2 _ Hin).
        rewrite (bool_decide_eq_true_2 (var ∈ v :: vars))
          by (apply list_elem_of_further; exact Hin).
        rewrite !adjust_var_lookup_same, adjust_var_lookup_other by exact Hne.
        reflexivity.
      * rewrite (bool_decide_eq_false_2 _ Hout).
        rewrite (bool_decide_eq_false_2 (var ∈ v :: vars)).
        2:{ intros E. apply elem_of_cons in E as [E|E];
              [exact (Hne (eq_sym E))|exact (Hout E)]. }
        apply adjust_var_lookup_other. exact Hne.
Qed.

Lemma adjust_inflation_lookup (df : gmap string (list A)) (var : string) :
  adjust_inflation df !! var
  = match df !! var with
    | Some col =>
        Some (if bool_decide (var ∈ DOLLAR_VARIABLES) && has_nonzero col
              then map (fun x => div x (of_Q INFLATION_FACTOR)) col else col)
    | None => None
    end.
Proof.
  unfold adjust_inflation. rewrite adjust_loop_lookup.
  2:{ apply List.NoDup_filter, DOLLAR_VARIABLES_NoDup. }
  destruct (df !! var) as [col|] eqn:E.
  - destruct (decide (var ∈ DOLLAR_VARIABLES)) as [Hin|Hout].
    + rewrite bool_decide_eq_true_2.
      2:{ apply list_elem_of_In, filter_In. split; [apply list_elem_of_In, Hin|].
          apply bool_decide_eq_true_2. rewrite E. eexists; reflexivity. }
      rewrite adjust_var_lookup_same, E.
      rewrite (bool_decide_eq_true_2 _ Hin). reflexivity.
    + rewrite bool_decide_eq_false_2.
      2:{ intros Hf. apply list_elem_of_In, filter_In in Hf as [Hf _].
          apply list_elem_of_In in Hf. exact (Hout Hf). }
      rewrite (bool_decide_eq_false_2 _ Hout). reflexivity.
  - rewrite bool_decide_eq_false_2; [reflexivity|].
    intros Hf. apply list_elem_of_In, filter_In in Hf as [_ Hf].
    apply bool_decide_eq_true_1 in Hf. rewrite E in Hf.
    destruct Hf as [? Hf]. discriminate.
Qed.
End AdjustFacts.

(** [df[var].abs().max() > 0] in exact arithmetic: some entry is not 0. *)
Lemma has_nonzero_Q (col : list Q) :
  has_nonzero col = true <-> exists x, In x col /\ ~ (x == 0)%Q.
Proof.
  unfold has_nonzero. destruct (col_max (map abs col)) as [m|] eqn:E.
  - apply col_max_spec in E as [Hm Hall]. rewrite ltb_Q_lt. split.
    + intros Hpos. apply in_map_iff in Hm as (x & Hx & Hin).
      exists x. split; [exact Hin|]. intros Hz.
      unfold abs, Num_Q in Hx. rewrite <- Hx, Hz in Hpos.
      revert Hpos. apply Qlt_irrefl.
    + intros (x & Hin & Hnz). rewrite List.Forall_forall in Hall.
      specialize (Hall (abs x) (in_map abs col x Hin)).
      apply Qlt_le_trans with (abs x); [|exact Hall].
      unfold abs, Num_Q, of_Q.
      destruct (Q_dec x 0) as [[L|L]|L]; [| |contradiction];
        apply Qabs_case; intros; lra.
  - destruct col; [|discriminate]. split; [discriminate|].
    intros (x & [] & _).
Qed.

(** C9.  In the table [adjust_inflation] writes, a column named in
    [DOLLAR_VARIABLES] that is present and has an entry different from 0,
    in whatever row (which is to say that its maximum absolute value is
    not 0), is the input column divided entry by entry by 1.1587; a
    column not named in the list, a column that is absent, and a listed
    column that is entirely zero are as in the input. *)
Theorem C9_adjust_inflation_frame (df : gmap string (list Q)) (var : string) :
  (forall col, In var DOLLAR_VARIABLES -> df !! var = Some col ->
               (exists x, In x col /\ ~ (x == 0)%Q) ->
               adjust_inflation df !! var
               = Some (map (fun x => (x / 1.1587)%Q) col))
  /\ (~ In var DOLLAR_VARIABLES -> adjust_inflation df !! var = df !! var)
  /\ (df !! var = None -> adjust_inflation df !! var = None)
  /\ (forall col, df !! var = Some col -> Forall (fun x => (x == 0)%Q) col ->
                  adjust_inflation df !! var = Some col).
Proof.
  rewrite adjust_inflation_lookup. split; [|split; [|split]].
  - intros col Hin -> Hex. apply list_elem_of_In in Hin.
    rewrite (bool_decide_eq_true_2 _ Hin). cbn [andb].
    rewrite (proj2 (has_nonzero_Q col) Hex). reflexivity.
  - intros Hout. rewrite <- list_elem_of_In in Hout.
    rewrite (bool_decide_eq_false_2 _ Hout). cbn [andb].
    destruct (df !! var); reflexivity.
  - intros ->. reflexivity.
  - intros col -> Hz. f_equal.
    destruct (has_nonzero col) eqn:E; [|rewrite andb_false_r; reflexivity].
    apply has_nonzero_Q in E as (x & Hin & Hnz).
    rewrite List.Forall_forall in Hz. exfalso. exact (Hnz (Hz x Hin)).
Qed.

(** C9 on [table_example] and [table_late_nonzero]: [income] is divided,
    also when its first entry is 0 and the non-zero entry comes later;
    the all-zero [kginc] and the unlisted [age] are not divided, the
    absent [networth] stays absent. *)
Lemma C9_witness :
  adjust_inflation table_example !! "income"
  = Some (map (fun x => (x / 1.1587)%Q) [11587%Q; 0%Q])
  /\ adjust_inflation table_late_nonzero !! "income"
     = Some (map (fun x => (x / 1.1587)%Q) [0%Q; 11587%Q])
  /\ adjust_inflation table_example !! "age" = Some [40%Q; 42%Q]
  /\ adjust_inflation table_example !! "networth" = None
  /\ adjust_inflation table_example !! "kginc" = Some [0%Q; 0%Q].
Proof.
  pose proof (C9_adjust_inflation_frame table_example "income") as (H1 & _).
  pose proof (C9_adjust_inflation_frame table_late_nonzero "income") as (H1' & _).
  pose proof (C9_adjust_inflation_frame table_example "age") as (_ & H2 & _).
  pose proof (C9_adjust_inflation_frame table_example "networth") as (_ & _ & H3 & _).
  pose proof (C9_adjust_inflation_frame table_example "kginc") as (_ & _ & _ & H4).
  split; [|split; [|split; [|split]]].
  - apply H1.
    + cbn. tauto.
    + reflexivity.
    + exists 11587%Q. split; [left; reflexivity|discriminate].
  - apply H1'.
    + cbn. tauto.
    + reflexivity.
    + exists 11587%Q. split; [right; left; reflexivity|discriminate].
  - rewrite H2; [reflexivity|].
    cbn. intros Hin. repeat (destruct Hin as [Hin|Hin]; [discriminate|]). exact Hin.
  - apply H3. reflexivity.
  - apply H4; [reflexivity|]. repeat constructor.
Defined.

(** ** Dataset comparison *)

Section ComparisonFacts.
Local Open Scope Q_scope.

Lemma pct_diff_zero_reference (git_val latest_val : Q) :
  git_val == 0 -> pct_diff git_val latest_val = inr 0.
Proof.
  intros Hz. unfold pct_diff.
  apply eqb_Q_eq in Hz. unfold of_Q at 1, Num_Q at 2. rewrite Hz. reflexivity.
Qed.

Lemma pct_diff_is_value (git_val latest_val : Q) :
  exists d, pct_diff git_val latest_val = inr d /\ 0 <= d.
Proof.
  unfold pct_diff. destruct (eqb git_val (of_Q 0)) eqn:E; cbn [negb].
  - exists 0. split; [reflexivity|apply Qle_refl].
  - apply eqb_Q_neq in E. unfold checked_div.
    assert (Habs : eqb (abs git_val) (of_Q 0) = false).
    { apply eqb_Q_neq. unfold abs, of_Q, Num_Q. intros Hz.
      apply E. unfold of_Q, Num_Q.
      revert Hz. apply Qabs_case; intros; lra. }
    rewrite Habs. eexists. split; [reflexivity|].
    unfold mul, div, abs, sub, of_Q, Num_Q.
    apply Qmult_le_0_compat; [|lra].
    apply Qle_shift_div_l.
    + destruct (Qle_lt_or_eq _ _ (Qabs_nonneg git_val)) as [L|L]; [exact L|].
      exfalso. apply E. unfold of_Q, Num_Q.
      revert L. apply Qabs_case; intros; lra.
    + rewrite Qmult_0_l. apply Qabs_nonneg.
Qed.

Lemma max2_zero (m : Q) : 0 <= m -> max2 m 0 = m.
Proof.
  intros Hm. unfold max2. destruct (ltb m 0) eqn:E; [|reflexivity].
  apply ltb_Q_lt in E. exfalso. exact (Qlt_not_le _ _ E Hm).
Qed.

Lemma bind_no_zero_division {X Y : Type} (m : M X) (f : X -> M Y) :
  m <> inl ZeroDivisionError -> (forall x, f x <> inl ZeroDivisionError) ->
  (m ≫= f) <> inl ZeroDivisionError.
Proof.
  intros Hm Hf. unfold mbind, M_bind. destruct m as [e|x]; [|apply Hf].
  intros [= ->]. apply Hm. reflexivity.
Qed.

Lemma getitem_no_zero_division (results : gmap string Q) (key : string) :
  getitem results key <> inl ZeroDivisionError.
Proof. unfold getitem. destruct (results !! key); discriminate. Qed.

Lemma max_pct_diff_no_zero_division (metrics : list string)
    (results_git results_latest : gmap string Q) (max_diff : Q) :
  max_pct_diff metrics results_git results_latest max_diff
  <> inl ZeroDivisionError.
Proof.
  revert max_diff. induction metrics as [|key rest IH]; intros max_diff.
  - discriminate.
  - cbn [max_pct_diff]. unfold getitem, mbind, M_bind.
    destruct (results_git !! key) as [g|]; [|discriminate].
    destruct (results_latest !! key) as [l|]; [|discriminate].
    cbn. destruct (pct_diff_is_value g l) as (d & -> & _). apply IH.
Qed.

(** The loop does not look at the candidate value of a statistic whose
    reference value is 0. *)
Lemma max_pct_diff_ignores_zero_reference (metrics : list string)
    (results_git results_latest : gmap string Q) (key : string)
    (git_val v v' max_diff : Q) :
  results_git !! key = Some git_val -> git_val == 0 ->
  max_pct_diff metrics results_git (<[key := v]> results_latest) max_diff
  = max_pct_diff metrics results_git (<[key := v']> results_latest) max_diff.
Proof.
  intros Hg Hz. revert max_diff.
  induction metrics as [|k rest IH]; intros max_diff; [reflexivity|].
  cbn [max_pct_diff]. unfold getitem, mbind, M_bind.
  destruct (decide (key = k)) as [<-|Hne].
  - rewrite Hg, !lookup_insert_eq. cbn.
    rewrite !(pct_diff_zero_reference git_val) by exact Hz. apply IH.
  - rewrite !lookup_insert_ne by exact Hne.
    destruct (results_git !! k) as [g|]; [|reflexivity].
    destruct (results_latest !! k) as [l|]; [|reflexivity].
    cbn. destruct (pct_diff g l); [reflexivity|apply IH].
Qed.

Lemma bind_ext {X Y : Type} (m : M X) (f g : X -> M Y) :
  (forall x, f x = g x) -> (m ≫= f) = (m ≫= g).
Proof. intros E. unfold mbind, M_bind. destruct m; [reflexivity|apply E]. Qed.

Lemma getitem_insert_discarded (results : gmap string Q) (key k : string)
    (v v' : Q) {X : Type} (e1 e2 : M X) :
  e1 = e2 ->
  (getitem (<[key := v]> results) k ≫= fun _ => e1)
  = (getitem (<[key := v']> results) k ≫= fun _ => e2).
Proof.
  intros ->. unfold getitem, mbind, M_bind.
  destruct (decide (key = k)) as [<-|Hne].
  - rewrite !lookup_insert_eq. reflexivity.
  - rewrite !lookup_insert_ne by exact Hne. reflexivity.
Qed.
End ComparisonFacts.

(** C10.  The percent difference of a statistic never divides by zero: it
    is a value for every pair of inputs, it is 0 when the reference value
    is 0, and so [print_comparison] never fails with a division by zero.  A
    statistic whose reference value is 0 cannot move the verdict: the
    outcome of the report does not depend on its candidate value, and in
    the loop it leaves a non-negative running maximum as it was. *)
Theorem C10_zero_reference_is_zero_difference
    (results_git results_latest : gmap string Q) :
  (forall git_val latest_val : Q,
      pct_diff git_val latest_val <> inl ZeroDivisionError)
  /\ (forall git_val latest_val : Q,
         (git_val == 0)%Q -> pct_diff git_val latest_val = inr 0%Q)
  /\ print_comparison results_git results_latest <> inl ZeroDivisionError
  /\ (forall (key : string) (git_val v v' : Q),
         results_git !! key = Some git_val -> (git_val == 0)%Q ->
         print_comparison results_git (<[key := v]> results_latest)
         = print_comparison results_git (<[key := v']> results_latest))
  /\ (forall (key : string) (rest : list string) (git_val latest_val max_diff : Q),
         results_git !! key = Some git_val -> (git_val == 0)%Q ->
         results_latest !! key = Some latest_val -> (0 <= max_diff)%Q ->
         max_pct_diff (key :: rest) results_git results_latest max_diff
         = max_pct_diff rest results_git results_latest max_diff).
Proof.
  split; [|split; [|split; [|split]]].
  - intros g l. destruct (pct_diff_is_value g l) as (d & -> & _). discriminate.
  - intros g l. apply pct_diff_zero_reference.
  - unfold print_comparison.
    repeat (apply bind_no_zero_division;
            [first [apply getitem_no_zero_division
                   |apply max_pct_diff_no_zero_division]|intros ?]).
    discriminate.
  - intros key g v v' Hg Hz. unfold print_comparison.
    apply bind_ext; intros _. apply getitem_insert_discarded.
    apply bind_ext; intros _. apply getitem_insert_discarded.
    rewrite (max_pct_diff_ignores_zero_reference dollar_metrics _ _ key g v v')
      by assumption.
    apply bind_ext; intros max_dollar_diff.
    rewrite (max_pct_diff_ignores_zero_reference non_dollar_metrics _ _ key g v v')
      by assumption.
    reflexivity.
  - intros key rest g l m Hg Hz Hl Hm. cbn [max_pct_diff].
    unfold getitem, mbind, M_bind. rewrite Hg, Hl. cbn.
    rewrite pct_diff_zero_reference by exact Hz.
    rewrite (max2_zero m Hm). reflexivity.
Qed.

(** C10 on [results_example]: with the reference [min_income] at 0 the
    report is the same whatever the candidate [min_income] is. *)
Lemma C10_witness :
  results_example 0 !! "min_income" = Some 0%Q
  /\ print_comparison (results_example 0) (<["min_income" := 12345%Q]> (results_example 0))
     = print_comparison (results_example 0) (<["min_income" := 0%Q]> (results_example 0))
  /\ print_comparison (results_example 0) (results_example 12345)
     = inr (0%Q, 0%Q, EXCELLENT_MATCH).
Proof.
  split; [reflexivity|]. split.
  - apply (proj1 (proj2 (proj2 (proj2
      (C10_zero_reference_is_zero_difference (results_example 0) (results_example 0)))))
      "min_income" 0%Q 12345%Q 0%Q); reflexivity.
  - vm_compute. reflexivity.
Defined.

(** ** Lists *)

Section ListFacts.
Context {X Y : Type}.

Lemma filter_map_comm (f : X -> Y) (p : Y -> bool) (l : list X) :
  List.filter p (map f l) = map f (List.filter (fun x => p (f x)) l).
Proof.
  induction l as [|x l IH]; [reflexivity|].
  cbn. destruct (p (f x)); cbn; rewrite IH; reflexivity.
Qed.

Lemma NoDup_map_by_key (f : X -> Y) {K : Type} (g : X -> K) (l : list X) :
  (forall x y, In x l -> In y l -> f x = f y -> g x = g y) ->
  List.NoDup (map g l) -> List.NoDup (map f l).
Proof.
  induction l as [|x l IH]; intros Hk Hnd; [constructor|].
  cbn in *. apply NoDup_cons_iff in Hnd as [Hnin Hnd]. constructor.
  - intros Hin. apply in_map_iff in Hin as (y & Hy & Hin).
    apply Hnin. rewrite (Hk x y); [apply in_map; exact Hin|left; reflexivity
                                  |right; exact Hin|symmetry; exact Hy].
  - apply IH; [|exact Hnd]. intros a b Ha Hb. apply Hk; right; assumption.
Qed.

Lemma NoDup_map_filter (g : X -> Y) (p : X -> bool) (l : list X) :
  List.NoDup (map g l) -> List.NoDup (map g (List.filter p l)).
Proof.
  induction l as [|x l IH]; intros Hnd; [constructor|].
  cbn in *. apply NoDup_cons_iff in Hnd as [Hnin Hnd].
  destruct (p x); [|apply IH; exact Hnd].
  cbn. constructor; [|apply IH; exact Hnd].
  intros Hin. apply Hnin. apply in_map_iff in Hin as (y & Hy & Hin).
  apply filter_In in Hin as [Hin _]. rewrite <- Hy. apply in_map. exact Hin.
Qed.
End ListFacts.

(** ** Household collapse *)

Section CollapseFacts.
Context {A : Type} `{Num A}.

Lemma household_rows_map (df : list (Raw.t A)) :
  household_rows df
  = map (household_of df) (List.filter (fun r => (Raw.y1 r mod 5 =? 1)%Z) df).
Proof.
  unfold household_rows.
  rewrite (filter_map_comm (fun r => (Raw.y1 r, _))), map_map.
  reflexivity.
Qed.

Lemma first_implicate (r : Raw.t A) :
  (exists i, (1 <= i <= 5)%Z /\ Raw.y1 r = (10 * Raw.yy1 r + i)%Z) ->
  (Raw.y1 r mod 5 =? 1)%Z = true <-> Raw.y1 r = (10 * Raw.yy1 r + 1)%Z.
Proof.
  intros (i & Hi & E). rewrite Z.eqb_eq, E.
  split; intros; Z.to_euclidean_division_equations; lia.
Qed.
End CollapseFacts.

(** ** Sorting *)

Section SortFacts.
Context {R : Type} (le : R -> R -> bool).

Lemma insert_row_perm (x : R) (l : list R) :
  Permutation (insert_row le x l) (x :: l).
Proof.
  induction l as [|y l IH]; cbn; [reflexivity|].
  destruct (le x y); [reflexivity|].
  rewrite IH. apply perm_swap.
Qed.

Lemma sort_values_perm (l : list R) : Permutation (sort_values le l) l.
Proof.
  induction l as [|x l IH]; cbn; [reflexivity|].
  rewrite insert_row_perm. apply perm_skip. exact IH.
Qed.

Lemma sort_values_In (l : list R) (x : R) : In x (sort_values le l) <-> In x l.
Proof.
  split; apply Permutation_in; [|symmetry]; apply sort_values_perm.
Qed.

Lemma sort_values_length (l : list R) : length (sort_values le l) = length l.
Proof. apply Permutation_length, sort_values_perm. Qed.

Lemma sort_values_nil_inv (l : list R) : sort_values le l = [] -> l = [].
Proof.
  intros E. apply Permutation_nil. rewrite <- E. apply sort_values_perm.
Qed.

Lemma insert_row_ordered (x : R) (l : list R) :
  (forall a b, le a b = false -> le b a = true) ->
  ordered le l -> ordered le (insert_row le x l).
Proof.
  intros Htot. induction l as [|y l IH]; intros Hs; cbn.
  - repeat constructor.
  - destruct (le x y) eqn:E.
    + constructor; [exact Hs|constructor; exact E].
    + apply Sorted_inv in Hs as [Hs Hhd]. constructor; [apply IH; exact Hs|].
      destruct l as [|z l]; cbn.
      * constructor. apply Htot. exact E.
      * destruct (le x z); constructor; [apply Htot; exact E|].
        apply HdRel_inv in Hhd. exact Hhd.
Qed.

Lemma sort_values_ordered (l : list R) :
  (forall a b, le a b = false -> le b a = true) -> ordered le (sort_values le l).
Proof.
  intros Htot. induction l as [|x l IH]; cbn; [constructor|].
  apply insert_row_ordered; assumption.
Qed.

(** Sorting a table that is in order leaves it as it is. *)
Lemma sort_values_of_ordered (l : list R) : ordered le l -> sort_values le l = l.
Proof.
  induction l as [|x l IH]; intros Hs; [reflexivity|].
  apply Sorted_inv in Hs as [Hs Hhd].
  change (sort_values le (x :: l)) with (insert_row le x (sort_values le l)).
  rewrite (IH Hs). destruct l as [|y l]; [reflexivity|].
  apply HdRel_inv in Hhd. cbn. rewrite Hhd. reflexivity.
Qed.

Lemma ordered_strongly (l : list R) :
  (forall a b c, le a b = true -> le b c = true -> le a c = true) ->
  ordered le l -> StronglySorted (fun a b => le a b = true) l.
Proof.
  intros Htr. apply Sorted_StronglySorted. intros a b c. apply Htr.
Qed.
End SortFacts.

(** ** Sums in exact arithmetic *)

Section QSums.
Local Open Scope Q_scope.

Lemma fold_left_Qplus_acc (l : list Q) (a : Q) :
  fold_left Qplus l a == a + fold_left Qplus l 0.
Proof.
  revert a. induction l as [|x l IH]; intros a; cbn.
  - ring.
  - rewrite (IH (a + x)), (IH (0 + x)). ring.
Qed.

Lemma col_sum_nil : col_sum (@nil Q) = 0.
Proof. reflexivity. Qed.

Lemma col_sum_cons (x : Q) (l : list Q) : col_sum (x :: l) == x + col_sum l.
Proof.
  unfold col_sum. unfold_num. cbn. rewrite fold_left_Qplus_acc. ring.
Qed.

Lemma col_sum_app (l1 l2 : list Q) :
  col_sum (l1 ++ l2) == col_sum l1 + col_sum l2.
Proof.
  induction l1 as [|x l1 IH]; cbn [app].
  - rewrite col_sum_nil. ring.
  - rewrite !col_sum_cons, IH. ring.
Qed.

Lemma col_sum_perm (l1 l2 : list Q) :
  Permutation l1 l2 -> col_sum l1 == col_sum l2.
Proof.
  induction 1 as [|x l1 l2 _ IH|x y l|l1 l2 l3 _ IH1 _ IH2].
  - reflexivity.
  - rewrite !col_sum_cons, IH. reflexivity.
  - rewrite !col_sum_cons. ring.
  - rewrite IH1. exact IH2.
Qed.

Lemma col_sum_map_scale {X : Type} (f : X -> Q) (c : Q) (l : list X) :
  col_sum (map (fun x => f x / c) l) == col_sum (map f l) / c.
Proof.
  induction l as [|x l IH]; cbn [map].
  - rewrite col_sum_nil. unfold Qdiv. ring.
  - rewrite !col_sum_cons, IH. unfold Qdiv. ring.
Qed.

Lemma col_sum_map_minus {X : Type} (f g : X -> Q) (l : list X) :
  col_sum (map (fun x => f x - g x) l) == col_sum (map f l) - col_sum (map g l).
Proof.
  induction l as [|x l IH]; cbn [map].
  - rewrite col_sum_nil. ring.
  - rewrite !col_sum_cons, IH. ring.
Qed.

Lemma col_sum_map_ext {X : Type} (f g : X -> Q) (l : list X) :
  (forall x, In x l -> f x == g x) -> col_sum (map f l) == col_sum (map g l).
Proof.
  induction l as [|x l IH]; intros E; cbn [map]; [reflexivity|].
  rewrite !col_sum_cons, IH, (E x) by (intros; try apply E; cbn; auto).
  reflexivity.
Qed.

Lemma col_sum_nonneg (l : list Q) : Forall (fun x => 0 <= x) l -> 0 <= col_sum l.
Proof.
  induction 1 as [|x l Hx _ IH]; [apply Qle_refl|].
  rewrite col_sum_cons. lra.
Qed.

Lemma col_sum_pos (l : list Q) :
  l <> [] -> Forall (fun x => 0 < x) l -> 0 < col_sum l.
Proof.
  intros Hne Hall. destruct Hall as [|x l Hx Hall]; [congruence|].
  rewrite col_sum_cons.
  assert (0 <= col_sum l).
  { apply col_sum_nonneg. eapply List.Forall_impl; [|exact Hall].
    intros a Ha. apply Qlt_le_weak. exact Ha. }
  lra.
Qed.

Lemma mean_map_minus {X : Type} (f g : X -> Q) (l : list X) :
  mean (map (fun x => f x - g x) l) == mean (map f l) - mean (map g l).
Proof.
  unfold mean. rewrite !length_map. unfold_num.
  rewrite col_sum_map_minus. unfold Qdiv.
  generalize (/ inject_Z (Z.of_nat (length l))). intros c. ring.
Qed.

Lemma mean_map_ext {X : Type} (f g : X -> Q) (l : list X) :
  (forall x, In x l -> f x == g x) -> mean (map f l) == mean (map g l).
Proof.
  intros E. unfold mean. rewrite !length_map. unfold_num.
  rewrite (col_sum_map_ext f g l E). reflexivity.
Qed.

Lemma mean_pos (l : list Q) : l <> [] -> Forall (fun x => 0 < x) l -> 0 < mean l.
Proof.
  intros Hne Hall. unfold mean. unfold_num.
  apply Qlt_shift_div_l.
  - destruct l; [congruence|]. cbn [length].
    unfold Qlt. cbn. lia.
  - rewrite Qmult_0_l. apply col_sum_pos; assumption.
Qed.
Lemma col_sum_Qsum (l : list Q) : col_sum l == Qsum l.
Proof.
  induction l as [|x l IH]; [reflexivity|].
  rewrite col_sum_cons, IH. reflexivity.
Qed.

Lemma mean_Qsum (l : list Q) :
  mean l == Qsum l / inject_Z (Z.of_nat (length l)).
Proof. unfold mean. unfold_num. rewrite col_sum_Qsum. reflexivity. Qed.
End QSums.

(** ** Household collapse: rows and weights *)

(** The claim C7 fails in two ways.  The filters of [merge_and_filter]
    work row by row: household 1 of [raw_lost_implicate] loses its first
    implicate, whose [norminc] is negative, its implicates 12 and 13 stay,
    and the collapse, which keeps the rows with [y1 % 5 == 1], leaves no
    row for it.  And when the rows are not numbered as in the SCF, as in
    [raw_other_keys], a household comes out twice.  Exact rationals and
    binary64 agree. *)
Lemma C7_counterexample :
  scf_keys (merge_and_filter (raw_lost_implicate (A := Q)) [])
  /\ map (fun r => (Raw.yy1 r, Raw.y1 r))
         (merge_and_filter (raw_lost_implicate (A := Q)) [])
     = [(1, 12); (1, 13); (2, 21)]%Z
  /\ map HH.yy1 (household_rows (merge_and_filter (raw_lost_implicate (A := Q)) []))
     = [2%Z]
  /\ map HH.yy1
         (household_rows (merge_and_filter (raw_lost_implicate (A := float)) []))
     = [2%Z]
  /\ map HH.yy1 (household_rows (raw_other_keys (A := Q))) = [2%Z; 2%Z]
  /\ map HH.yy1 (household_rows (raw_other_keys (A := float))) = [2%Z; 2%Z].
Proof.
  split; [|repeat split; vm_compute; reflexivity].
  split.
  - apply NoDup_ListNoDup, (bool_decide_unpack _). vm_compute. exact I.
  - assert (E : map (fun r => (Raw.yy1 r, Raw.y1 r))
                    (merge_and_filter (raw_lost_implicate (A := Q)) [])
                = [(1, 12); (1, 13); (2, 21)]%Z) by (vm_compute; reflexivity).
    apply List.Forall_forall. intros r Hr.
    apply (in_map (fun r => (Raw.yy1 r, Raw.y1 r))) in Hr. rewrite E in Hr.
    cbn [In] in Hr.
    destruct Hr as [Hr|[Hr|[Hr|[]]]]; injection Hr as <- <-;
      [exists 2%Z|exists 3%Z|exists 1%Z]; lia.
Qed.

(** C7, amended.  On a table with the SCF keys, the collapse of lines
    111-124 leaves at most one row per household identifier: no identifier
    occurs twice, and the identifiers are those of the households whose
    first implicate is in the table.  The weight of each row is the sum of
    [wgt] over the rows of its household in the table, divided by their
    number, times 5. *)
Theorem C7_one_row_per_household_weight_mean_times_5 (df : list (Raw.t Q)) :
  scf_keys df ->
  List.NoDup (map HH.yy1 (household_rows df))
  /\ (forall id : Z,
         In id (map HH.yy1 (household_rows df))
         <-> exists r, In r df /\ Raw.yy1 r = id
                       /\ Raw.y1 r = (10 * id + 1)%Z)
  /\ (forall h, In h (household_rows df) ->
        let implicates :=
          List.filter (fun r => (Raw.yy1 r =? HH.yy1 h)%Z) df in
        implicates <> []
        /\ (HH.weight h
            == Qsum (map Raw.wgt implicates)
               / inject_Z (Z.of_nat (length implicates)) * 5)%Q).
Proof.
  intros [Hnd Hkeys]. rewrite household_rows_map, map_map.
  rewrite List.Forall_forall in Hkeys.
  split; [|split].
  - change (fun x => HH.yy1 (household_of df x)) with (@Raw.yy1 Q).
    apply (NoDup_map_by_key Raw.yy1 Raw.y1).
    + intros x y Hx Hy E.
      apply filter_In in Hx as [Hx Hx1]. apply filter_In in Hy as [Hy Hy1].
      apply (first_implicate x (Hkeys x Hx)) in Hx1.
      apply (first_implicate y (Hkeys y Hy)) in Hy1. lia.
    + apply NoDup_map_filter. exact Hnd.
  - intros id. change (fun x => HH.yy1 (household_of df x)) with (@Raw.yy1 Q).
    rewrite in_map_iff. split.
    + intros (r & E & Hr). apply filter_In in Hr as [Hr Hr1].
      apply (first_implicate r (Hkeys r Hr)) in Hr1.
      exists r. subst id. auto.
    + intros (r & Hr & E & E1). exists r. split; [exact E|].
      apply filter_In. split; [exact Hr|].
      apply (first_implicate r (Hkeys r Hr)). subst id. exact E1.
  - intros h Hh. apply in_map_iff in Hh as (r & <- & Hr).
    apply filter_In in Hr as [Hr _]. cbn [HH.yy1 HH.weight household_of].
    split.
    + intros E.
      assert (Hin : In r (List.filter (fun x => (Raw.yy1 x =? Raw.yy1 r)%Z) df))
        by (apply filter_In; split; [exact Hr|apply Z.eqb_refl]).
      rewrite E in Hin. exact Hin.
    + unfold transform_mean, group_of. unfold_num.
      rewrite mean_Qsum, length_map. reflexivity.
Qed.

(** C7 on [raw_example]: households 7 and 8 each get one row; household
    7, with the implicate weights 1000 and 1200, gets the weight 5500 and
    household 8, with the one weight 900, gets 4500. *)
Lemma C7_witness :
  scf_keys raw_example
  /\ map (fun h => (HH.yy1 h, Qred (HH.weight h))) (household_rows raw_example)
     = [(7%Z, 5500%Q); (8%Z, 4500%Q)]
  /\ List.NoDup (map HH.yy1 (household_rows raw_example))
  /\ (forall h, In h (household_rows raw_example) ->
        (HH.weight h
         == Qsum (map Raw.wgt
                      (List.filter (fun r => (Raw.yy1 r =? HH.yy1 h)%Z)
                         raw_example))
            / inject_Z (Z.of_nat
                          (length
                             (List.filter (fun r => (Raw.yy1 r =? HH.yy1 h)%Z)
                                raw_example))) * 5)%Q).
Proof.
  assert (Hk : scf_keys raw_example).
  { split.
    - cbn. repeat constructor; cbn; intuition discriminate.
    - repeat constructor; [exists 1%Z|exists 2%Z|exists 1%Z]; cbn; lia. }
  split; [exact Hk|]. split; [vm_compute; reflexivity|].
  destruct (C7_one_row_per_household_weight_mean_times_5 raw_example Hk)
    as (Hnd & _ & Hw).
  split; [exact Hnd|]. intros h Hh. exact (proj2 (Hw h Hh)).
Defined.

(** ** Where the rows of the panel come from *)

Section PanelRows.
Context {A : Type} `{Num A}.

Lemma with_sumW_In (df : list (HH.t A)) (h : HH.t A) (nw s : A) :
  In (h, nw, s) (with_sumW df) -> In h df.
Proof.
  unfold with_sumW. intros Hin. apply in_combine_l in Hin.
  apply sort_values_In in Hin. apply in_map_iff in Hin as (h' & E & Hin).
  injection E as -> _. exact Hin.
Qed.

Lemma drop_lowest_income_In (df : list (HH.t A)) (h : HH.t A) :
  In h (drop_lowest_income df) -> In h df.
Proof.
  unfold drop_lowest_income. intros Hin.
  apply in_map_iff in Hin as ([[h' nw] s] & E & Hin). cbn in E. subst h'.
  apply filter_In in Hin as [Hin _]. exact (with_sumW_In _ _ _ _ Hin).
Qed.

Lemma reweight_In (df : list (HH.t A * A)) (p : Panel.t A) :
  In p (reweight df) ->
  In (Panel.hh p, Panel.liqWealth p) df
  /\ leb (of_Q 0) (Panel.liqWealth p) = true.
Proof.
  unfold reweight. intros Hin.
  apply in_map_iff in Hin as ([[h lw] nw] & <- & Hin). cbn.
  apply in_map_iff in Hin as ([h' lw'] & E & Hin). injection E as -> -> _.
  apply filter_In in Hin. exact Hin.
Qed.

Lemma calculate_liquid_wealth_In (df : list (Raw.t A)) (b : bool)
    (p : Panel.t A) :
  In p (calculate_liquid_wealth df b) ->
  (exists r, In r df /\ (Raw.y1 r mod 5 =? 1)%Z = true
             /\ Panel.hh p = household_of df r)
  /\ Panel.liqWealth p = select_liqWealth b (Panel.hh p)
  /\ leb (of_Q 0) (Panel.liqWealth p) = true.
Proof.
  unfold calculate_liquid_wealth. intros Hin.
  apply reweight_In in Hin as [Hin Hpos].
  apply in_map_iff in Hin as (h & E & Hin). injection E as Eh Elw.
  apply drop_lowest_income_In in Hin. rewrite household_rows_map in Hin.
  apply in_map_iff in Hin as (r & Er & Hin). apply filter_In in Hin as [Hin Hr].
  split; [|split; [|exact Hpos]].
  - exists r. rewrite <- Eh, <- Er. auto.
  - rewrite <- Elw, Eh. reflexivity.
Qed.
End PanelRows.

(** ** Liquid-wealth definition *)

(** C4.  The liquid wealth of a row of the panel is, with the switch off
    (the default), the household mean of
    [liq*1.05 + cds + nmmf + stocks + bond - ccbal], the Kaplan measure;
    with the switch on it is that measure less the household mean of
    [install - veh_inst], and nothing else differs. *)
Theorem C4_liquid_wealth_kaplan_unless_installment
    (df : list (Raw.t Q)) (include_installment : bool) (p : Panel.t Q) :
  In p (calculate_liquid_wealth df include_installment) ->
  include_installment_default = false
  /\ exists r, In r df /\ Raw.yy1 r = Panel.yy1 p
     /\ let kaplan :=
          transform_mean Raw.yy1
            (fun x => Raw.liq x * 1.05 + Raw.cds x + Raw.nmmf x + Raw.stocks x
                      + Raw.bond x - Raw.ccbal x)%Q df r in
        let installment :=
          transform_mean Raw.yy1
            (fun x => Raw.install x - Raw.veh_inst x)%Q df r in
        if include_installment
        then (Panel.liqWealth p == kaplan - installment)%Q
        else Panel.liqWealth p = kaplan.
Proof.
  intros Hin. split; [reflexivity|].
  apply calculate_liquid_wealth_In in Hin as ((r & Hr & _ & Eh) & Elw & _).
  exists r. split; [exact Hr|]. split.
  - unfold Panel.yy1. rewrite Eh. reflexivity.
  - rewrite Elw, Eh. destruct include_installment; cbn.
    + unfold transform_mean. rewrite <- mean_map_minus.
      apply mean_map_ext. intros x _. unfold tempLiqWealthInst. unfold_num.
      reflexivity.
    + reflexivity.
Qed.

(** C4 on the three implicates of [raw_example]: the panel with the
    switch off has the Kaplan measure of household 8. *)
Lemma C4_witness :
  exists p, In p (calculate_liquid_wealth raw_example false)
    /\ Panel.yy1 p = 8%Z /\ (Panel.liqWealth p == 850)%Q
    /\ exists r, In r raw_example /\ Raw.yy1 r = Panel.yy1 p
        /\ Panel.liqWealth p
           = transform_mean Raw.yy1
               (fun x => Raw.liq x * 1.05 + Raw.cds x + Raw.nmmf x + Raw.stocks x
                         + Raw.bond x - Raw.ccbal x)%Q raw_example r.
Proof.
  assert (Hin : In (nth 0 (calculate_liquid_wealth raw_example false)
                        (Panel.mk (HH.mk 0 0 0 0 0 0 0) 0 0 0 0)%Q)
                   (calculate_liquid_wealth raw_example false)).
  { apply nth_In. vm_compute. lia. }
  eexists. split; [exact Hin|]. split; [vm_compute; reflexivity|].
  split; [vm_compute; split; discriminate|].
  exact (proj2 (C4_liquid_wealth_kaplan_unless_installment
                  raw_example false _ Hin)).
Defined.

(** ** Weight re-normalization *)

Section ReweightFacts.
Local Open Scope Q_scope.

Lemma household_weight_pos (df : list (Raw.t Q)) (r : Raw.t Q) :
  Forall (fun r => 0 < Raw.wgt r) df -> In r df ->
  0 < HH.weight (household_of df r).
Proof.
  intros Hpos Hr. cbn. unfold transform_mean, group_of. unfold_num.
  apply Qmult_lt_0_compat; [|reflexivity].
  apply mean_pos.
  - intros E. apply map_eq_nil in E.
    assert (Hin : In r (List.filter (fun x => (Raw.yy1 x =? Raw.yy1 r)%Z) df))
      by (apply filter_In; split; [exact Hr|apply Z.eqb_refl]).
    rewrite E in Hin. destruct Hin.
  - apply List.Forall_forall. intros w Hw.
    apply in_map_iff in Hw as (x & <- & Hx). apply filter_In in Hx as [Hx _].
    rewrite List.Forall_forall in Hpos. exact (Hpos x Hx).
Qed.

Lemma panel_weight_pos (df : list (Raw.t Q)) (b : bool) (p : Panel.t Q) :
  Forall (fun r => 0 < Raw.wgt r) df ->
  In p (calculate_liquid_wealth df b) -> 0 < Panel.weight p.
Proof.
  intros Hpos Hin.
  apply calculate_liquid_wealth_In in Hin as ((r & Hr & _ & Eh) & _).
  unfold Panel.weight. rewrite Eh. apply household_weight_pos; assumption.
Qed.

Lemma selected_weights_pos (df : list (Raw.t Q)) (b : bool) :
  Forall (fun r => 0 < Raw.wgt r) df ->
  Forall (fun q : HH.t Q * Q => 0 < HH.weight (fst q))
         (map (fun h => (h, select_liqWealth b h))
              (drop_lowest_income (household_rows df))).
Proof.
  intros Hpos. apply List.Forall_forall. intros [h lw] Hin. cbn [fst].
  apply in_map_iff in Hin as (h' & E & Hin). injection E as -> _.
  apply drop_lowest_income_In in Hin. rewrite household_rows_map in Hin.
  apply in_map_iff in Hin as (r & <- & Hr). apply filter_In in Hr as [Hr _].
  apply household_weight_pos; assumption.
Qed.
(** The three weight columns of the panel, in terms of the rows that
    survive the validity filter. *)
Lemma reweight_columns (df : list (HH.t Q * Q)) :
  let kept := List.filter (fun p => leb (of_Q 0) (snd p)) df in
  let total_weight := col_sum (map (fun p => HH.weight (fst p)) kept) in
  let normw := fun p : HH.t Q * Q => HH.weight (fst p) / total_weight in
  let edfrac_of := fun ed : Z =>
    col_sum (map normw
                 (List.filter (fun p => (HH.myEd (fst p) =? ed)%Z) kept)) in
  reweight df
  = map (fun p => Panel.mk (fst p) (snd p) (normw p)
                           (edfrac_of (HH.myEd (fst p)))
                           (normw p / edfrac_of (HH.myEd (fst p)))) kept.
Proof.
  intros kept total_weight normw edfrac_of. unfold reweight.
  fold kept. fold total_weight. rewrite map_map. apply map_ext. intros p.
  cbn [fst snd]. unfold transform_sum, group_of.
  rewrite (filter_map_comm (fun p : HH.t Q * Q => (p, _))), map_map.
  cbn [fst snd]. reflexivity.
Qed.

Lemma quotient_sum_is_one {X : Type} (f : X -> Q) (l : list X) :
  0 < col_sum (map f l) ->
  col_sum (map (fun x => f x / col_sum (map f l)) l) == 1.
Proof.
  intros Hpos. rewrite col_sum_map_scale. field. lra.
Qed.

Lemma reweight_sums (df : list (HH.t Q * Q)) :
  Forall (fun p => 0 < HH.weight (fst p)) df ->
  reweight df <> [] ->
  col_sum (map Panel.normweight (reweight df)) == 1
  /\ forall ed : Z,
       (exists p, In p (reweight df) /\ Panel.myEd p = ed) ->
       col_sum (map Panel.edWeight
                    (List.filter (fun p => (Panel.myEd p =? ed)%Z) (reweight df)))
       == 1.
Proof.
  intros Hpos. pose proof (reweight_columns df) as E. cbn zeta in E.
  set (kept := List.filter _ df) in E.
  set (total_weight := col_sum _) in E.
  set (normw := fun p : HH.t Q * Q => HH.weight (fst p) / total_weight) in E.
  set (edfrac_of := fun ed : Z => col_sum _) in E.
  rewrite E. clear E. intros Hne.
  assert (Hkept : Forall (fun p => 0 < HH.weight (fst p)) kept).
  { apply List.Forall_forall. intros p Hp. apply filter_In in Hp as [Hp _].
    rewrite List.Forall_forall in Hpos. exact (Hpos p Hp). }
  assert (Htot : 0 < total_weight).
  { apply col_sum_pos.
    - intros E. apply map_eq_nil in E. apply Hne. rewrite E. reflexivity.
    - apply List.Forall_forall. intros w Hw.
      apply in_map_iff in Hw as (p & <- & Hp).
      rewrite List.Forall_forall in Hkept. exact (Hkept p Hp). }
  assert (Hnormw : forall p, In p kept -> 0 < normw p).
  { intros p Hp. unfold normw. apply Qlt_shift_div_l; [exact Htot|].
    rewrite Qmult_0_l. rewrite List.Forall_forall in Hkept. exact (Hkept p Hp). }
  split.
  - rewrite map_map. cbn [Panel.normweight]. unfold normw.
    apply quotient_sum_is_one. exact Htot.
  - intros ed (p & Hp & Hed).
    rewrite filter_map_comm, map_map. cbn [Panel.edWeight].
    unfold Panel.myEd. cbn [Panel.hh].
    set (tier := List.filter _ kept).
    assert (Htier : forall q, In q tier -> HH.myEd (fst q) = ed).
    { intros q Hq. apply filter_In in Hq as [_ Hq]. apply Z.eqb_eq. exact Hq. }
    rewrite (map_ext_in _ (fun q => normw q / col_sum (map normw tier))).
    2:{ intros q Hq. rewrite (Htier q Hq). reflexivity. }
    apply quotient_sum_is_one. apply col_sum_pos.
    + apply in_map_iff in Hp as (q & <- & Hq).
      unfold Panel.myEd in Hed. cbn [Panel.hh] in Hed.
      intros E. apply map_eq_nil in E.
      assert (Hin : In q tier)
        by (apply filter_In; split; [exact Hq|apply Z.eqb_eq; exact Hed]).
      rewrite E in Hin. destruct Hin.
    + apply List.Forall_forall. intros w Hw.
      apply in_map_iff in Hw as (q & <- & Hq). apply Hnormw.
      apply filter_In in Hq as [Hq _]. exact Hq.
Qed.
(** The recomputed columns in terms of the panel itself. *)
Lemma reweight_formulas (df : list (HH.t Q * Q)) (p : Panel.t Q) :
  In p (reweight df) ->
  Panel.normweight p
  = Panel.weight p / col_sum (map Panel.weight (reweight df))
  /\ Panel.edfrac p
     = col_sum (map Panel.normweight
                    (List.filter (fun x => (Panel.myEd x =? Panel.myEd p)%Z)
                       (reweight df)))
  /\ Panel.edWeight p = Panel.normweight p / Panel.edfrac p.
Proof.
  pose proof (reweight_columns df) as E. cbn zeta in E.
  set (kept := List.filter _ df) in E.
  set (total_weight := col_sum _) in E.
  set (normw := fun p : HH.t Q * Q => HH.weight (fst p) / total_weight) in E.
  set (edfrac_of := fun ed : Z => col_sum _) in E.
  rewrite E. clear E. intros Hin.
  apply in_map_iff in Hin as (q & <- & Hq).
  rewrite filter_map_comm, !map_map.
  unfold Panel.weight, Panel.myEd. cbn [Panel.hh Panel.normweight Panel.edfrac
                                        Panel.edWeight].
  split; [reflexivity|]. split; reflexivity.
Qed.
End ReweightFacts.

(** The claim C5 fails when the households that survive the drops have no
    weight.  In [raw_zero_weight] household 2 carries all the weight, so
    both households pass the trimming; household 2 is then dropped for its
    negative liquid wealth, and household 1, of weight 0, is alone in the
    panel.  Its normalized weight is 0 divided by the total weight 0: NaN
    in binary64, like its tier weight, and 0 with the exact quotient by
    zero; in neither case do the weights sum to 1. *)
Lemma C5_counterexample :
  map Panel.yy1 (calculate_liquid_wealth (raw_zero_weight (A := Q)) false)
  = [1%Z]
  /\ ~ (Qsum (map Panel.normweight
                  (calculate_liquid_wealth (raw_zero_weight (A := Q)) false))
        == 1)%Q
  /\ match calculate_liquid_wealth (raw_zero_weight (A := float)) false with
     | [p] => Panel.yy1 p = 1%Z
              /\ PrimFloat.eqb (Panel.normweight p) (Panel.normweight p) = false
              /\ PrimFloat.eqb (Panel.normweight p) (float_of_Z 1) = false
              /\ PrimFloat.eqb (Panel.edWeight p) (Panel.edWeight p) = false
     | _ => False
     end.
Proof.
  split; [vm_compute; reflexivity|]. split.
  - intros E. vm_compute in E. discriminate E.
  - vm_compute. repeat split; reflexivity.
Qed.

(** C5, amended.  When the sample weights of the raw rows are positive and
    the panel is not empty, its [normweight] column sums to 1, and within
    every education tier that has a household the [edWeight] column sums
    to 1.  Here [normweight] is the weight over the sum of the weights of
    the panel and [edWeight] is [normweight] over the sum of [normweight]
    in the tier. *)
Theorem C5_weights_sum_to_one
    (df : list (Raw.t Q)) (include_installment : bool) :
  Forall (fun r => (0 < Raw.wgt r)%Q) df ->
  calculate_liquid_wealth df include_installment <> [] ->
  (Qsum (map Panel.normweight (calculate_liquid_wealth df include_installment))
   == 1)%Q
  /\ (forall ed : Z,
        (exists p, In p (calculate_liquid_wealth df include_installment)
                   /\ Panel.myEd p = ed) ->
        (Qsum (map Panel.edWeight
                   (List.filter (fun p => (Panel.myEd p =? ed)%Z)
                      (calculate_liquid_wealth df include_installment)))
         == 1)%Q)
  /\ (forall p, In p (calculate_liquid_wealth df include_installment) ->
        (Panel.normweight p
         == Panel.weight p
            / Qsum (map Panel.weight
                        (calculate_liquid_wealth df include_installment)))%Q
        /\ (Panel.edWeight p
            == Panel.normweight p
               / Qsum (map Panel.normweight
                           (List.filter
                              (fun x => (Panel.myEd x =? Panel.myEd p)%Z)
                              (calculate_liquid_wealth df include_installment))))%Q).
Proof.
  intros Hpos Hne. unfold calculate_liquid_wealth in *.
  destruct (reweight_sums _ (selected_weights_pos df include_installment Hpos) Hne)
    as [Hall Hed].
  split; [rewrite <- col_sum_Qsum; exact Hall|]. split.
  - intros ed Hex. rewrite <- col_sum_Qsum. exact (Hed ed Hex).
  - intros p Hp. destruct (reweight_formulas _ p Hp) as (E1 & E2 & E3).
    rewrite <- !col_sum_Qsum. split.
    + rewrite E1. reflexivity.
    + rewrite E3, E2. reflexivity.
Qed.

(** C5 on [raw_with_drops], where household 1 is trimmed and household 2
    is dropped for its negative liquid wealth: households 3 and 4 are left
    with the normalized weights 2/5 and 3/5.  And on [raw_panel_example]:
    the households 1, 2, 4, 3, in the order of
    their incomes, have the weights 550, 1000, 900 and 1500 and so the
    normalized weights 11/79, 20/79, 18/79 and 30/79; households 2 and 4
    share tier 2 with the tier weights 10/19 and 9/19. *)
Lemma C5_witness :
  (Forall (fun r => (0 < Raw.wgt r)%Q) (raw_with_drops (A := Q))
   /\ map (fun p => (Panel.yy1 p, Panel.myEd p, Qred (Panel.normweight p),
                     Qred (Panel.edWeight p)))
          (calculate_liquid_wealth (raw_with_drops (A := Q)) false)
      = [ (3%Z, 2%Z, 2 # 5, 2 # 5); (4%Z, 2%Z, 3 # 5, 3 # 5) ]%Q
   /\ (Qsum (map Panel.normweight
                 (calculate_liquid_wealth (raw_with_drops (A := Q)) false))
       == 1)%Q)
  /\ Forall (fun r => (0 < Raw.wgt r)%Q) raw_panel_example
  /\ calculate_liquid_wealth raw_panel_example false <> []
  /\ map (fun p => (Panel.yy1 p, Panel.myEd p, Qred (Panel.normweight p),
                    Qred (Panel.edWeight p)))
         (calculate_liquid_wealth raw_panel_example false)
     = [ (1%Z, 1%Z, 11 # 79, 1); (2%Z, 2%Z, 20 # 79, 10 # 19);
         (4%Z, 2%Z, 18 # 79, 9 # 19); (3%Z, 3%Z, 30 # 79, 1) ]%Q
  /\ (Qsum (map Panel.normweight
                (calculate_liquid_wealth raw_panel_example false)) == 1)%Q
  /\ (Qsum (map Panel.edWeight
                (List.filter (fun p => (Panel.myEd p =? 2)%Z)
                   (calculate_liquid_wealth raw_panel_example false)))
      == 1)%Q.
Proof.
  assert (Hpos : Forall (fun r => (0 < Raw.wgt r)%Q) raw_panel_example)
    by (repeat constructor).
  assert (Hne : calculate_liquid_wealth raw_panel_example false <> [])
    by (vm_compute; discriminate).
  pose proof (C5_weights_sum_to_one raw_panel_example false Hpos Hne)
    as (Hall & Hed & _).
  split.
  { assert (Hpos' : Forall (fun r => (0 < Raw.wgt r)%Q) (raw_with_drops (A := Q)))
      by (repeat constructor).
    assert (Hne' : calculate_liquid_wealth (raw_with_drops (A := Q)) false <> [])
      by (vm_compute; discriminate).
    split; [exact Hpos'|]. split; [vm_compute; reflexivity|].
    exact (proj1 (C5_weights_sum_to_one raw_with_drops false Hpos' Hne')). }
  split; [exact Hpos|]. split; [exact Hne|]. split; [vm_compute; reflexivity|].
  split; [exact Hall|].
  apply Hed.
  exists (nth 1 (calculate_liquid_wealth raw_panel_example false)
              (Panel.mk (HH.mk 0 0 0 0 0 0 0) 0 0 0 0)%Q).
  split; [apply nth_In; vm_compute; lia|vm_compute; reflexivity].
Defined.

(** ** Lorenz curve *)

Section LorenzFacts.
Local Open Scope Q_scope.

Lemma combine_fst {X Y : Type} (l : list X) (l' : list Y) :
  length l = length l' -> map fst (combine l l') = l.
Proof.
  revert l'. induction l as [|x l IH]; intros [|y l'] E; cbn in *;
    try reflexivity; try discriminate.
  f_equal. apply IH. lia.
Qed.

Lemma combine_snd {X Y : Type} (l : list X) (l' : list Y) :
  length l = length l' -> map snd (combine l l') = l'.
Proof.
  revert l'. induction l as [|x l IH]; intros [|y l'] E; cbn in *;
    try reflexivity; try discriminate.
  f_equal. apply IH. lia.
Qed.

Lemma ordered_combine {X Y : Type} (le : X -> X -> bool)
    (l : list X) (l' : list Y) :
  ordered le l -> ordered (fun a b => le (fst a) (fst b)) (combine l l').
Proof.
  unfold ordered. intros Hs. revert l'.
  induction Hs as [|x l Hs IH Hhd]; intros l'; [constructor|].
  destruct l' as [|y l']; [constructor|]. cbn. constructor; [apply IH|].
  destruct Hhd as [|z l E]; [constructor|].
  destruct l' as [|y' l']; constructor. exact E.
Qed.

Lemma cumsum_from_length (acc : Q) (l : list Q) :
  length (cumsum_from acc l) = length l.
Proof.
  revert acc. induction l as [|x l IH]; intros acc; cbn; [reflexivity|].
  rewrite IH. reflexivity.
Qed.

Lemma cumsum_length (l : list Q) : length (cumsum l) = length l.
Proof. destruct l; cbn; [reflexivity|]. rewrite cumsum_from_length. reflexivity. Qed.

Lemma cumsum_from_sorted (acc : Q) (l : list Q) :
  Forall (fun x => 0 <= x) l -> Sorted Qle (acc :: cumsum_from acc l).
Proof.
  intros Hl. revert acc. induction Hl as [|x l Hx _ IH]; intros acc; cbn.
  - repeat constructor.
  - constructor; [apply IH|]. constructor. unfold_num. lra.
Qed.

Lemma cumsum_sorted (l : list Q) :
  Forall (fun x => 0 <= x) l -> Sorted Qle (cumsum l).
Proof.
  intros Hl. destruct Hl as [|x l _ Hl]; [constructor|].
  apply cumsum_from_sorted. exact Hl.
Qed.

Lemma cumsum_from_last (acc : Q) (l : list Q) :
  exists s, last (acc :: cumsum_from acc l) = Some s /\ s == acc + col_sum l.
Proof.
  revert acc. induction l as [|x l IH]; intros acc.
  - exists acc. split; [reflexivity|]. rewrite col_sum_nil. ring.
  - destruct (IH (add acc x)) as (s & Hs & E). exists s. split.
    + cbn [cumsum_from]. cbn zeta. exact Hs.
    + rewrite E, col_sum_cons. unfold_num. ring.
Qed.

Lemma cumsum_last (l : list Q) :
  l <> [] -> exists s, last (cumsum l) = Some s /\ s == col_sum l.
Proof.
  destruct l as [|x l]; [congruence|]. intros _.
  destruct (cumsum_from_last x l) as (s & Hs & E). exists s.
  split; [exact Hs|]. rewrite E, col_sum_cons. reflexivity.
Qed.

Lemma last_map_Some {X Y : Type} (f : X -> Y) (l : list X) (x : X) :
  last l = Some x -> last (map f l) = Some (f x).
Proof.
  induction l as [|a l IH]; [discriminate|].
  destruct l as [|b l]; [intros [= ->]; reflexivity|].
  intros E. exact (IH E).
Qed.

Lemma Sorted_map_scale (c : Q) (l : list Q) :
  0 <= c -> Sorted Qle l -> Sorted Qle (map (fun s => s * c) l).
Proof.
  intros Hc. induction 1 as [|x l _ IH Hhd]; cbn; [constructor|].
  constructor; [exact IH|].
  destruct Hhd as [|y l E]; cbn; constructor.
  apply Qmult_le_compat_r; assumption.
Qed.

Lemma col_sum_pos_exists (l : list Q) :
  Forall (fun x => 0 <= x) l -> (exists x, In x l /\ 0 < x) -> 0 < col_sum l.
Proof.
  induction 1 as [|y l Hy Hl IH]; intros (x & Hin & Hx); [destruct Hin|].
  rewrite col_sum_cons. destruct Hin as [->|Hin].
  - pose proof (col_sum_nonneg l Hl). lra.
  - assert (0 < col_sum l) by (apply IH; exists x; auto). lra.
Qed.
End LorenzFacts.

Section LorenzAll.
Local Open Scope Q_scope.

Lemma by_liqWealth_yy1_total (a b : Panel.t Q) :
  by_liqWealth_yy1 a b = false -> by_liqWealth_yy1 b a = true.
Proof.
  unfold by_liqWealth_yy1. intros E.
  apply orb_false_iff in E as [E1 E2]. apply ltb_Q_ge in E1.
  apply orb_true_iff.
  destruct (eqb (Panel.liqWealth a) (Panel.liqWealth b)) eqn:E3.
  - right. cbn in E2. apply Z.leb_gt in E2. apply eqb_Q_eq in E3.
    apply andb_true_iff. split.
    + apply eqb_Q_eq. symmetry. exact E3.
    + apply Z.leb_le. lia.
  - left. apply eqb_Q_neq in E3. apply ltb_Q_lt.
    destruct (Qle_lt_or_eq _ _ E1) as [L|L]; [exact L|].
    exfalso. apply E3. symmetry. exact L.
Qed.

Lemma sorted_by_liqWealth (df : list (Panel.t Q)) :
  StronglySorted (fun a b => Panel.liqWealth a <= Panel.liqWealth b)
                 (sort_values by_liqWealth_yy1 df).
Proof.
  pose proof (sort_values_ordered by_liqWealth_yy1 df by_liqWealth_yy1_total)
    as Hs.
  unfold ordered in Hs. apply Sorted_StronglySorted.
  - intros x y z. apply Qle_trans.
  - induction Hs as [|x l _ IH Hhd]; constructor; [exact IH|].
    destruct Hhd as [|y l E]; constructor.
    unfold by_liqWealth_yy1 in E. apply orb_true_iff in E as [E|E].
    + apply ltb_Q_lt in E. apply Qlt_le_weak. exact E.
    + apply andb_true_iff in E as [E _]. apply eqb_Q_eq in E.
      rewrite E. apply Qle_refl.
Qed.

(** The two share columns of the Lorenz table, over the panel sorted by
    liquid wealth and identifier: the second sort finds the table in order
    and leaves it so. *)
Lemma lorenz_all_columns (df : list (Panel.t Q)) :
  let sorted := sort_values by_liqWealth_yy1 df in
  let weightedLW_all :=
    map (fun p => Panel.normweight p * Panel.liqWealth p) sorted in
  map Lorenz.yy1 (lorenz_all df) = map Panel.yy1 sorted
  /\ map Lorenz.sumNormW (lorenz_all df)
     = map (fun s => s * 100) (cumsum (map Panel.normweight sorted))
  /\ map Lorenz.sumLWall (lorenz_all df)
     = map (fun s => s * 100)
           (cumsum (map (fun w => w / col_sum weightedLW_all) weightedLW_all)).
Proof.
  intros sorted weightedLW_all. unfold lorenz_all. fold sorted. unfold_num.
  set (sumNormW := map (fun s => s * 100) (cumsum (map Panel.normweight sorted))).
  assert (Hlen : length sorted = length sumNormW).
  { unfold sumNormW. rewrite length_map, cumsum_length, length_map. reflexivity. }
  rewrite (sort_values_of_ordered _ (combine sorted sumNormW)).
  2:{ apply ordered_combine, sort_values_ordered, by_liqWealth_yy1_total. }
  assert (Ew : map (fun p : Panel.t Q * Q =>
                      Panel.normweight (fst p) * Panel.liqWealth (fst p))
                   (combine sorted sumNormW) = weightedLW_all).
  { rewrite <- (map_map fst (fun p => Panel.normweight p * Panel.liqWealth p)).
    rewrite combine_fst by exact Hlen. reflexivity. }
  rewrite Ew.
  set (sumLWall := map (fun s => s * 100) (cumsum _)).
  assert (Hlen2 : length (combine sorted sumNormW) = length sumLWall).
  { unfold sumLWall. rewrite length_map, cumsum_length, length_map.
    unfold weightedLW_all. rewrite length_map, length_combine, <- Hlen.
    apply Nat.min_id. }
  rewrite !map_map. cbn [Lorenz.yy1 Lorenz.sumNormW Lorenz.sumLWall].
  split; [|split].
  - rewrite <- (map_map fst (fun q => Panel.yy1 (fst q))).
    rewrite combine_fst by exact Hlen2.
    rewrite <- (map_map fst Panel.yy1), combine_fst by exact Hlen. reflexivity.
  - rewrite <- (map_map fst snd), combine_fst by exact Hlen2.
    apply combine_snd. exact Hlen.
  - apply combine_snd. exact Hlen2.
Qed.

Lemma lorenz_all_shares (df : list (Panel.t Q)) :
  Forall (fun p => 0 <= Panel.normweight p) df ->
  col_sum (map Panel.normweight df) == 1 ->
  Forall (fun p => 0 <= Panel.liqWealth p) df ->
  0 < col_sum (map (fun p => Panel.normweight p * Panel.liqWealth p) df) ->
  (Sorted Qle (map Lorenz.sumNormW (lorenz_all df))
   /\ exists s, last (map Lorenz.sumNormW (lorenz_all df)) = Some s /\ s == 100)
  /\ (Sorted Qle (map Lorenz.sumLWall (lorenz_all df))
      /\ exists s, last (map Lorenz.sumLWall (lorenz_all df)) = Some s
                   /\ s == 100).
Proof.
  intros Hnw Hone Hlw Htot.
  destruct (lorenz_all_columns df) as (_ & -> & ->).
  set (sorted := sort_values by_liqWealth_yy1 df).
  assert (Hperm : Permutation sorted df) by apply sort_values_perm.
  assert (Hin : forall p, In p sorted -> In p df)
    by (intros p; apply Permutation_in; exact Hperm).
  rewrite List.Forall_forall in Hnw, Hlw.
  assert (Hne : sorted <> []).
  { intros E. rewrite E in Hperm. apply Permutation_nil in Hperm.
    rewrite Hperm in Hone. vm_compute in Hone. discriminate Hone. }
  set (w := map (fun p => Panel.normweight p * Panel.liqWealth p) sorted).
  assert (Hw : col_sum w == col_sum (map (fun p => Panel.normweight p
                                                   * Panel.liqWealth p) df))
    by (apply col_sum_perm, Permutation_map, Hperm).
  assert (Htot' : 0 < col_sum w) by (rewrite Hw; exact Htot).
  split; split.
  - apply Sorted_map_scale; [lra|]. apply cumsum_sorted.
    apply List.Forall_forall. intros x Hx.
    apply in_map_iff in Hx as (p & <- & Hp). apply Hnw, Hin, Hp.
  - destruct (cumsum_last (map Panel.normweight sorted)) as (s & Hs & E).
    { intros E. apply map_eq_nil in E. exact (Hne E). }
    exists (s * 100).
    split; [apply (last_map_Some (fun s => s * 100)); exact Hs|].
    rewrite E, (col_sum_perm _ (map Panel.normweight df)), Hone
      by (apply Permutation_map, Hperm).
    reflexivity.
  - apply Sorted_map_scale; [lra|]. apply cumsum_sorted.
    apply List.Forall_forall. intros x Hx.
    apply in_map_iff in Hx as (y & <- & Hy).
    apply in_map_iff in Hy as (p & <- & Hp).
    apply Qle_shift_div_l; [exact Htot'|]. rewrite Qmult_0_l.
    apply Qmult_le_0_compat; [apply Hnw|apply Hlw]; apply Hin, Hp.
  - destruct (cumsum_last (map (fun x => x / col_sum w) w)) as (s & Hs & E).
    { intros E. apply map_eq_nil in E. apply map_eq_nil in E. exact (Hne E). }
    exists (s * 100).
    split; [apply (last_map_Some (fun s => s * 100)); exact Hs|].
    rewrite E, (col_sum_map_scale (fun x => x)), map_id. field. lra.
Qed.
End LorenzAll.

Section PanelWeights.
Local Open Scope Q_scope.

Lemma reweight_normweight_pos (df : list (HH.t Q * Q)) (p : Panel.t Q) :
  Forall (fun q => 0 < HH.weight (fst q)) df ->
  In p (reweight df) -> 0 < Panel.normweight p.
Proof.
  intros Hpos Hin. pose proof (reweight_columns df) as E. cbn zeta in E.
  rewrite E in Hin. clear E.
  apply in_map_iff in Hin as (q & <- & Hq). cbn [Panel.normweight].
  rewrite List.Forall_forall in Hpos.
  assert (Hkept : forall x, In x (List.filter (fun p => leb (of_Q 0) (snd p)) df) ->
                            0 < HH.weight (fst x)).
  { intros x Hx. apply filter_In in Hx as [Hx _]. exact (Hpos x Hx). }
  apply Qlt_shift_div_l.
  - apply col_sum_pos.
    + intros E. apply map_eq_nil in E. rewrite E in Hq. destruct Hq.
    + apply List.Forall_forall. intros w Hw.
      apply in_map_iff in Hw as (x & <- & Hx). exact (Hkept x Hx).
  - rewrite Qmult_0_l. exact (Hkept q Hq).
Qed.

End PanelWeights.

(** ** The call of calculate_statistics up to the Lorenz table *)

Section StatisticsRun.
Context {A : Type} `{Num A}.

Lemma median_loop_inv (eds : list Z) (df : list (Panel.t A))
    (medians : list (Z * A)) :
  median_loop eds df = inr medians ->
  map fst medians = eds
  /\ forall ed m, In (ed, m) medians -> wtMedLWoPI df ed = Some m.
Proof.
  revert medians. induction eds as [|ed eds IH]; intros medians; cbn [median_loop].
  - intros [= <-]. split; [reflexivity|]. intros ? ? [].
  - destruct (wtMedLWoPI df ed) as [m|] eqn:E; [|discriminate].
    destruct (median_loop eds df) as [e|rest]; [discriminate|].
    intros [= <-]. destruct (IH rest eq_refl) as [Hfst Hin].
    split; [cbn; rewrite Hfst; reflexivity|].
    intros ed' m' [[= <- <-]|Hrest]; [exact E|exact (Hin ed' m' Hrest)].
Qed.

Lemma median_loop_all (eds : list Z) (df : list (Panel.t A))
    (medians : list (Z * A)) (ed : Z) :
  median_loop eds df = inr medians -> In ed eds ->
  exists m, In (ed, m) medians /\ wtMedLWoPI df ed = Some m.
Proof.
  intros Hloop Hed. destruct (median_loop_inv eds df medians Hloop) as [Hfst Hin].
  rewrite <- Hfst in Hed. apply in_map_iff in Hed as ([ed' m] & <- & Hm).
  exists m. split; [exact Hm|exact (Hin _ _ Hm)].
Qed.

Lemma initial_income_created (eds : list Z) (df : list (Panel.t A))
    (created : bool) :
  initial_income eds df created = inr true ->
  created = true \/ exists ed, In ed eds /\ aged_25 df ed <> [].
Proof.
  revert created. induction eds as [|ed eds IH]; intros created; cbn [initial_income].
  - intros [= ->]. left. reflexivity.
  - destruct (aged_25 df ed) as [|p subset] eqn:E.
    + cbn [length Nat.ltb Nat.leb]. intros Hrest.
      destruct (IH created Hrest) as [->|(ed' & Hed' & Hne)]; [left; reflexivity|].
      right. exists ed'. split; [right; exact Hed'|exact Hne].
    + intros _. right. exists ed. split; [left; reflexivity|].
      rewrite E. discriminate.
Qed.

(** What the call has gone through when it gets to line 289. *)
Lemma calculate_statistics_to_lorenz_all_inv (df : list (Panel.t A))
    (out : Stats.t A) :
  calculate_statistics_to_lorenz_all df = inr out ->
  initial_income [1%Z; 2%Z; 3%Z] df false = inr true
  /\ median_loop [1%Z; 2%Z; 3%Z] df = inr (Stats.wtMedLWoPI out)
  /\ Stats.lorenz_points out = lorenz_points df
  /\ Stats.lorenz_all out = lorenz_all df.
Proof.
  unfold calculate_statistics_to_lorenz_all.
  destruct df as [|p df]; [discriminate|].
  destruct (initial_income _ _ false) as [e|[|]]; [discriminate| |discriminate].
  destruct (median_loop _ _) as [e|medians]; [discriminate|].
  intros [= <-]. auto.
Qed.
End StatisticsRun.

(** ** Lorenz bucket readout: the rule of line 282 *)

Lemma wealth_share_rule (lorenz : list (Lorenz.t Q)) (pct : Q) :
  match wealth_share lorenz pct with
  | None => forall r, In r lorenz -> ~ (Lorenz.sumNormW r < pct)%Q
  | Some m =>
      (exists r, In r lorenz /\ (Lorenz.sumNormW r < pct)%Q
                 /\ Lorenz.sumLWall r = m)
      /\ forall r, In r lorenz -> (Lorenz.sumNormW r < pct)%Q ->
                   (Lorenz.sumLWall r <= m)%Q
  end.
Proof.
  unfold wealth_share.
  destruct (col_max _) as [m|] eqn:E.
  - apply col_max_spec in E as [Hin Hall]. split.
    + apply in_map_iff in Hin as (r & Er & Hr).
      apply filter_In in Hr as [Hr Hlt]. apply ltb_Q_lt in Hlt.
      exists r. auto.
    + intros r Hr Hlt. rewrite List.Forall_forall in Hall. apply Hall.
      apply in_map, filter_In. split; [exact Hr|apply ltb_Q_lt; exact Hlt].
  - intros r Hr Hlt.
    assert (Hin : In (Lorenz.sumLWall r)
                     (map Lorenz.sumLWall
                          (List.filter (fun r => ltb (Lorenz.sumNormW r) pct) lorenz))).
    { apply in_map, filter_In. split; [exact Hr|apply ltb_Q_lt; exact Hlt]. }
    destruct (map _ _); [destruct Hin|discriminate].
Qed.

(** ** Weighted median *)

Section BinarySearch.
Local Open Scope Q_scope.
Variables (a : list Q) (v : Q).

Lemma midpoint_bounds (lo hi : nat) :
  (lo < hi)%nat -> (lo <= lo + (hi - lo) / 2 < hi)%nat.
Proof.
  intros L. assert (H : ((hi - lo) / 2 < hi - lo)%nat) by (apply Nat.div_lt; lia).
  lia.
Qed.

Lemma StronglySorted_lookup_le (l : list Q) (i j : nat) (x y : Q) :
  StronglySorted Qle l -> (i <= j)%nat ->
  l !! i = Some x -> l !! j = Some y -> x <= y.
Proof.
  intros Hs. revert i j. induction Hs as [|h t _ IH Hall]; intros i j L Hi Hj.
  - discriminate.
  - destruct i as [|i], j as [|j]; cbn in Hi, Hj; try lia.
    + injection Hi as <-. injection Hj as <-. apply Qle_refl.
    + injection Hi as <-. rewrite List.Forall_forall in Hall. apply Hall.
      apply list_elem_of_In. eapply list_elem_of_lookup_2. exact Hj.
    + apply (IH i j); [lia|assumption|assumption].
Qed.

(** On a non-decreasing array the binary search returns the first index
    whose entry is not below [v]. *)
Lemma binsearch_left_spec (fuel lo hi : nat) :
  StronglySorted Qle a ->
  (hi - lo <= fuel)%nat -> (lo <= hi <= length a)%nat ->
  (forall j x, (j < lo)%nat -> a !! j = Some x -> x < v) ->
  (forall j x, (hi <= j)%nat -> a !! j = Some x -> v <= x) ->
  (lo <= binsearch_left fuel a v lo hi <= hi)%nat
  /\ (forall j x, (j < binsearch_left fuel a v lo hi)%nat ->
                  a !! j = Some x -> x < v)
  /\ (forall j x, (binsearch_left fuel a v lo hi <= j)%nat ->
                  a !! j = Some x -> v <= x).
Proof.
  intros Hs. revert lo hi.
  induction fuel as [|fuel IH]; intros lo hi Hf Hb Hlo Hhi.
  - cbn. assert (lo = hi) by lia. subst hi. split; [lia|]. split; assumption.
  - cbn [binsearch_left]. destruct (Nat.ltb_spec lo hi) as [L|L].
    + pose proof (midpoint_bounds lo hi L) as Hm.
      set (mid := (lo + (hi - lo) / 2)%nat) in *.
      destruct (lookup_lt_is_Some_2 a mid) as [x Hx]; [lia|]. rewrite Hx.
      destruct (ltb x v) eqn:E.
      * apply ltb_Q_lt in E.
        destruct (IH (S mid) hi) as (B & Hl & Hr); try lia; try assumption.
        { intros j y Hj Hy. apply Qle_lt_trans with x; [|exact E].
          apply (StronglySorted_lookup_le a j mid); [assumption|lia| |];
            assumption. }
        split; [lia|]. split; assumption.
      * apply ltb_Q_ge in E.
        destruct (IH lo mid) as (B & Hl & Hr); try lia; try assumption.
        { intros j y Hj Hy. apply Qle_trans with x; [exact E|].
          apply (StronglySorted_lookup_le a mid j); [assumption|lia| |];
            assumption. }
        split; [lia|]. split; assumption.
    + assert (lo = hi) by lia. subst hi. split; [lia|]. split; assumption.
Qed.

(** Whatever the order of the array, the result is within the bounds. *)
Lemma binsearch_left_bounds (fuel lo hi : nat) :
  (lo <= hi)%nat -> (lo <= binsearch_left fuel a v lo hi <= hi)%nat.
Proof.
  revert lo hi.
  induction fuel as [|fuel IH]; intros lo hi L; cbn [binsearch_left]; [lia|].
  destruct (Nat.ltb_spec lo hi) as [L'|L']; [|lia].
  pose proof (midpoint_bounds lo hi L') as Hm.
  destruct (a !! _) as [x|]; [|lia].
  destruct (ltb x v).
  - pose proof (IH (S (lo + (hi - lo) / 2)) hi). lia.
  - pose proof (IH lo (lo + (hi - lo) / 2)%nat). lia.
Qed.

(** When every entry is below [v] the search runs to the end. *)
Lemma binsearch_left_all_below (fuel lo hi : nat) :
  (forall x, In x a -> x < v) ->
  (hi - lo <= fuel)%nat -> (lo <= hi <= length a)%nat ->
  binsearch_left fuel a v lo hi = hi.
Proof.
  intros Hall. revert lo hi.
  induction fuel as [|fuel IH]; intros lo hi Hf Hb; cbn [binsearch_left]; [lia|].
  destruct (Nat.ltb_spec lo hi) as [L|L]; [|lia].
  pose proof (midpoint_bounds lo hi L) as Hm.
  set (mid := (lo + (hi - lo) / 2)%nat) in *.
  destruct (lookup_lt_is_Some_2 a mid) as [x Hx]; [lia|]. rewrite Hx.
  assert (E : ltb x v = true).
  { apply ltb_Q_lt, Hall, list_elem_of_In. eapply list_elem_of_lookup_2. exact Hx. }
  rewrite E. apply IH; lia.
Qed.
End BinarySearch.

Section WeightedMedian.
Local Open Scope Q_scope.

Lemma subset_of_In (df : list (Panel.t Q)) (ed : Z) (p : Panel.t Q) (x : Q) :
  In (p, x) (subset_of df ed)
  <-> In p df /\ Panel.myEd p = ed /\ x = indLWoPI p.
Proof.
  unfold subset_of. rewrite filter_In, in_map_iff. cbn [fst]. split.
  - intros [(q & E & Hq) Hed]. injection E as -> <-.
    apply sort_values_In in Hq. apply Z.eqb_eq in Hed. auto.
  - intros (Hp & Hed & ->). split; [|apply Z.eqb_eq; exact Hed].
    exists p. split; [reflexivity|]. apply sort_values_In. exact Hp.
Qed.

Lemma by_indLWoPI_Q (a b : Panel.t Q * Q) :
  by_indLWoPI a b = leb (snd a) (snd b).
Proof.
  unfold by_indLWoPI.
  assert (E : eqb (snd b) (snd b) = true) by (apply eqb_Q_eq; reflexivity).
  rewrite E. apply orb_false_r.
Qed.

Lemma by_ratio_total (a b : Panel.t Q * Q) :
  by_indLWoPI a b = false -> by_indLWoPI b a = true.
Proof.
  rewrite !by_indLWoPI_Q.
  intros E. apply leb_Q_gt in E. apply leb_Q_le, Qlt_le_weak. exact E.
Qed.

Lemma sorted_by_ratio (subset : list (Panel.t Q * Q)) :
  StronglySorted (fun a b => snd a <= snd b) (sort_values by_indLWoPI subset).
Proof.
  pose proof (sort_values_ordered by_indLWoPI subset by_ratio_total) as Hs.
  unfold ordered in Hs. apply Sorted_StronglySorted.
  - intros x y z. apply Qle_trans.
  - induction Hs as [|x l _ IH Hhd]; constructor; [exact IH|].
    destruct Hhd as [|y l E]; constructor.
    rewrite by_indLWoPI_Q in E. apply leb_Q_le. exact E.
Qed.

Lemma sorted_ratios (subset : list (Panel.t Q * Q)) :
  StronglySorted Qle (map snd (sort_values by_indLWoPI subset)).
Proof.
  pose proof (sorted_by_ratio subset) as Hs.
  induction Hs as [|x l _ IH Hall]; cbn [map]; constructor; [exact IH|].
  apply List.Forall_forall. intros y Hy. apply in_map_iff in Hy as (q & <- & Hq).
  rewrite List.Forall_forall in Hall. exact (Hall q Hq).
Qed.

Lemma weighted_median_spec (subset : list (Panel.t Q * Q)) :
  subset <> [] ->
  let sorted := sort_values by_indLWoPI subset in
  let cum := cumsum (map (fun p => Panel.edWeight (fst p)) sorted) in
  exists median total,
    weighted_median subset = Some median
    /\ last cum = Some total
    /\ In median (map snd subset)
    /\ ((forall c, In c cum -> c < total / 2) ->
        last (map snd sorted) = Some median)
    /\ (Forall (fun q => 0 <= Panel.edWeight (fst q)) subset ->
        exists i c, map snd sorted !! i = Some median /\ cum !! i = Some c
                    /\ total / 2 <= c
                    /\ forall j c', (j < i)%nat -> cum !! j = Some c' ->
                                    c' < total / 2).
Proof.
  intros Hne sorted cum.
  assert (Hperm : Permutation sorted subset) by apply sort_values_perm.
  assert (Hsne : sorted <> []).
  { intros E. apply Hne. eapply sort_values_nil_inv. exact E. }
  set (weights := map (fun p => Panel.edWeight (fst p)) sorted) in *.
  set (values := map snd sorted).
  assert (Hlen : length cum = length values).
  { unfold cum, values, weights. rewrite cumsum_length, !length_map. reflexivity. }
  assert (Hvne : values <> []).
  { intros E. apply map_eq_nil in E. exact (Hsne E). }
  destruct (cumsum_last weights) as (total & Hlast & Etot).
  { intros E. apply map_eq_nil in E. exact (Hsne E). }
  fold cum in Hlast.
  assert (Hval : forall x, In x values -> In x (map snd subset)).
  { intros x. apply Permutation_in, Permutation_map, Hperm. }
  assert (Hmed : weighted_median subset
                 = if Nat.ltb (searchsorted cum (total / 2)) (length values)
                   then values !! searchsorted cum (total / 2)
                   else last values).
  { unfold weighted_median. fold sorted. fold weights. fold values. fold cum.
    unfold last_item. rewrite Hlast. reflexivity. }
  set (idx := searchsorted cum (total / 2)) in *.
  assert (Hbelow : (forall c, In c cum -> c < total / 2) -> idx = length cum).
  { intros Hall. apply binsearch_left_all_below; [exact Hall|lia|lia]. }
  assert (Hcross :
            Forall (fun q => 0 <= Panel.edWeight (fst q)) subset ->
            (idx < length cum)%nat
            /\ (forall j x, (j < idx)%nat -> cum !! j = Some x -> x < total / 2)
            /\ (forall j x, (idx <= j)%nat -> cum !! j = Some x -> total / 2 <= x)).
  { intros Hw.
    assert (Hnn : Forall (fun x => 0 <= x) weights).
    { apply List.Forall_forall. intros w Hin.
      apply in_map_iff in Hin as (q & <- & Hq).
      rewrite List.Forall_forall in Hw. apply Hw.
      apply (Permutation_in _ Hperm). exact Hq. }
    assert (Hs : StronglySorted Qle cum).
    { apply Sorted_StronglySorted; [intros x y z; apply Qle_trans|].
      apply cumsum_sorted. exact Hnn. }
    destruct (binsearch_left_spec cum (total / 2) (length cum) 0 (length cum) Hs)
      as (B & Hl & Hr).
    { lia. }
    { lia. }
    { intros j x Hj. lia. }
    { intros j x Hj Hx. apply lookup_lt_Some in Hx. lia. }
    fold (searchsorted cum (total / 2)) in B, Hl, Hr. fold idx in B, Hl, Hr.
    split; [|split; assumption].
    destruct (Nat.eq_dec idx (length cum)) as [E|E]; [|lia].
    exfalso. rewrite last_lookup in Hlast.
    assert (Hlt : total < total / 2).
    { apply (Hl (pred (length cum))); [|exact Hlast].
      apply lookup_lt_Some in Hlast. lia. }
    pose proof (col_sum_nonneg weights Hnn) as Hsum. rewrite <- Etot in Hsum.
    assert (total / 2 <= total) by (apply Qle_shift_div_r; lra).
    lra. }
  destruct (Nat.ltb_spec idx (length values)) as [L|L].
  - destruct (lookup_lt_is_Some_2 values idx L) as [median Hm].
    exists median, total. rewrite Hmed, Hm.
    split; [reflexivity|]. split; [exact Hlast|]. split; [|split].
    + apply Hval, list_elem_of_In. eapply list_elem_of_lookup_2. exact Hm.
    + intros Hall. apply Hbelow in Hall. lia.
    + intros Hw. destruct (Hcross Hw) as (Hi & Hl & Hr).
      destruct (lookup_lt_is_Some_2 cum idx Hi) as [c Hc].
      exists idx, c. split; [exact Hm|]. split; [exact Hc|].
      split; [apply (Hr idx); [lia|exact Hc]|exact Hl].
  - destruct (last values) as [median|] eqn:Hm.
    2:{ apply last_None in Hm. contradiction. }
    exists median, total. rewrite Hmed.
    split; [reflexivity|]. split; [exact Hlast|]. split; [|split].
    + apply Hval, list_elem_of_In. eapply last_Some_elem_of. exact Hm.
    + intros _. reflexivity.
    + intros Hw. destruct (Hcross Hw) as (Hi & _). lia.
Qed.
Lemma cumsum_from_lookup (acc : Q) (l : list Q) (i : nat) (c : Q) :
  cumsum_from acc l !! i = Some c -> c == acc + col_sum (firstn (S i) l).
Proof.
  revert acc i. induction l as [|x l IH]; intros acc i E; [discriminate|].
  cbn [cumsum_from] in E. cbn zeta in E. destruct i as [|i].
  - injection E as <-. change (firstn 1 (x :: l)) with [x].
    rewrite col_sum_cons, col_sum_nil. unfold_num. ring.
  - cbn in E. apply IH in E. rewrite E.
    change (firstn (S (S i)) (x :: l)) with (x :: firstn (S i) l).
    rewrite col_sum_cons. unfold_num. ring.
Qed.

(** The [i]-th running sum is the sum of the first [i + 1] entries. *)
Lemma cumsum_lookup (l : list Q) (i : nat) (c : Q) :
  cumsum l !! i = Some c -> c == col_sum (firstn (S i) l).
Proof.
  destruct l as [|x l]; [discriminate|]. destruct i as [|i]; cbn [cumsum].
  - intros [= <-]. change (firstn 1 (x :: l)) with [x].
    rewrite col_sum_cons, col_sum_nil. ring.
  - intros E. cbn in E. apply cumsum_from_lookup in E. rewrite E.
    change (firstn (S (S i)) (x :: l)) with (x :: firstn (S i) l).
    rewrite col_sum_cons. reflexivity.
Qed.

Lemma wtMedLWoPI_empty_group (df : list (Panel.t Q)) (ed : Z) :
  (forall p, In p df -> Panel.myEd p <> ed) -> wtMedLWoPI df ed = None.
Proof.
  intros Hnone. unfold wtMedLWoPI.
  destruct (subset_of df ed) as [|[p x] rest] eqn:E; [reflexivity|].
  exfalso.
  assert (Hin : In (p, x) (subset_of df ed)) by (rewrite E; left; reflexivity).
  apply subset_of_In in Hin as (Hp & Hed & _). exact (Hnone p Hp Hed).
Qed.

Lemma wtMedLWoPI_group (df : list (Panel.t Q)) (ed : Z) (m : Q) :
  wtMedLWoPI df ed = Some m -> exists p, In p df /\ Panel.myEd p = ed.
Proof.
  intros Hm. destruct (subset_of df ed) as [|[p x] rest] eqn:E.
  - unfold wtMedLWoPI in Hm. rewrite E in Hm. discriminate Hm.
  - assert (Hin : In (p, x) (subset_of df ed)) by (rewrite E; left; reflexivity).
    apply subset_of_In in Hin as (Hp & Hed & _). exists p. auto.
Qed.

(** The running sums of [np.cumsum], written out. *)
Lemma cumsum_prefix (l : list Q) (i : nat) (c : Q) :
  cumsum l !! i = Some c -> c == Qsum (firstn (S i) l).
Proof. intros Hc. rewrite (cumsum_lookup l i c Hc). apply col_sum_Qsum. Qed.

Lemma cumsum_total (l : list Q) (total : Q) :
  last (cumsum l) = Some total -> total == Qsum l.
Proof.
  intros Hlast. destruct l as [|x l]; [discriminate|].
  destruct (cumsum_last (x :: l)) as (s & Hs & Es); [discriminate|].
  rewrite Hs in Hlast. injection Hlast as <-. rewrite Es. apply col_sum_Qsum.
Qed.
End WeightedMedian.

Section StatisticsRunNeeds.
Local Open Scope Q_scope.

Lemma aged_25_In (df : list (Panel.t Q)) (ed : Z) (p : Panel.t Q) :
  In p (aged_25 df ed)
  <-> In p df /\ Panel.myEd p = ed /\ HH.age (Panel.hh p) == 25.
Proof.
  unfold aged_25. rewrite filter_In, andb_true_iff, Z.eqb_eq.
  change (@of_Q Q Num_Q 25) with 25. rewrite eqb_Q_eq. tauto.
Qed.

(** The call gets to line 289 only on a panel with a household aged 25
    and a household in each of the three education tiers. *)
Lemma calculate_statistics_to_lorenz_all_needs (df : list (Panel.t Q))
    (out : Stats.t Q) :
  calculate_statistics_to_lorenz_all df = inr out ->
  (exists p, In p df /\ In (Panel.myEd p) [1%Z; 2%Z; 3%Z]
             /\ HH.age (Panel.hh p) == 25)
  /\ forall ed, In ed [1%Z; 2%Z; 3%Z] -> exists p, In p df /\ Panel.myEd p = ed.
Proof.
  intros Hrun.
  apply calculate_statistics_to_lorenz_all_inv in Hrun as (Hinc & Hloop & _).
  split.
  - apply initial_income_created in Hinc as [Hf|(ed & Hed & Hsub)];
      [discriminate|].
    destruct (aged_25 df ed) as [|p subset] eqn:E; [congruence|].
    assert (Hp : In p (aged_25 df ed)) by (rewrite E; left; reflexivity).
    apply aged_25_In in Hp as (Hp & Hmy & Hage).
    exists p. rewrite Hmy. auto.
  - intros ed Hed.
    destruct (median_loop_all _ _ _ ed Hloop Hed) as (m & _ & Hwt).
    exact (wtMedLWoPI_group df ed m Hwt).
Qed.
End StatisticsRunNeeds.

(** The claim C3 fails in three ways.  A tier with households has no
    median when the call has raised before: on [panel4], whose households
    are all in tier 2 and none aged 25, it ends in the KeyError of line
    216.  A household without income has no ratio: in [raw_zero_income]
    household 3 has [norminc] 0, which the sample selection keeps, and
    liquid wealth 0, and its ratio is the NaN of 0/0.  The ratios of tier
    2 are NaN and 0.5 with the tier weights 0.75 and 0.25; NaN is sorted
    last, the running sums are 0.25 and 1, and the weighted median of the
    tier is NaN, which is not between the smallest and the largest ratio
    of the tier.  And with a negative weight the binary search does not
    find the first crossing: in tier 2 of [panel_mixed_weights] the ratios
    0.1, 0.2, 0.3 have the weights 1, -1, 1 and the running sums 1, 0, 1;
    half the total is 0.5, which the first running sum exceeds, and the
    median returned is the third ratio, 0.3. *)
Lemma C3_counterexample :
  calculate_statistics_to_lorenz_all (panel4 (A := float)) = inl Stats.KeyError
  /\ map (fun p => (Panel.yy1 p, Panel.myEd p))
         (calculate_liquid_wealth (raw_zero_income (A := float)) false)
     = [(3, 2); (1, 1); (2, 2); (4, 3)]%Z
  /\ match map snd (subset_of (calculate_liquid_wealth
                                 (raw_zero_income (A := float)) false) 2) with
     | [x; y] => PrimFloat.eqb x x = false
                 /\ PrimFloat.eqb y (of_Q 0.5%Q) = true
     | _ => False
     end
  /\ match calculate_statistics_to_lorenz_all
             (calculate_liquid_wealth (raw_zero_income (A := float)) false) with
     | inr out =>
         map fst (Stats.wtMedLWoPI out) = [1; 2; 3]%Z
         /\ match map snd (Stats.wtMedLWoPI out) with
            | [_; median; _] =>
                PrimFloat.eqb median median = false
                /\ PrimFloat.leb (of_Q 0.5%Q) median = false
                /\ PrimFloat.leb median (of_Q 0.5%Q) = false
            | _ => False
            end
     | inl _ => False
     end
  /\ map (fun q => (Qred (snd q), Panel.edWeight (fst q)))
         (sort_values by_indLWoPI (subset_of (panel_mixed_weights (A := Q)) 2))
     = [(1 # 10, 1); (1 # 5, -1); (3 # 10, 1)]%Q
  /\ match calculate_statistics_to_lorenz_all (panel_mixed_weights (A := Q)) with
     | inr out =>
         map (fun em => (fst em, Qred (snd em))) (Stats.wtMedLWoPI out)
         = [(1%Z, 1 # 10); (2%Z, 3 # 10); (3%Z, 1 # 2)]%Q
     | inl _ => False
     end
  /\ match calculate_statistics_to_lorenz_all (panel_mixed_weights (A := float)) with
     | inr out =>
         Stats.wtMedLWoPI out
         = [(1%Z, of_Q 0.1%Q); (2%Z, of_Q 0.3%Q); (3%Z, of_Q 0.5%Q)]
     | inl _ => False
     end.
Proof.
  split; [vm_compute; reflexivity|].
  split; [vm_compute; reflexivity|]. split; [vm_compute; split; reflexivity|].
  split; [vm_compute; repeat split; reflexivity|].
  split; [vm_compute; reflexivity|]. split; vm_compute; reflexivity.
Qed.

(** C3, amended.  When the call of [calculate_statistics] gets past the
    weighted medians, some household is aged 25 and every education tier
    has a household and a median.
    For a tier whose households have a permanent income other than 0: the
    ratios are sorted ascending, and the median is the ratio of a
    household of the tier, so between the smallest and the largest ratio
    of the tier.  When no running sum of the weights reaches half of their
    total, the last ratio is returned.  When the weights of the tier are
    not negative, the median is the ratio at the first position whose
    running sum is at least half the total: the running sum there is at
    least half, every earlier one is below half, and so among equal
    candidates the first in sort order is taken.  The running sum at
    position [i] is the sum of the first [i + 1] weights. *)
Theorem C3_weighted_median_first_crossing
    (df : list (Panel.t Q)) (out : Stats.t Q) (ed : Z) :
  calculate_statistics_to_lorenz_all df = inr out ->
  In ed [1%Z; 2%Z; 3%Z] ->
  (forall p, In p df -> Panel.myEd p = ed -> ~ (Panel.permInc p == 0)%Q) ->
  let subset := subset_of df ed in
  let sorted := sort_values by_indLWoPI subset in
  let values := map snd sorted in
  let weights := map (fun p => Panel.edWeight (fst p)) sorted in
  ((exists p, In p df /\ In (Panel.myEd p) [1%Z; 2%Z; 3%Z]
              /\ (HH.age (Panel.hh p) == 25)%Q)
   /\ forall ed', In ed' [1%Z; 2%Z; 3%Z] ->
                  exists p, In p df /\ Panel.myEd p = ed')
  /\ Permutation sorted subset
  /\ StronglySorted Qle values
  /\ exists median,
       In (ed, median) (Stats.wtMedLWoPI out)
       /\ (exists p, In p df /\ Panel.myEd p = ed /\ median = indLWoPI p)
       /\ (exists lo hi,
             In lo values /\ In hi values
             /\ (forall x, In x values -> (lo <= x)%Q /\ (x <= hi)%Q)
             /\ (lo <= median)%Q /\ (median <= hi)%Q)
       /\ ((forall i, (i < length weights)%nat ->
                      (Qsum (firstn (S i) weights) < Qsum weights / 2)%Q) ->
           last values = Some median)
       /\ ((forall p, In p df -> Panel.myEd p = ed ->
                      (0 <= Panel.edWeight p)%Q) ->
           exists i, values !! i = Some median
                     /\ (Qsum weights / 2 <= Qsum (firstn (S i) weights))%Q
                     /\ forall j, (j < i)%nat ->
                          (Qsum (firstn (S j) weights) < Qsum weights / 2)%Q).
Proof.
  intros Hrun Hed _ subset sorted values weights.
  split; [exact (calculate_statistics_to_lorenz_all_needs df out Hrun)|].
  apply calculate_statistics_to_lorenz_all_inv in Hrun as (_ & Hloop & _ & _).
  destruct (median_loop_all _ _ _ ed Hloop Hed) as (m & Hm & Hwt).
  assert (Hne : subset <> []).
  { intros E. unfold wtMedLWoPI in Hwt. fold subset in Hwt.
    rewrite E in Hwt. discriminate Hwt. }
  split; [apply sort_values_perm|]. split; [apply sorted_ratios|].
  destruct (weighted_median_spec subset Hne)
    as (median & total & Hmed & Hlast & Hin & Hbelow & Hcross).
  cbv zeta in Hlast, Hbelow, Hcross.
  fold sorted in Hlast, Hbelow, Hcross. fold weights in Hlast, Hbelow, Hcross.
  fold values in Hbelow, Hcross.
  unfold wtMedLWoPI in Hwt. fold subset in Hwt. rewrite Hmed in Hwt.
  injection Hwt as <-.
  assert (Htot : (total == Qsum weights)%Q) by exact (cumsum_total _ _ Hlast).
  assert (Hvalues : In median values).
  { apply in_map_iff in Hin as (q & <- & Hq). apply in_map.
    apply (Permutation_in _ (Permutation_sym (sort_values_perm _ subset))).
    exact Hq. }
  exists median. split; [exact Hm|]. split; [|split; [|split]].
  - apply in_map_iff in Hin as ([p x] & E & Hin). cbn in E. subst x.
    apply subset_of_In in Hin as (Hp & Hedp & ->). exists p. auto.
  - destruct (col_min values) as [lo|] eqn:Hlo.
    2:{ destruct values; [destruct Hvalues|discriminate]. }
    destruct (col_max values) as [hi|] eqn:Hhi.
    2:{ destruct values; [destruct Hvalues|discriminate]. }
    apply col_min_spec in Hlo as [Hlo1 Hlo2].
    apply col_max_spec in Hhi as [Hhi1 Hhi2].
    rewrite List.Forall_forall in Hlo2, Hhi2.
    exists lo, hi. split; [exact Hlo1|]. split; [exact Hhi1|].
    split; [intros x Hx; split; [apply Hlo2|apply Hhi2]; exact Hx|].
    split; [apply Hlo2|apply Hhi2]; exact Hvalues.
  - intros Hall. apply Hbelow. intros c Hc.
    apply list_elem_of_In, list_elem_of_lookup_1 in Hc as [i Hi].
    rewrite (cumsum_prefix _ _ _ Hi), Htot. apply Hall.
    apply lookup_lt_Some in Hi. rewrite cumsum_length in Hi. exact Hi.
  - intros Hw.
    destruct Hcross as (i & c & Hi & Hc & Hhalf & Hearlier).
    { apply List.Forall_forall. intros [p x] Hpx.
      apply subset_of_In in Hpx as (Hp & Hedp & _). cbn [fst].
      apply Hw; assumption. }
    exists i. split; [exact Hi|]. split.
    + rewrite <- (cumsum_prefix _ _ _ Hc), <- Htot. exact Hhalf.
    + intros j Hj.
      destruct (lookup_lt_is_Some_2 (cumsum weights) j) as [c' Hc'].
      { apply lookup_lt_Some in Hc. lia. }
      rewrite <- (cumsum_prefix _ _ _ Hc'), <- Htot.
      exact (Hearlier j c' Hj Hc').
Qed.

(** C3 on the panel of [raw_panel_example], tier 2: the ratios are 0 and
    3/80 with the weights 9/19 and 10/19, and the median is 3/80, at the
    second position.  And on [panel_negative_weights], where the weights
    of tier 2 are -2 and 1: no running sum reaches half of the total -1,
    and the median is the last ratio, 3/10. *)
Lemma C3_witness :
  (exists out median,
      calculate_statistics_to_lorenz_all
        (calculate_liquid_wealth raw_panel_example false) = inr out
      /\ In (2%Z, median) (Stats.wtMedLWoPI out)
      /\ Qred median = (3 # 80)%Q
      /\ map (fun q => (Qred (snd q), Qred (Panel.edWeight (fst q))))
             (sort_values by_indLWoPI
                (subset_of (calculate_liquid_wealth raw_panel_example false) 2))
         = [(0, 9 # 19); (3 # 80, 10 # 19)]%Q
      /\ map snd
             (sort_values by_indLWoPI
                (subset_of (calculate_liquid_wealth raw_panel_example false) 2))
         !! 1%nat = Some median)
  /\ (exists out median,
        calculate_statistics_to_lorenz_all panel_negative_weights = inr out
        /\ In (2%Z, median) (Stats.wtMedLWoPI out)
        /\ Qred median = (3 # 10)%Q
        /\ last (map snd (sort_values by_indLWoPI
                             (subset_of panel_negative_weights 2)))
           = Some median).
Proof.
  split.
  - destruct (calculate_statistics_to_lorenz_all
                (calculate_liquid_wealth raw_panel_example false))
      as [e|out] eqn:Hrun; [vm_compute in Hrun; discriminate|].
    assert (Hinc : forall p, In p (calculate_liquid_wealth raw_panel_example false) ->
                             Panel.myEd p = 2%Z -> ~ (Panel.permInc p == 0)%Q).
    { intros p Hp _ E.
      assert (Hall : forallb (fun p => negb (Qeq_bool (Panel.permInc p) 0))
                             (calculate_liquid_wealth raw_panel_example false)
                     = true) by (vm_compute; reflexivity).
      rewrite forallb_forall in Hall. specialize (Hall p Hp).
      apply Qeq_bool_iff in E. rewrite E in Hall. discriminate Hall. }
    assert (Hw : forall p, In p (calculate_liquid_wealth raw_panel_example false) ->
                           Panel.myEd p = 2%Z -> (0 <= Panel.edWeight p)%Q).
    { intros p Hp _.
      assert (Hall : forallb (fun p => Qle_bool 0 (Panel.edWeight p))
                             (calculate_liquid_wealth raw_panel_example false)
                     = true) by (vm_compute; reflexivity).
      rewrite forallb_forall in Hall. apply Qle_bool_iff, Hall, Hp. }
    destruct (C3_weighted_median_first_crossing
                (calculate_liquid_wealth raw_panel_example false) out 2 Hrun
                ltac:(right; left; reflexivity) Hinc)
      as (_ & _ & _ & median & Hm & _ & _ & _ & Hcross).
    destruct (Hcross Hw) as (i & Hi & _).
    apply calculate_statistics_to_lorenz_all_inv in Hrun as (_ & Hloop & _).
    pose proof (proj2 (median_loop_inv _ _ _ Hloop) _ _ Hm) as Hwt.
    assert (Hval : option_map Qred
                     (wtMedLWoPI (calculate_liquid_wealth raw_panel_example false) 2)
                   = Some (3 # 80)%Q) by (vm_compute; reflexivity).
    rewrite Hwt in Hval. injection Hval as Hval.
    exists out, median. split; [reflexivity|]. split; [exact Hm|].
    split; [exact Hval|]. split; [vm_compute; reflexivity|].
    assert (Hsecond : option_map Qred
                        (map snd
                           (sort_values by_indLWoPI
                              (subset_of (calculate_liquid_wealth
                                            raw_panel_example false) 2))
                         !! 1%nat)
                      = Some (3 # 80)%Q) by (vm_compute; reflexivity).
    destruct i as [|[|i]].
    + exfalso. assert (Hfirst : option_map Qred
                        (map snd
                           (sort_values by_indLWoPI
                              (subset_of (calculate_liquid_wealth
                                            raw_panel_example false) 2))
                         !! 0%nat)
                      = Some 0%Q) by (vm_compute; reflexivity).
      rewrite Hi in Hfirst. cbn in Hfirst. rewrite Hval in Hfirst.
      discriminate Hfirst.
    + exact Hi.
    + exfalso. apply lookup_lt_Some in Hi. vm_compute in Hi. lia.
  - destruct (calculate_statistics_to_lorenz_all panel_negative_weights)
      as [e|out] eqn:Hrun; [vm_compute in Hrun; discriminate|].
    assert (Hinc : forall p, In p panel_negative_weights ->
                             Panel.myEd p = 2%Z -> ~ (Panel.permInc p == 0)%Q).
    { intros p Hp _ E.
      assert (Hall : forallb (fun p => negb (Qeq_bool (Panel.permInc p) 0))
                             panel_negative_weights = true)
        by (vm_compute; reflexivity).
      rewrite forallb_forall in Hall. specialize (Hall p Hp).
      apply Qeq_bool_iff in E. rewrite E in Hall. discriminate Hall. }
    destruct (C3_weighted_median_first_crossing
                panel_negative_weights out 2 Hrun
                ltac:(right; left; reflexivity) Hinc)
      as (_ & _ & _ & median & Hm & _ & _ & Hfallback & _).
    assert (Hlast : last (map snd (sort_values by_indLWoPI
                                     (subset_of panel_negative_weights 2)))
                    = Some median).
    { apply Hfallback. intros i Hi.
      change (length _) with 2%nat in Hi.
      destruct i as [|[|i]]; [vm_compute; reflexivity|vm_compute; reflexivity|lia]. }
    exists out, median. split; [reflexivity|]. split; [exact Hm|].
    split; [|exact Hlast].
    assert (Hval : option_map Qred
                     (last (map snd (sort_values by_indLWoPI
                                       (subset_of panel_negative_weights 2))))
                   = Some (3 # 10)%Q) by (vm_compute; reflexivity).
    rewrite Hlast in Hval. injection Hval as Hval. exact Hval.
Defined.

(** ** Lorenz bucket readout *)

(** The claim C2 fails in its example: a panel whose households are all in
    one education tier gets no readout at all.  On the four households of
    [panel4], none of them aged 25, the call ends in the KeyError of line
    216, in exact arithmetic and in binary64 alike; and whatever the ages,
    a panel in one tier does not get to the readouts, because two tiers
    are empty and the medians of lines 243-253 come first. *)
Lemma C2_counterexample :
  calculate_statistics_to_lorenz_all (panel4 (A := Q)) = inl Stats.KeyError
  /\ calculate_statistics_to_lorenz_all (panel4 (A := float))
     = inl Stats.KeyError
  /\ forall (df : list (Panel.t Q)) (ed : Z),
       (forall p, In p df -> Panel.myEd p = ed) ->
       exists e, calculate_statistics_to_lorenz_all df = inl e.
Proof.
  split; [vm_compute; reflexivity|]. split; [vm_compute; reflexivity|].
  intros df ed Hone.
  destruct (calculate_statistics_to_lorenz_all df) as [e|out] eqn:Hrun;
    [exists e; reflexivity|exfalso].
  apply calculate_statistics_to_lorenz_all_inv in Hrun as (_ & Hloop & _).
  assert (Hother : exists ed', In ed' [1%Z; 2%Z; 3%Z] /\ ed' <> ed).
  { destruct (Z.eq_dec ed 1%Z) as [->|N].
    - exists 2%Z. split; [right; left; reflexivity|discriminate].
    - exists 1%Z. split; [left; reflexivity|]. intros E. exact (N (eq_sym E)). }
  destruct Hother as (ed' & Hin & Hne).
  destruct (median_loop_all _ _ _ ed' Hloop Hin) as (m & _ & Hm).
  rewrite wtMedLWoPI_empty_group in Hm; [discriminate Hm|].
  intros p Hp E. rewrite (Hone p Hp) in E. exact (Hne (eq_sym E)).
Qed.

(** Rounding to two decimals gives a multiple of 1/100 that is at most
    1/200 away. *)
Lemma round_half_even_close (q : Q) :
  (Qabs (inject_Z (round_half_even q) - q) <= 1 # 2)%Q.
Proof.
  unfold round_half_even.
  pose proof (Qfloor_le q) as L. pose proof (Qlt_floor q) as U.
  set (f := Qfloor q) in *. rewrite inject_Z_plus in U.
  change (inject_Z 1) with 1%Q in U. clearbody f.
  apply Qabs_Qle_condition.
  destruct (Qcompare_spec (q - inject_Z f) (1 # 2)) as [E|E|E];
    [destruct (Z.even f)| |];
    rewrite ?inject_Z_plus; change (inject_Z 1) with 1%Q; split; lra.
Qed.

Lemma round2_spec (x : Q) :
  (exists z : Z, (round2 x == inject_Z z / 100)%Q)
  /\ (Qabs (round2 x - x) <= 1 # 200)%Q.
Proof.
  change (@round2 Q Num_Q) with
    (fun x : Q => (inject_Z (round_half_even (x * 100)) / 100)%Q). cbv beta.
  split; [eexists; reflexivity|].
  pose proof (round_half_even_close (x * 100)) as Hc.
  apply Qabs_Qle_condition in Hc as [Hlo Hhi]. apply Qabs_Qle_condition.
  set (z := inject_Z (round_half_even (x * 100))) in *. clearbody z.
  assert (Ed : (z / 100 == z * (1 # 100))%Q) by (unfold Qdiv; reflexivity).
  rewrite Ed. split; lra.
Qed.

(** The readout of lines 282-283 at one threshold. *)
Lemma readout_spec (lorenz : list (Lorenz.t Q)) (pct : Q) :
  match option_map round2 (wealth_share lorenz pct) with
  | None => forall r, In r lorenz -> ~ (Lorenz.sumNormW r < pct)%Q
  | Some v =>
      exists m,
        (exists r, In r lorenz /\ (Lorenz.sumNormW r < pct)%Q
                   /\ Lorenz.sumLWall r = m)
        /\ (forall r, In r lorenz -> (Lorenz.sumNormW r < pct)%Q ->
                      (Lorenz.sumLWall r <= m)%Q)
        /\ (exists z : Z, (v == inject_Z z / 100)%Q)
        /\ (Qabs (v - m) <= 1 # 200)%Q
  end.
Proof.
  pose proof (wealth_share_rule lorenz pct) as Hrule.
  destruct (wealth_share lorenz pct) as [m|]; cbn [option_map]; [|exact Hrule].
  exists m. destruct Hrule as [Hex Hmax]. destruct (round2_spec m) as [Hz Hd].
  auto.
Qed.

(** C2, amended.  When the call of [calculate_statistics] gets to the
    readouts, which it does only on a panel with a household aged 25 and a
    household in each of the three education tiers, the results dictionary
    holds the readouts at 20, 40, 60 and 80.  The readout at a threshold
    is the largest cumulative wealth share among the rows whose cumulative
    population share is strictly below the threshold, with no
    interpolation, rounded to two decimals (a multiple of 1/100 at most
    1/200 away), and there is no readout when no row is below it.  On
    the panel of weights 1, 1, 1, 1 and wealth 0, 10, 20, 70 in three
    tiers the Lorenz points are (25, 0), (50, 10), (75, 30), (100, 100),
    the readout at 80 is 30, the wealth share at the 75% point, and the
    readouts at 20, 40 and 60 are none, 0 and 10, in exact arithmetic and
    in binary64 alike.  On the panel of [raw_panel_example] the readouts
    are none, 0.59, 0.59 and 8.24 (206/25).  On [panel5_three_tiers],
    whose Lorenz points (20, 0), (40, 10), (60, 30), (80, 60), (100, 100)
    sit at the thresholds, each readout is the share of the point before
    the threshold: none, 0, 10 and 30, in binary64 as well. *)
Theorem C2_lorenz_readout_is_step_lookup
    (df : list (Panel.t Q)) (out : Stats.t Q) :
  calculate_statistics_to_lorenz_all df = inr out ->
  ((exists p, In p df /\ In (Panel.myEd p) [1%Z; 2%Z; 3%Z]
              /\ (HH.age (Panel.hh p) == 25)%Q)
   /\ forall ed, In ed [1%Z; 2%Z; 3%Z] -> exists p, In p df /\ Panel.myEd p = ed)
  /\ map fst (Stats.lorenz_points out)
     = ["LC_all_20"; "LC_all_40"; "LC_all_60"; "LC_all_80"]
  /\ (forall (key : string) (pct : Q),
        In (key, pct) [ ("LC_all_20", 20%Q); ("LC_all_40", 40%Q);
                        ("LC_all_60", 60%Q); ("LC_all_80", 80%Q) ] ->
        exists readout : option Q,
          In (key, readout) (Stats.lorenz_points out)
          /\ match readout with
             | None => forall r, In r (Stats.lorenz_all out) ->
                                 ~ (Lorenz.sumNormW r < pct)%Q
             | Some v =>
                 exists m,
                   (exists r, In r (Stats.lorenz_all out)
                              /\ (Lorenz.sumNormW r < pct)%Q
                              /\ Lorenz.sumLWall r = m)
                   /\ (forall r, In r (Stats.lorenz_all out) ->
                                 (Lorenz.sumNormW r < pct)%Q ->
                                 (Lorenz.sumLWall r <= m)%Q)
                   /\ (exists z : Z, (v == inject_Z z / 100)%Q)
                   /\ (Qabs (v - m) <= 1 # 200)%Q
             end)
  /\ match calculate_statistics_to_lorenz_all (panel4_three_tiers (A := Q)) with
     | inr ex =>
         map (fun r => (Qred (Lorenz.sumNormW r), Qred (Lorenz.sumLWall r)))
             (Stats.lorenz_all ex)
         = [ (25, 0); (50, 10); (75, 30); (100, 100) ]%Q
         /\ map (fun kv => (fst kv, option_map Qred (snd kv)))
                (Stats.lorenz_points ex)
            = [ ("LC_all_20", None); ("LC_all_40", Some 0%Q);
                ("LC_all_60", Some 10%Q); ("LC_all_80", Some 30%Q) ]
     | inl _ => False
     end
  /\ match calculate_statistics_to_lorenz_all (panel4_three_tiers (A := float)) with
     | inr ex =>
         Stats.lorenz_points ex
         = [ ("LC_all_20", None); ("LC_all_40", Some (float_of_Z 0));
             ("LC_all_60", Some (float_of_Z 10));
             ("LC_all_80", Some (float_of_Z 30)) ]
     | inl _ => False
     end
  /\ match calculate_statistics_to_lorenz_all
             (calculate_liquid_wealth raw_panel_example false) with
     | inr ex =>
         map (fun kv => (fst kv, option_map Qred (snd kv)))
             (Stats.lorenz_points ex)
         = [ ("LC_all_20", None); ("LC_all_40", Some 0.59%Q);
             ("LC_all_60", Some 0.59%Q); ("LC_all_80", Some (206 # 25)%Q) ]
     | inl _ => False
     end
  /\ match calculate_statistics_to_lorenz_all (panel5_three_tiers (A := Q)) with
     | inr ex =>
         map (fun r => (Qred (Lorenz.sumNormW r), Qred (Lorenz.sumLWall r)))
             (Stats.lorenz_all ex)
         = [ (20, 0); (40, 10); (60, 30); (80, 60); (100, 100) ]%Q
         /\ map (fun kv => (fst kv, option_map Qred (snd kv)))
                (Stats.lorenz_points ex)
            = [ ("LC_all_20", None); ("LC_all_40", Some 0%Q);
                ("LC_all_60", Some 10%Q); ("LC_all_80", Some 30%Q) ]
     | inl _ => False
     end
  /\ match calculate_statistics_to_lorenz_all (panel5_three_tiers (A := float)) with
     | inr ex =>
         Stats.lorenz_points ex
         = [ ("LC_all_20", None); ("LC_all_40", Some (float_of_Z 0));
             ("LC_all_60", Some (float_of_Z 10));
             ("LC_all_80", Some (float_of_Z 30)) ]
     | inl _ => False
     end.
Proof.
  intros Hrun.
  split; [exact (calculate_statistics_to_lorenz_all_needs df out Hrun)|].
  apply calculate_statistics_to_lorenz_all_inv in Hrun as (_ & _ & -> & ->).
  split; [reflexivity|]. split.
  - intros key pct Hin.
    exists (option_map round2 (wealth_share (lorenz_all df) pct)).
    split; [|apply readout_spec].
    unfold lorenz_points. cbn [map fst snd].
    change (@of_Q Q Num_Q) with (fun q : Q => q). cbv beta.
    destruct Hin as [E|[E|[E|[E|[]]]]]; injection E as <- <-;
      [left|right; left|right; right; left|right; right; right; left];
      reflexivity.
  - split; [vm_compute; split; reflexivity|].
    split; [vm_compute; reflexivity|]. split; [vm_compute; reflexivity|].
    split; [vm_compute; split; reflexivity|vm_compute; reflexivity].
Qed.

(** C2 at the threshold 80 of the four-household panel in three tiers:
    the readout is 30. *)
Lemma C2_witness :
  exists out,
    calculate_statistics_to_lorenz_all (panel4_three_tiers (A := Q)) = inr out
    /\ map (fun kv => (fst kv, option_map Qred (snd kv)))
           (Stats.lorenz_points out)
       = [ ("LC_all_20", None); ("LC_all_40", Some 0%Q);
           ("LC_all_60", Some 10%Q); ("LC_all_80", Some 30%Q) ]
    /\ exists readout : option Q,
         In ("LC_all_80", readout) (Stats.lorenz_points out)
         /\ match readout with
            | None => forall r, In r (Stats.lorenz_all out) ->
                                ~ (Lorenz.sumNormW r < 80)%Q
            | Some v =>
                exists m,
                  (exists r, In r (Stats.lorenz_all out)
                             /\ (Lorenz.sumNormW r < 80)%Q
                             /\ Lorenz.sumLWall r = m)
                  /\ (forall r, In r (Stats.lorenz_all out) ->
                                (Lorenz.sumNormW r < 80)%Q ->
                                (Lorenz.sumLWall r <= m)%Q)
                  /\ (exists z : Z, (v == inject_Z z / 100)%Q)
                  /\ (Qabs (v - m) <= 1 # 200)%Q
            end.
Proof.
  destruct (calculate_statistics_to_lorenz_all (panel4_three_tiers (A := Q)))
    as [e|out] eqn:Hrun; [vm_compute in Hrun; discriminate|].
  exists out. split; [reflexivity|].
  destruct (C2_lorenz_readout_is_step_lookup panel4_three_tiers out Hrun)
    as (_ & _ & Hrule & _).
  split.
  - apply calculate_statistics_to_lorenz_all_inv in Hrun as (_ & _ & -> & _).
    vm_compute. reflexivity.
  - apply (Hrule "LC_all_80" 80%Q). right. right. right. left. reflexivity.
Defined.

(** ** Lorenz curve of all households *)

(** The claim C6 fails on a panel without any liquid wealth, on a panel
    with a negative weight, and on a panel for which the call does not get
    to the Lorenz table.  The three households of [raw_no_wealth] pass the
    validity filter with liquid wealth 0; the call gets to the Lorenz table,
    the total weighted wealth is 0, and the column of cumulative wealth
    shares does not end at 100: in binary64 its entries are the NaN of 0/0,
    which is not even equal to itself.  In [raw_negative_weight] the
    household with the third-lowest wealth has a negative weight, and both
    columns fall at its row: the table is (500/13, 0), (1000/13, 125/4),
    (800/13, 25/4), (100, 100).  The panel of [raw_example] is household 8
    alone, with positive weight and liquid wealth 850, aged 30: there is
    no Lorenz table, the call ends in the KeyError of line 216. *)
Lemma C6_counterexample :
  map (fun p => (Panel.yy1 p, Qred (Panel.liqWealth p)))
      (calculate_liquid_wealth raw_example false) = [(8%Z, 850%Q)]
  /\ calculate_statistics_to_lorenz_all (calculate_liquid_wealth raw_example false)
     = inl Stats.KeyError
  /\ map (fun p => Qred (Panel.liqWealth p))
      (calculate_liquid_wealth (raw_no_wealth (A := Q)) false)
  = [0%Q; 0%Q; 0%Q]
  /\ match calculate_statistics_to_lorenz_all
             (calculate_liquid_wealth (raw_no_wealth (A := Q)) false) with
     | inr out =>
         option_map Qred (last (map Lorenz.sumLWall (Stats.lorenz_all out)))
         = Some 0%Q
     | inl _ => False
     end
  /\ match calculate_statistics_to_lorenz_all
             (calculate_liquid_wealth (raw_no_wealth (A := float)) false) with
     | inr out =>
         match last (map Lorenz.sumLWall (Stats.lorenz_all out)) with
         | Some s => PrimFloat.eqb s s = false
                     /\ PrimFloat.eqb s (float_of_Z 100) = false
         | None => False
         end
     | inl _ => False
     end
  /\ match calculate_statistics_to_lorenz_all
             (calculate_liquid_wealth (raw_negative_weight (A := Q)) false) with
     | inr out =>
         map (fun r => (Lorenz.yy1 r, Qred (Lorenz.sumNormW r),
                        Qred (Lorenz.sumLWall r)))
             (Stats.lorenz_all out)
         = [ (1%Z, 500 # 13, 0); (2%Z, 1000 # 13, 125 # 4);
             (3%Z, 800 # 13, 25 # 4); (4%Z, 100, 100) ]%Q
     | inl _ => False
     end
  /\ match calculate_statistics_to_lorenz_all
             (calculate_liquid_wealth (raw_negative_weight (A := float)) false) with
     | inr out =>
         match Stats.lorenz_all out with
         | [_; r2; r3; _] =>
             PrimFloat.ltb (Lorenz.sumNormW r3) (Lorenz.sumNormW r2) = true
             /\ PrimFloat.ltb (Lorenz.sumLWall r3) (Lorenz.sumLWall r2) = true
         | _ => False
         end
     | inl _ => False
     end.
Proof.
  split; [vm_compute; reflexivity|]. split; [vm_compute; reflexivity|].
  split; [vm_compute; reflexivity|]. split; [vm_compute; reflexivity|].
  split; [vm_compute; split; reflexivity|]. split; [vm_compute; reflexivity|].
  vm_compute. split; reflexivity.
Qed.

(** C6, amended.  For the panel made from raw rows with positive sample
    weights, in which some household has positive liquid wealth (none has
    negative liquid wealth, by the validity filter), when the call of
    [calculate_statistics] gets to the Lorenz table, which it does only on
    a panel with a household aged 25 and a household in each of the three
    education tiers: the table lists the
    households in ascending order of liquid wealth, its column of
    cumulative population shares and its column of cumulative wealth shares
    are both non-decreasing down the table, and the last entry of each
    is 100. *)
Theorem C6_lorenz_columns_nondecreasing_end_at_100
    (df : list (Raw.t Q)) (include_installment : bool) (out : Stats.t Q) :
  Forall (fun r => (0 < Raw.wgt r)%Q) df ->
  (exists p, In p (calculate_liquid_wealth df include_installment)
             /\ (0 < Panel.liqWealth p)%Q) ->
  calculate_statistics_to_lorenz_all
    (calculate_liquid_wealth df include_installment) = inr out ->
  ((exists p, In p (calculate_liquid_wealth df include_installment)
              /\ In (Panel.myEd p) [1%Z; 2%Z; 3%Z]
              /\ (HH.age (Panel.hh p) == 25)%Q)
   /\ forall ed, In ed [1%Z; 2%Z; 3%Z] ->
        exists p, In p (calculate_liquid_wealth df include_installment)
                  /\ Panel.myEd p = ed)
  /\ Forall (fun p => (0 <= Panel.liqWealth p)%Q)
         (calculate_liquid_wealth df include_installment)
  /\ (map Lorenz.yy1 (Stats.lorenz_all out)
      = map Panel.yy1
            (sort_values by_liqWealth_yy1
               (calculate_liquid_wealth df include_installment))
      /\ StronglySorted
           (fun a b => (Panel.liqWealth a <= Panel.liqWealth b)%Q)
           (sort_values by_liqWealth_yy1
              (calculate_liquid_wealth df include_installment)))
  /\ (Sorted Qle (map Lorenz.sumNormW (Stats.lorenz_all out))
      /\ exists s, last (map Lorenz.sumNormW (Stats.lorenz_all out)) = Some s
                   /\ (s == 100)%Q)
  /\ (Sorted Qle (map Lorenz.sumLWall (Stats.lorenz_all out))
      /\ exists s, last (map Lorenz.sumLWall (Stats.lorenz_all out)) = Some s
                   /\ (s == 100)%Q).
Proof.
  intros Hpos (p & Hp & Hlw) Hrun.
  split; [exact (calculate_statistics_to_lorenz_all_needs _ out Hrun)|].
  apply calculate_statistics_to_lorenz_all_inv in Hrun as (_ & _ & _ & ->).
  assert (Hsel := selected_weights_pos df include_installment Hpos).
  assert (Hnonneg : Forall (fun p => (0 <= Panel.liqWealth p)%Q)
                           (calculate_liquid_wealth df include_installment)).
  { apply List.Forall_forall. intros x Hx.
    apply calculate_liquid_wealth_In in Hx as (_ & _ & Hx).
    apply leb_Q_le in Hx. exact Hx. }
  assert (Hnw : forall x, In x (calculate_liquid_wealth df include_installment) ->
                          (0 < Panel.normweight x)%Q).
  { intros x Hx. exact (reweight_normweight_pos _ x Hsel Hx). }
  split; [exact Hnonneg|].
  split.
  { split; [apply lorenz_all_columns|apply sorted_by_liqWealth]. }
  apply lorenz_all_shares.
  - apply List.Forall_forall. intros x Hx. apply Qlt_le_weak, Hnw, Hx.
  - apply reweight_sums; [exact Hsel|]. intros E.
    unfold calculate_liquid_wealth in Hp. rewrite E in Hp. destruct Hp.
  - exact Hnonneg.
  - apply col_sum_pos_exists.
    + apply List.Forall_forall. intros w Hw.
      apply in_map_iff in Hw as (x & <- & Hx).
      rewrite List.Forall_forall in Hnonneg.
      apply Qmult_le_0_compat; [apply Qlt_le_weak, Hnw, Hx|apply Hnonneg, Hx].
    + exists (Panel.normweight p * Panel.liqWealth p)%Q. split.
      * apply (in_map (fun p => (Panel.normweight p * Panel.liqWealth p)%Q)).
        exact Hp.
      * apply Qmult_lt_0_compat; [apply Hnw, Hp|exact Hlw].
Qed.

(** C6 on [raw_panel_example], whose panel has the three education tiers
    and a household aged 25. *)
Lemma C6_witness :
  Forall (fun r => (0 < Raw.wgt r)%Q) raw_panel_example
  /\ (exists p, In p (calculate_liquid_wealth raw_panel_example false)
                /\ (0 < Panel.liqWealth p)%Q)
  /\ exists out,
       calculate_statistics_to_lorenz_all
         (calculate_liquid_wealth raw_panel_example false) = inr out
       /\ Sorted Qle (map Lorenz.sumNormW (Stats.lorenz_all out))
       /\ Sorted Qle (map Lorenz.sumLWall (Stats.lorenz_all out))
       /\ map (fun r => (Qred (Lorenz.sumNormW r), Qred (Lorenz.sumLWall r)))
              (Stats.lorenz_all out)
          = [ (1800 # 79, 0); (2900 # 79, 7700 # 13077);
              (4900 # 79, 35900 # 4359); (100, 100) ]%Q.
Proof.
  assert (Hpos : Forall (fun r => (0 < Raw.wgt r)%Q) raw_panel_example)
    by (repeat constructor).
  assert (Hex : exists p, In p (calculate_liquid_wealth raw_panel_example false)
                          /\ (0 < Panel.liqWealth p)%Q).
  { exists (nth 0 (calculate_liquid_wealth raw_panel_example false)
                (Panel.mk (HH.mk 0 0 0 0 0 0 0) 0 0 0 0)%Q).
    split; [apply nth_In; vm_compute; lia|vm_compute; reflexivity]. }
  split; [exact Hpos|]. split; [exact Hex|].
  destruct (calculate_statistics_to_lorenz_all
              (calculate_liquid_wealth raw_panel_example false))
    as [e|out] eqn:Hrun; [vm_compute in Hrun; discriminate|].
  exists out. split; [reflexivity|].
  pose proof (C6_lorenz_columns_nondecreasing_end_at_100
                raw_panel_example false out Hpos Hex Hrun)
    as (_ & _ & _ & (H1 & _) & (H2 & _)).
  split; [exact H1|]. split; [exact H2|].
  apply calculate_statistics_to_lorenz_all_inv in Hrun as (_ & _ & _ & ->).
  vm_compute. reflexivity.
Defined.

(** ** Lower-tail trimming *)

(** The claim C1 fails in its example: of a hundred households with equal
    weights and distinct incomes the four with the lowest incomes are
    removed, not five, in exact arithmetic and in binary64 alike: the
    running sum reaches 0.05 at the fifth household, which [>= 0.05]
    keeps. *)
Lemma C1_counterexample :
  map HH.yy1 (drop_lowest_income (hh100 (A := Q))) = map Z.of_nat (seq 5 96)
  /\ map HH.yy1 (drop_lowest_income (hh100 (A := float))) = map Z.of_nat (seq 5 96)
  /\ (length (hh100 (A := Q)) - length (drop_lowest_income (hh100 (A := Q))) <> 5)%nat
  /\ In 5%Z (map HH.yy1 (drop_lowest_income (hh100 (A := Q)))).
Proof.
  assert (E : map HH.yy1 (drop_lowest_income (hh100 (A := Q)))
              = map Z.of_nat (seq 5 96)) by (vm_compute; reflexivity).
  split; [exact E|]. split; [vm_compute; reflexivity|]. split.
  - rewrite <- (length_map HH.yy1 (drop_lowest_income _)), E.
    vm_compute. discriminate.
  - rewrite E. vm_compute. auto.
Qed.

Section Trimming.
Local Open Scope Q_scope.

Lemma by_permInc_total (a b : HH.t Q * Q) :
  by_permInc a b = false -> by_permInc b a = true.
Proof.
  unfold by_permInc. intros E. apply leb_Q_gt in E.
  apply leb_Q_le, Qlt_le_weak. exact E.
Qed.

(** The two halves of the table of lines 126-130. *)
Lemma with_sumW_columns (df : list (HH.t Q)) :
  let total_weight := col_sum (map HH.weight df) in
  let sorted :=
    sort_values by_permInc (map (fun h => (h, HH.weight h / total_weight)) df) in
  map fst (with_sumW df) = sorted
  /\ map snd (with_sumW df) = cumsum (map snd sorted)
  /\ length (with_sumW df) = length df.
Proof.
  intros total_weight sorted. unfold with_sumW. fold total_weight.
  unfold_num. fold sorted.
  assert (Hlen : length sorted = length (cumsum (map snd sorted)))
    by (rewrite cumsum_length, length_map; reflexivity).
  split; [apply combine_fst; exact Hlen|].
  split; [apply combine_snd; exact Hlen|].
  rewrite length_combine, <- Hlen, Nat.min_id.
  unfold sorted. rewrite sort_values_length, length_map. reflexivity.
Qed.

Lemma col_sum_all_eq (l : list Q) (c : Q) :
  Forall (fun x => x == c) l ->
  col_sum l == inject_Z (Z.of_nat (length l)) * c.
Proof.
  induction 1 as [|x l Hx _ IH].
  - rewrite col_sum_nil. cbn. ring.
  - rewrite col_sum_cons, IH, Hx. cbn [length].
    rewrite Nat2Z.inj_succ. unfold Z.succ. rewrite inject_Z_plus. ring.
Qed.

(** A mask that is false on the first [k] rows and true from row [k] on
    drops exactly the first [k] rows. *)
Lemma filter_from_index {X : Type} (f : X -> bool) (l : list X) (k : nat) :
  (forall i x, l !! i = Some x -> f x = (k <=? i)%nat) ->
  List.filter f l = skipn k l.
Proof.
  revert k. induction l as [|x l IH]; intros k Hf.
  - destruct k; reflexivity.
  - cbn [List.filter]. rewrite (Hf 0%nat x eq_refl). destruct k as [|k].
    + cbn. f_equal. apply (IH 0%nat). intros i y Hy.
      rewrite (Hf (S i) y Hy). reflexivity.
    + cbn. apply IH. intros i y Hy. rewrite (Hf (S i) y Hy). reflexivity.
Qed.
End Trimming.

Section TrimmingRule.
Local Open Scope Q_scope.

Lemma lookup_map {X Y : Type} (f : X -> Y) (l : list X) (i : nat) :
  map f l !! i = option_map f (l !! i).
Proof.
  revert i. induction l as [|x l IH]; intros [|i]; cbn; try reflexivity.
  apply IH.
Qed.

Lemma StronglySorted_app_le {X : Type} (R : X -> X -> Prop) (l1 l2 : list X) :
  StronglySorted R (l1 ++ l2) ->
  forall a b, In a l1 -> In b l2 -> R a b.
Proof.
  induction l1 as [|x l1 IH]; intros Hs a b Ha Hb; [destruct Ha|].
  cbn in Hs. apply StronglySorted_inv in Hs as [Hs Hall].
  destruct Ha as [->|Ha].
  - rewrite List.Forall_forall in Hall. apply Hall, in_or_app. right. exact Hb.
  - apply IH; assumption.
Qed.

Lemma sorted_by_permInc (l : list (HH.t Q * Q)) :
  StronglySorted (fun a b => HH.permInc a <= HH.permInc b)
                 (map fst (sort_values by_permInc l)).
Proof.
  pose proof (sort_values_ordered by_permInc l by_permInc_total) as Hs.
  unfold ordered in Hs. apply Sorted_StronglySorted.
  - intros x y z. apply Qle_trans.
  - induction Hs as [|x t _ IH Hhd]; cbn; constructor; [exact IH|].
    destruct Hhd as [|y t E]; cbn; constructor. apply leb_Q_le. exact E.
Qed.

(** With a hundred equal weights the [i]-th running sum of normalized
    weight is [(i + 1) / 100], so the mask [sumW >= 0.05] is false on the
    rows 0..3 and true from row 4 on. *)
Lemma uniform_mask (df : list (HH.t Q)) (w : Q) (i : nat)
    (r : HH.t Q * Q * Q) :
  length df = 100%nat -> 0 < w ->
  (forall h, In h df -> HH.weight h == w) ->
  with_sumW df !! i = Some r ->
  leb (of_Q 0.05) (snd r) = (4 <=? i)%nat.
Proof.
  intros Hlen Hw Hall Hr.
  destruct (with_sumW_columns df) as (E1 & E2 & E3). cbn zeta in E1, E2.
  set (total_weight := col_sum (map HH.weight df)) in *.
  set (sorted := sort_values by_permInc _) in *.
  assert (Htot : total_weight == 100 * w).
  { unfold total_weight. rewrite (col_sum_all_eq _ w).
    - rewrite length_map, Hlen. reflexivity.
    - apply List.Forall_forall. intros x Hx.
      apply in_map_iff in Hx as (h & <- & Hh). exact (Hall h Hh). }
  assert (Hnw : Forall (fun x => x == 1 # 100) (map snd sorted)).
  { apply List.Forall_forall. intros x Hx.
    apply in_map_iff in Hx as ([h nw] & <- & Hin). cbn [snd].
    apply sort_values_In, in_map_iff in Hin as (h' & E & Hh).
    injection E as -> <-. rewrite (Hall h Hh), Htot. field. lra. }
  assert (Hi : (i < 100)%nat).
  { apply lookup_lt_Some in Hr. rewrite E3, Hlen in Hr. exact Hr. }
  assert (Hs : snd r == inject_Z (Z.of_nat (S i)) * (1 # 100)).
  { assert (Hc : cumsum (map snd sorted) !! i = Some (snd r)).
    { rewrite <- E2, lookup_map, Hr. reflexivity. }
    apply cumsum_lookup in Hc. rewrite Hc.
    rewrite (col_sum_all_eq _ (1 # 100)).
    - rewrite length_firstn, length_map. unfold sorted.
      rewrite sort_values_length, length_map, Hlen.
      rewrite Nat.min_l by lia. reflexivity.
    - apply List.Forall_forall. intros x Hx. rewrite List.Forall_forall in Hnw.
      apply Hnw. rewrite <- (firstn_skipn (S i) (map snd sorted)).
      apply in_or_app. left. exact Hx. }
  destruct (Nat.leb_spec 4 i) as [L|L].
  - apply leb_Q_le. rewrite Hs. unfold_num.
    assert (5 <= inject_Z (Z.of_nat (S i))).
    { change 5 with (inject_Z 5). rewrite <- Zle_Qle. lia. }
    lra.
  - apply leb_Q_gt. rewrite Hs. unfold_num.
    assert (inject_Z (Z.of_nat (S i)) <= 4).
    { change 4 with (inject_Z 4). rewrite <- Zle_Qle. lia. }
    lra.
Qed.
End TrimmingRule.

(** C1, amended.  The table of lines 126-130 is the households in
    ascending order of permanent income, each with its normalized weight
    and the running sum of the normalized weights down to it; a household
    is dropped when that running sum is below 0.05 and retained otherwise.
    For a hundred households of one positive weight the first four of the
    income order are removed and the other ninety-six stay: the running sum
    at the fifth is 0.05, which is not below 0.05. *)
Theorem C1_trimming_drops_running_weight_below_5_percent
    (df : list (HH.t Q)) :
  let total_weight := col_sum (map HH.weight df) in
  let rows := with_sumW df in
  let sorted := map (fun r => fst (fst r)) rows in
  Permutation sorted df
  /\ StronglySorted (fun a b => (HH.permInc a <= HH.permInc b)%Q) sorted
  /\ (forall i h nw s, rows !! i = Some (h, nw, s) ->
        nw = (HH.weight h / total_weight)%Q
        /\ (s == col_sum (map (fun r => snd (fst r)) (firstn (S i) rows)))%Q)
  /\ drop_lowest_income df
     = map (fun r => fst (fst r))
           (List.filter (fun r => negb (ltb (snd r) 0.05%Q)) rows)
  /\ (forall w : Q,
        length df = 100%nat -> (0 < w)%Q ->
        (forall h, In h df -> (HH.weight h == w)%Q) ->
        drop_lowest_income df = skipn 4 sorted
        /\ length (firstn 4 sorted) = 4%nat
        /\ length (drop_lowest_income df) = 96%nat
        /\ forall a b, In a (firstn 4 sorted) -> In b (drop_lowest_income df) ->
                       (HH.permInc a <= HH.permInc b)%Q).
Proof.
  intros total_weight rows sorted.
  destruct (with_sumW_columns df) as (E1 & E2 & E3). cbn zeta in E1, E2.
  fold total_weight in E1, E2. fold rows in E1, E2, E3.
  set (pairs := sort_values by_permInc _) in *.
  assert (Es : sorted = map fst pairs).
  { unfold sorted. rewrite <- E1, map_map. reflexivity. }
  assert (Hsorted : StronglySorted (fun a b => (HH.permInc a <= HH.permInc b)%Q)
                                   sorted).
  { rewrite Es. apply sorted_by_permInc. }
  assert (Hdrop : drop_lowest_income df
                  = map (fun r => fst (fst r))
                        (List.filter (fun r => leb (of_Q 0.05%Q) (snd r)) rows))
    by reflexivity.
  split; [|split; [exact Hsorted|split; [|split]]].
  - rewrite Es. unfold pairs. rewrite sort_values_perm, map_map. cbn [fst].
    rewrite map_id. reflexivity.
  - intros i h nw s Hr. split.
    + assert (Hin : In (h, nw) pairs).
      { rewrite <- E1. apply (in_map fst rows (h, nw, s)).
        apply list_elem_of_In. eapply list_elem_of_lookup_2. exact Hr. }
      apply sort_values_In, in_map_iff in Hin as (h' & E & _).
      injection E as -> <-. reflexivity.
    + assert (Hc : cumsum (map snd pairs) !! i = Some s).
      { rewrite <- E2, lookup_map, Hr. reflexivity. }
      apply cumsum_lookup in Hc. rewrite Hc, <- E1, map_map, <- firstn_map.
      reflexivity.
  - rewrite Hdrop. f_equal. apply filter_ext. intros r.
    unfold ltb, leb, of_Q, Num_Q. rewrite negb_involutive. reflexivity.
  - intros w Hlen Hw Hall.
    assert (Hskip : drop_lowest_income df = skipn 4 sorted).
    { rewrite Hdrop, (filter_from_index _ rows 4).
      - unfold sorted. rewrite skipn_map. reflexivity.
      - intros i r Hr. apply (uniform_mask df w); assumption. }
    assert (Hlen' : length sorted = 100%nat).
    { unfold sorted. rewrite length_map, E3. exact Hlen. }
    split; [exact Hskip|]. split; [|split].
    + rewrite length_firstn, Hlen'. reflexivity.
    + rewrite Hskip, length_skipn, Hlen'. reflexivity.
    + rewrite Hskip. apply StronglySorted_app_le.
      rewrite firstn_skipn. exact Hsorted.
Qed.

(** C1 on [hh100]: households 1 to 4 are removed, 5 to 100 stay. *)
Lemma C1_witness :
  length (hh100 (A := Q)) = 100%nat
  /\ (forall h, In h (hh100 (A := Q)) -> (HH.weight h == 1)%Q)
  /\ drop_lowest_income (hh100 (A := Q))
     = skipn 4 (map (fun r => fst (fst r)) (with_sumW (hh100 (A := Q))))
  /\ length (drop_lowest_income (hh100 (A := Q))) = 96%nat
  /\ map HH.yy1 (firstn 4 (map (fun r => fst (fst r)) (with_sumW (hh100 (A := Q)))))
     = [1; 2; 3; 4]%Z.
Proof.
  assert (Hlen : length (hh100 (A := Q)) = 100%nat) by reflexivity.
  assert (Hall : forall h, In h (hh100 (A := Q)) -> (HH.weight h == 1)%Q).
  { intros h Hin. unfold hh100 in Hin.
    apply in_map_iff in Hin as (i & <- & _). reflexivity. }
  destruct (C1_trimming_drops_running_weight_below_5_percent (hh100 (A := Q)))
    as (_ & _ & _ & _ & Hscenario).
  destruct (Hscenario 1%Q Hlen eq_refl Hall) as (Hskip & _ & H96 & _).
  split; [exact Hlen|]. split; [exact Hall|]. split; [exact Hskip|].
  split; [exact H96|]. vm_compute. reflexivity.
Defined.

(** * Further properties of the pipeline *)

(** ** Age smoothing and sample selection *)

Section MergeAndFilterFacts.
Context {A : Type} `{Num A}.

Lemma set_age_keys (v : A) (r : Raw.t A) :
  Raw.yy1 (Raw.set_age v r) = Raw.yy1 r
  /\ Raw.y1 (Raw.set_age v r) = Raw.y1 r
  /\ Raw.norminc (Raw.set_age v r) = Raw.norminc r
  /\ Raw.age (Raw.set_age v r) = v.
Proof. repeat split. Qed.

(** The mean of a group depends on the row only through its key. *)
Lemma transform_mean_same_key {R : Type} (key : R -> Z) (col : R -> A)
    (df : list R) (r1 r2 : R) :
  key r1 = key r2 -> transform_mean key col df r1 = transform_mean key col df r2.
Proof. intros E. unfold transform_mean, group_of. rewrite E. reflexivity. Qed.

Lemma merge_and_filter_In (df : list (Raw.t A)) (ccbal_df : list Aux.t)
    (r : Raw.t A) :
  In r (merge_and_filter df ccbal_df) ->
  exists r0, In r0 (merge_ccbal df ccbal_df)
    /\ r = Raw.set_age
             (transform_mean Raw.yy1 Raw.age (merge_ccbal df ccbal_df) r0) r0
    /\ leb (of_Q 25) (Raw.age r) = true /\ leb (Raw.age r) (of_Q 62) = true
    /\ leb (of_Q 0) (Raw.norminc r) = true.
Proof.
  unfold merge_and_filter. intros Hin.
  apply filter_In in Hin as [Hin Hinc]. apply filter_In in Hin as [Hin Hage].
  apply andb_true_iff in Hage as [H25 H62].
  apply in_map_iff in Hin as (r0 & <- & Hr0). exists r0. auto.
Qed.
End MergeAndFilterFacts.

(** ** The SCF keys along the pipeline *)

Section KeysFacts.
Context {A : Type} `{Num A}.

Lemma corrected_rows_keys (ccbal_df : list Aux.t) (r r' : Raw.t A) :
  In r' (corrected_rows ccbal_df r) ->
  Raw.yy1 r' = Raw.yy1 r /\ Raw.y1 r' = Raw.y1 r
  /\ Raw.norminc r' = Raw.norminc r /\ Raw.wgt r' = Raw.wgt r.
Proof.
  unfold corrected_rows.
  destruct (List.filter _ ccbal_df) as [|a l].
  - intros [<-|[]]. auto.
  - intros Hin. apply in_map_iff in Hin as (b & <- & _).
    destruct (Aux.x432 b =? 1)%Z; auto.
Qed.

(** With one answer per implicate the merge keeps the rows one for one. *)
Lemma merge_ccbal_keys (df : list (Raw.t A)) (ccbal_df : list Aux.t) :
  List.NoDup (map Aux.y1 ccbal_df) ->
  map Raw.y1 (merge_ccbal df ccbal_df) = map Raw.y1 df
  /\ map Raw.yy1 (merge_ccbal df ccbal_df) = map Raw.yy1 df.
Proof.
  intros Hnd. rewrite merge_ccbal_flat_map.
  induction df as [|r df [IH1 IH2]]; [split; reflexivity|].
  cbn [flat_map map]. rewrite !map_app, IH1, IH2.
  unfold corrected_rows.
  rewrite (filter_key_at_most_one ccbal_df (Raw.y1 r) Hnd).
  destruct (List.find _ ccbal_df) as [a|]; cbn;
    [destruct (Aux.x432 a =? 1)%Z|]; split; reflexivity.
Qed.

End KeysFacts.

(** X2.  When the answer table has one row per implicate, [merge_and_filter]
    keeps the key convention of the SCF extract: [y1] still identifies a
    row and is still [10 * yy1 + i] with [i] in 1..5, so the household
    collapse after it yields one row per household. *)
Theorem X2_merge_and_filter_keeps_scf_keys
    {A : Type} `{Num A} (df : list (Raw.t A)) (ccbal_df : list Aux.t) :
  scf_keys df -> List.NoDup (map Aux.y1 ccbal_df) ->
  scf_keys (merge_and_filter df ccbal_df)
  /\ List.NoDup (map HH.yy1 (household_rows (merge_and_filter df ccbal_df))).
Proof.
  intros [Hnd Hkeys] Haux.
  assert (Hk : scf_keys (merge_and_filter df ccbal_df)).
  { destruct (merge_ccbal_keys df ccbal_df Haux) as [E1 E2]. split.
    - unfold merge_and_filter. do 2 apply NoDup_map_filter.
      rewrite map_map, (map_ext _ Raw.y1) by (intros; reflexivity).
      rewrite E1. exact Hnd.
    - apply List.Forall_forall. intros r Hr.
      apply merge_and_filter_In in Hr as (r0 & Hr0 & -> & _).
      cbn [Raw.y1 Raw.yy1 Raw.set_age].
      rewrite merge_ccbal_flat_map in Hr0.
      apply in_flat_map in Hr0 as (r1 & Hr1 & Hin).
      apply corrected_rows_keys in Hin as (-> & -> & _).
      rewrite List.Forall_forall in Hkeys. exact (Hkeys r1 Hr1). }
  split; [exact Hk|].
  destruct Hk as [Hnd' Hkeys']. rewrite household_rows_map, map_map.
  rewrite List.Forall_forall in Hkeys'.
  change (fun x => HH.yy1 (household_of (merge_and_filter df ccbal_df) x))
    with (@Raw.yy1 A).
  apply (NoDup_map_by_key Raw.yy1 Raw.y1).
  - intros x y Hx Hy E.
    apply filter_In in Hx as [Hx Hx1]. apply filter_In in Hy as [Hy Hy1].
    apply (first_implicate x (Hkeys' x Hx)) in Hx1.
    apply (first_implicate y (Hkeys' y Hy)) in Hy1. lia.
  - apply NoDup_map_filter. exact Hnd'.
Qed.

(** X2 on [raw_example] and [ccbal_example]. *)
Lemma X2_witness :
  scf_keys raw_example /\ List.NoDup (map Aux.y1 ccbal_example)
  /\ scf_keys merged_example
  /\ map HH.yy1 (household_rows merged_example) = [7%Z; 8%Z].
Proof.
  assert (Hk : scf_keys raw_example).
  { split.
    - cbn. repeat constructor; cbn; intuition discriminate.
    - repeat constructor; [exists 1%Z|exists 2%Z|exists 1%Z]; cbn; lia. }
  assert (Ha : List.NoDup (map Aux.y1 ccbal_example)).
  { cbn. repeat constructor; cbn; intuition discriminate. }
  split; [exact Hk|]. split; [exact Ha|].
  split; [|vm_compute; reflexivity].
  exact (proj1 (X2_merge_and_filter_keeps_scf_keys raw_example ccbal_example Hk Ha)).
Defined.

(** ** The trimming drops a prefix of the income order *)

Section TrimmingPrefix.
Local Open Scope Q_scope.

(** On a column in non-decreasing order the mask [>= c] is false on a
    prefix and true on the rest. *)
Lemma monotone_mask_is_suffix {X : Type} (key : X -> Q) (c : Q) (l : list X) :
  StronglySorted Qle (map key l) ->
  exists k, (k <= length l)%nat
    /\ List.filter (fun r => leb c (key r)) l = skipn k l
    /\ Forall (fun r => key r < c) (firstn k l)
    /\ Forall (fun r => c <= key r) (skipn k l).
Proof.
  induction l as [|x l IH]; intros Hs.
  - exists 0%nat. cbn. repeat split; try constructor.
  - cbn [map] in Hs. apply StronglySorted_inv in Hs as [Hs Hall].
    destruct (leb c (key x)) eqn:E.
    + apply leb_Q_le in E. exists 0%nat.
      assert (Hge : Forall (fun r => c <= key r) (x :: l)).
      { constructor; [exact E|]. apply List.Forall_forall. intros r Hr.
        rewrite List.Forall_forall in Hall.
        apply Qle_trans with (key x); [exact E|]. apply Hall, in_map, Hr. }
      split; [cbn; lia|]. split; [|split; [constructor|exact Hge]].
      cbn [skipn]. apply forallb_filter_id. apply forallb_forall.
      intros r Hr. apply leb_Q_le. rewrite List.Forall_forall in Hge.
      exact (Hge r Hr).
    + destruct (IH Hs) as (k & Hk & Hf & Hlt & Hge). exists (S k).
      split; [cbn; lia|]. split; [|split].
      * cbn [List.filter skipn]. rewrite E. exact Hf.
      * cbn [firstn]. constructor; [apply leb_Q_gt; exact E|exact Hlt].
      * exact Hge.
Qed.

Lemma normweights_sum_to_one (df : list (HH.t Q)) :
  0 < col_sum (map HH.weight df) ->
  col_sum (map snd
             (sort_values by_permInc
                (map (fun h => (h, HH.weight h / col_sum (map HH.weight df))) df)))
  == 1.
Proof.
  intros Hpos.
  rewrite (col_sum_perm _ (map snd (map (fun h => (h, HH.weight h
                                                      / col_sum (map HH.weight df))) df)))
    by (apply Permutation_map, sort_values_perm).
  rewrite map_map. cbn [snd]. apply quotient_sum_is_one. exact Hpos.
Qed.
End TrimmingPrefix.

(** X4.  When no weight is negative and the total weight is positive, the
    trimming removes a prefix of the table sorted by income: the [k]
    households removed are the first [k] of the income order, together
    they carry less than 0.05 of the normalized weight, and at least the
    household with the highest income stays, so the result is not empty. *)
Theorem X4_trimming_drops_prefix_below_5_percent (df : list (HH.t Q)) :
  Forall (fun h => (0 <= HH.weight h)%Q) df ->
  (0 < col_sum (map HH.weight df))%Q ->
  exists k : nat,
    (k < length df)%nat
    /\ drop_lowest_income df
       = skipn k (map (fun r => fst (fst r)) (with_sumW df))
    /\ (col_sum (map (fun r => snd (fst r)) (firstn k (with_sumW df))) < 0.05)%Q
    /\ drop_lowest_income df <> [].
Proof.
  intros Hw Hpos.
  destruct (with_sumW_columns df) as (E1 & E2 & E3). cbn zeta in E1, E2.
  set (total_weight := col_sum (map HH.weight df)) in *.
  set (pairs := sort_values by_permInc _) in *.
  set (rows := with_sumW df) in *.
  assert (Hnw : Forall (fun x => (0 <= x)%Q) (map snd pairs)).
  { apply List.Forall_forall. intros x Hx.
    apply in_map_iff in Hx as ([h nw] & <- & Hin). cbn [snd].
    apply sort_values_In, in_map_iff in Hin as (h' & E & Hh).
    injection E as -> <-. rewrite List.Forall_forall in Hw.
    apply Qle_shift_div_l; [exact Hpos|]. rewrite Qmult_0_l. exact (Hw h Hh). }
  assert (Hs : StronglySorted Qle (map snd rows)).
  { rewrite E2. apply Sorted_StronglySorted; [intros x y z; apply Qle_trans|].
    apply cumsum_sorted. exact Hnw. }
  destruct (monotone_mask_is_suffix snd 0.05%Q rows Hs)
    as (k & Hk & Hf & Hlt & Hge).
  assert (Hdrop : drop_lowest_income df
                  = skipn k (map (fun r => fst (fst r)) rows)).
  { unfold drop_lowest_income. fold rows.
    change (fun p : HH.t Q * Q * Q => leb (of_Q 0.05%Q) (snd p))
      with (fun r : HH.t Q * Q * Q => leb 0.05%Q (snd r)).
    rewrite Hf, skipn_map. reflexivity. }
  assert (Hne : df <> []).
  { intros E. subst df. unfold total_weight in Hpos. cbn in Hpos.
    revert Hpos. apply Qlt_irrefl. }
  assert (Hlen : length rows = length df) by exact E3.
  assert (Hklt : (k < length df)%nat).
  { destruct (Nat.eq_dec k (length rows)) as [Ek|Ek]; [|lia]. exfalso.
    destruct (cumsum_last (map snd pairs)) as (s & Hlast & Es).
    { intros E. apply map_eq_nil in E. unfold pairs in E.
      apply sort_values_nil_inv, map_eq_nil in E. exact (Hne E). }
    rewrite <- E2 in Hlast.
    rewrite Ek, firstn_all in Hlt. rewrite List.Forall_forall in Hlt.
    assert (Hin : In s (map snd rows)).
    { apply list_elem_of_In. eapply last_Some_elem_of. exact Hlast. }
    apply in_map_iff in Hin as (r & <- & Hr). specialize (Hlt r Hr).
    unfold pairs in Es. unfold total_weight in Es.
    rewrite (normweights_sum_to_one df Hpos) in Es. rewrite Es in Hlt.
    revert Hlt. unfold Qlt. cbn. lia. }
  exists k. split; [exact Hklt|]. split; [exact Hdrop|]. split.
  - destruct k as [|k].
    + cbn. reflexivity.
    + destruct (lookup_lt_is_Some_2 rows k) as [r Hr]; [lia|].
      assert (Hc : cumsum (map snd pairs) !! k = Some (snd r)).
      { rewrite <- E2, lookup_map, Hr. reflexivity. }
      apply cumsum_lookup in Hc.
      rewrite <- E1, map_map, firstn_map in Hc. rewrite <- Hc.
      rewrite List.Forall_forall in Hlt. apply Hlt.
      rewrite <- (firstn_skipn (S k) rows) in Hr.
      apply list_elem_of_In. eapply list_elem_of_lookup_2.
      rewrite lookup_app_l in Hr; [exact Hr|].
      rewrite length_firstn. lia.
  - rewrite Hdrop. intros E.
    assert (Hl : length (skipn k (map (fun r => fst (fst r)) rows)) = 0%nat)
      by (rewrite E; reflexivity).
    rewrite length_skipn, length_map in Hl. lia.
Qed.

(** X4 on [hh100]: four households are removed, with 0.04 of the
    weight. *)
Lemma X4_witness :
  Forall (fun h => (0 <= HH.weight h)%Q) (hh100 (A := Q))
  /\ (0 < col_sum (map HH.weight (hh100 (A := Q))))%Q
  /\ exists k : nat,
       (k < length (hh100 (A := Q)))%nat
       /\ drop_lowest_income (hh100 (A := Q))
          = skipn k (map (fun r => fst (fst r)) (with_sumW (hh100 (A := Q))))
       /\ (col_sum (map (fun r => snd (fst r))
                      (firstn k (with_sumW (hh100 (A := Q))))) < 0.05)%Q
       /\ drop_lowest_income (hh100 (A := Q)) <> [].
Proof.
  assert (Hw : Forall (fun h => (0 <= HH.weight h)%Q) (hh100 (A := Q))).
  { apply List.Forall_forall. intros h Hin. unfold hh100 in Hin.
    apply in_map_iff in Hin as (i & <- & _). cbn. discriminate. }
  assert (Hpos : (0 < col_sum (map HH.weight (hh100 (A := Q))))%Q)
    by (vm_compute; reflexivity).
  split; [exact Hw|]. split; [exact Hpos|].
  exact (X4_trimming_drops_prefix_below_5_percent _ Hw Hpos).
Defined.

(** ** The panel of the whole pipeline *)

Section PanelFacts.
Local Open Scope Q_scope.

Lemma mean_nonneg (l : list Q) : Forall (fun x => 0 <= x) l -> 0 <= mean l.
Proof.
  intros Hl. unfold mean. unfold_num. apply Qmult_le_0_compat.
  - apply col_sum_nonneg, Hl.
  - apply Qinv_le_0_compat. unfold Qle. cbn. lia.
Qed.

Lemma myEd_of_range (edcl : Z) :
  myEd_of edcl = 1%Z \/ myEd_of edcl = 2%Z \/ myEd_of edcl = 3%Z.
Proof.
  unfold myEd_of. destruct (edcl =? 4)%Z; [auto|].
  destruct (existsb (Z.eqb edcl) [2%Z; 3%Z]); auto.
Qed.

Lemma panel_myEd_range (df : list (Raw.t Q)) (b : bool) (p : Panel.t Q) :
  In p (calculate_liquid_wealth df b) ->
  Panel.myEd p = 1%Z \/ Panel.myEd p = 2%Z \/ Panel.myEd p = 3%Z.
Proof.
  intros Hp. apply calculate_liquid_wealth_In in Hp as ((r & _ & _ & E) & _).
  unfold Panel.myEd. rewrite E. apply myEd_of_range.
Qed.

(** A sum over the table is the sum of the sums over the three education
    groups. *)
Lemma col_sum_three_groups {X : Type} (key : X -> Z) (g : X -> Q) (l : list X) :
  Forall (fun x => key x = 1%Z \/ key x = 2%Z \/ key x = 3%Z) l ->
  col_sum (map g l)
  == col_sum (map g (List.filter (fun x => (key x =? 1)%Z) l))
     + col_sum (map g (List.filter (fun x => (key x =? 2)%Z) l))
     + col_sum (map g (List.filter (fun x => (key x =? 3)%Z) l)).
Proof.
  induction 1 as [|x l Hx _ IH].
  - cbn [map List.filter]. rewrite !col_sum_nil. ring.
  - cbn [map List.filter]. rewrite col_sum_cons, IH.
    destruct Hx as [E|[E|E]]; rewrite E; cbn [Z.eqb Pos.eqb map];
      rewrite col_sum_cons; ring.
Qed.
End PanelFacts.

(** X5.  Every row of the panel that [calculate_liquid_wealth] makes of
    the table [merge_and_filter] returns is inside the sample: the age is
    between 25 and 62, the permanent income and the liquid wealth are not
    negative, and the education group is 1, 2 or 3 and has a label. *)
Theorem X5_panel_rows_are_in_sample
    (df : list (Raw.t Q)) (ccbal_df : list Aux.t) (b : bool) (p : Panel.t Q) :
  In p (calculate_liquid_wealth (merge_and_filter df ccbal_df) b) ->
  (25 <= HH.age (Panel.hh p) /\ HH.age (Panel.hh p) <= 62)%Q
  /\ (0 <= Panel.permInc p)%Q
  /\ (0 <= Panel.liqWealth p)%Q
  /\ (Panel.myEd p = 1%Z \/ Panel.myEd p = 2%Z \/ Panel.myEd p = 3%Z)
  /\ is_Some (myEdText (Panel.myEd p)).
Proof.
  intros Hp. pose proof (panel_myEd_range _ _ _ Hp) as Hed.
  apply calculate_liquid_wealth_In in Hp as ((r & Hr & _ & E) & _ & Hlw).
  pose proof Hr as Hr'.
  apply merge_and_filter_In in Hr' as (r0 & _ & _ & H25 & H62 & _).
  apply leb_Q_le in H25, H62, Hlw.
  split; [rewrite E; split; assumption|]. split; [|split; [exact Hlw|]].
  - unfold Panel.permInc. rewrite E. cbn [HH.permInc household_of].
    unfold transform_mean. apply mean_nonneg.
    apply List.Forall_forall. intros x Hx.
    apply in_map_iff in Hx as (r1 & <- & Hr1).
    unfold group_of in Hr1. apply filter_In in Hr1 as [Hr1 _].
    apply merge_and_filter_In in Hr1 as (_ & _ & _ & _ & _ & Hinc).
    apply leb_Q_le in Hinc. exact Hinc.
  - split; [exact Hed|].
    destruct Hed as [-> | [-> | ->]]; cbn; eexists; reflexivity.
Qed.

(** X5 on [raw_panel_example] with an empty answer table. *)
Lemma X5_witness :
  In (nth 0 (calculate_liquid_wealth (merge_and_filter raw_panel_example []) false)
          panel_default)
     (calculate_liquid_wealth (merge_and_filter raw_panel_example []) false)
  /\ (0 <= Panel.permInc
             (nth 0 (calculate_liquid_wealth
                       (merge_and_filter raw_panel_example []) false)
                  panel_default))%Q
  /\ is_Some (myEdText
                (Panel.myEd
                   (nth 0 (calculate_liquid_wealth
                             (merge_and_filter raw_panel_example []) false)
                        panel_default))).
Proof.
  assert (Hin : In (nth 0 (calculate_liquid_wealth
                             (merge_and_filter raw_panel_example []) false)
                        panel_default)
                   (calculate_liquid_wealth
                      (merge_and_filter raw_panel_example []) false))
    by (apply nth_In; vm_compute; lia).
  split; [exact Hin|].
  pose proof (X5_panel_rows_are_in_sample raw_panel_example [] false _ Hin)
    as (_ & Hinc & _ & _ & Htext).
  split; [exact Hinc|exact Htext].
Defined.

(** X6.  With positive sample weights and a panel that is not empty, the
    population shares [edfrac] of the three education groups add up to
    one; every row carries the share of its own group, which is positive
    and at most one. *)
Theorem X6_education_shares_add_up_to_one (df : list (Raw.t Q)) (b : bool) :
  Forall (fun r => (0 < Raw.wgt r)%Q) df ->
  calculate_liquid_wealth df b <> [] ->
  let panel := calculate_liquid_wealth df b in
  let share := fun ed : Z =>
    col_sum (map Panel.normweight
                 (List.filter (fun p => (Panel.myEd p =? ed)%Z) panel)) in
  (share 1%Z + share 2%Z + share 3%Z == 1)%Q
  /\ forall p, In p panel ->
       Panel.edfrac p = share (Panel.myEd p)
       /\ (0 < Panel.edfrac p)%Q /\ (Panel.edfrac p <= 1)%Q.
Proof.
  intros Hw Hne panel share.
  pose proof (selected_weights_pos df b Hw) as Hsel.
  assert (Hpanel : panel = reweight
                     (map (fun h => (h, select_liqWealth b h))
                          (drop_lowest_income (household_rows df))))
    by reflexivity.
  assert (Hne' : reweight (map (fun h => (h, select_liqWealth b h))
                               (drop_lowest_income (household_rows df))) <> [])
    by (rewrite <- Hpanel; exact Hne).
  destruct (reweight_sums _ Hsel Hne') as [Hone _]. rewrite <- Hpanel in Hone.
  assert (Hrange : Forall (fun p => Panel.myEd p = 1%Z \/ Panel.myEd p = 2%Z
                                    \/ Panel.myEd p = 3%Z) panel).
  { apply List.Forall_forall. intros p Hp. exact (panel_myEd_range df b p Hp). }
  assert (Hsum : (share 1%Z + share 2%Z + share 3%Z == 1)%Q).
  { unfold share. rewrite <- (col_sum_three_groups Panel.myEd _ panel Hrange).
    exact Hone. }
  assert (Hnn : forall ed, (0 <= share ed)%Q).
  { intros ed. unfold share. apply col_sum_nonneg, List.Forall_forall.
    intros x Hx. apply in_map_iff in Hx as (q & <- & Hq).
    apply filter_In in Hq as [Hq _]. apply Qlt_le_weak.
    rewrite Hpanel in Hq. exact (reweight_normweight_pos _ q Hsel Hq). }
  split; [exact Hsum|]. intros p Hp.
  assert (Hp' := Hp). rewrite Hpanel in Hp'.
  destruct (reweight_formulas _ p Hp') as (_ & Hfrac & _).
  rewrite <- Hpanel in Hfrac. fold (share (Panel.myEd p)) in Hfrac.
  split; [exact Hfrac|]. rewrite Hfrac. split.
  - unfold share. apply col_sum_pos.
    + intros E. apply map_eq_nil in E.
      assert (Hin : In p (List.filter
                            (fun x => (Panel.myEd x =? Panel.myEd p)%Z) panel))
        by (apply filter_In; split; [exact Hp|apply Z.eqb_refl]).
      rewrite E in Hin. exact Hin.
    + apply List.Forall_forall. intros x Hx.
      apply in_map_iff in Hx as (q & <- & Hq).
      apply filter_In in Hq as [Hq _]. rewrite Hpanel in Hq.
      exact (reweight_normweight_pos _ q Hsel Hq).
  - pose proof (Hnn 1%Z) as H1. pose proof (Hnn 2%Z) as H2.
    pose proof (Hnn 3%Z) as H3. rewrite List.Forall_forall in Hrange.
    destruct (Hrange p Hp) as [-> | [-> | ->]]; lra.
Qed.

(** X6 on [raw_panel_example]. *)
Lemma X6_witness :
  Forall (fun r => (0 < Raw.wgt r)%Q) raw_panel_example
  /\ calculate_liquid_wealth raw_panel_example false <> []
  /\ let panel := calculate_liquid_wealth raw_panel_example false in
     let share := fun ed : Z =>
       col_sum (map Panel.normweight
                    (List.filter (fun p => (Panel.myEd p =? ed)%Z) panel)) in
     (share 1%Z + share 2%Z + share 3%Z == 1)%Q.
Proof.
  assert (Hpos : Forall (fun r => (0 < Raw.wgt r)%Q) raw_panel_example)
    by (repeat constructor).
  assert (Hne : calculate_liquid_wealth raw_panel_example false <> [])
    by (vm_compute; discriminate).
  split; [exact Hpos|]. split; [exact Hne|].
  exact (proj1 (X6_education_shares_add_up_to_one raw_panel_example false Hpos Hne)).
Defined.

(** ** The Lorenz readouts rise with the percentile *)

Section ReadoutsMonotone.
Local Open Scope Q_scope.

Lemma round_half_even_mono (q1 q2 : Q) :
  q1 <= q2 -> (round_half_even q1 <= round_half_even q2)%Z.
Proof.
  intros Hle. unfold round_half_even.
  pose proof (Qfloor_le q1) as L1. pose proof (Qlt_floor q1) as U1.
  pose proof (Qfloor_le q2) as L2. pose proof (Qlt_floor q2) as U2.
  pose proof (Qfloor_resp_le _ _ Hle) as Hf.
  set (f1 := Qfloor q1) in *. set (f2 := Qfloor q2) in *.
  rewrite inject_Z_plus in U1, U2.
  destruct (Z.eq_dec f1 f2) as [E|N].
  - rewrite <- E in *.
    destruct (Qcompare_spec (q1 - inject_Z f1) (1 # 2)) as [E1|E1|E1];
      destruct (Qcompare_spec (q2 - inject_Z f1) (1 # 2)) as [E2|E2|E2];
      try destruct (Z.even f1); try lia; exfalso; lra.
  - assert (Hlt : (f1 + 1 <= f2)%Z) by lia.
    destruct (q1 - inject_Z f1 ?= 1 # 2); destruct (q2 - inject_Z f2 ?= 1 # 2);
      try destruct (Z.even f1); try destruct (Z.even f2); lia.
Qed.

Lemma round2_mono (x y : Q) : x <= y -> round2 x <= round2 y.
Proof.
  intros Hle. change (@round2 Q Num_Q) with
    (fun x : Q => inject_Z (round_half_even (x * 100)) / 100). cbv beta.
  apply Qmult_le_compat_r; [|unfold Qle; cbn; lia].
  rewrite <- Zle_Qle. apply round_half_even_mono. lra.
Qed.

(** A readout at a higher threshold selects more rows. *)
Lemma wealth_share_mono (lorenz : list (Lorenz.t Q)) (pct1 pct2 m1 : Q) :
  pct1 <= pct2 -> wealth_share lorenz pct1 = Some m1 ->
  exists m2, wealth_share lorenz pct2 = Some m2 /\ m1 <= m2.
Proof.
  intros Hle H1. pose proof (wealth_share_rule lorenz pct1) as R1.
  rewrite H1 in R1. destruct R1 as [(r & Hr & Hlt & Er) _].
  pose proof (wealth_share_rule lorenz pct2) as R2.
  destruct (wealth_share lorenz pct2) as [m2|].
  - exists m2. split; [reflexivity|]. destruct R2 as [_ Hmax].
    rewrite <- Er. apply Hmax; [exact Hr|lra].
  - exfalso. apply (R2 r Hr). lra.
Qed.
End ReadoutsMonotone.

(** X9.  The entries of [results['lorenz_all']] rise with the percentile:
    when the readout at one percentile is a number, the readout at every
    higher percentile is a number too, and it is not smaller, also after
    the rounding to two decimals. *)
Theorem X9_lorenz_points_nondecreasing
    (df : list (Panel.t Q)) (i j : nat) (k1 : string) (x : Q) :
  (i <= j < 4)%nat ->
  lorenz_points df !! i = Some (k1, Some x) ->
  exists (k2 : string) (y : Q),
    lorenz_points df !! j = Some (k2, Some y) /\ (x <= y)%Q.
Proof.
  intros Hij Hi. unfold lorenz_points in *.
  set (lorenz := lorenz_all df) in *.
  assert (Hstep : forall (pct1 pct2 : Q) (x : Q),
             (pct1 <= pct2)%Q ->
             option_map round2 (wealth_share lorenz (of_Q pct1)) = Some x ->
             exists y, option_map round2 (wealth_share lorenz (of_Q pct2)) = Some y
                       /\ (x <= y)%Q).
  { intros pct1 pct2 x0 Hle Hx.
    destruct (wealth_share lorenz (of_Q pct1)) as [m1|] eqn:E1; [|discriminate].
    injection Hx as <-.
    destruct (wealth_share_mono lorenz _ _ m1 Hle E1) as (m2 & E2 & Hm).
    change (@of_Q Q Num_Q pct2) with pct2. rewrite E2.
    exists (round2 m2). split; [reflexivity|]. apply round2_mono, Hm. }
  destruct i as [|[|[|[|i]]]]; [| | | |lia];
    destruct j as [|[|[|[|j]]]]; try lia;
    cbn [map lookup list_lookup fst snd] in Hi |- *;
    injection Hi as <- Hx; eexists; (eapply Hstep in Hx as (y & -> & Hy);
      [eexists; split; [reflexivity|exact Hy]|unfold Qle; cbn; lia]).
Qed.

(** X9 on [panel4]: nothing lies below the 20th percentile, the readout
    at 40 is 0 and the readout at 80 is 30. *)
Lemma X9_witness :
  exists (k2 : string) (x y : Q),
    lorenz_points (panel4 (A := Q)) !! 1%nat = Some ("LC_all_40", Some x)
    /\ lorenz_points (panel4 (A := Q)) !! 3%nat = Some (k2, Some y)
    /\ (x <= y)%Q.
Proof.
  pose (x := default 0%Q (snd (nth 1 (lorenz_points (panel4 (A := Q)))
                                   (String.EmptyString, None)))).
  assert (H1 : lorenz_points (panel4 (A := Q)) !! 1%nat
               = Some ("LC_all_40", Some x)) by (vm_compute; reflexivity).
  destruct (X9_lorenz_points_nondecreasing panel4 1 3 _ x ltac:(lia) H1)
    as (k2 & y & H2 & Hle).
  exists k2, x, y. auto.
Defined.

(** ** How far calculate_statistics gets *)

Section StatisticsRunFacts.
Local Open Scope Q_scope.

(** The loop of lines 201-214 ends without an exception when no group's
    households aged 25 have weights that sum to zero, and it has then
    created the columns when it started with them or some group has a
    household aged 25. *)
Lemma initial_income_runs (eds : list Z) (df : list (Panel.t Q))
    (created : bool) :
  (forall p, In p df -> 0 < Panel.edWeight p) ->
  exists c, initial_income eds df created = inr c
            /\ (c = true <-> created = true
                             \/ exists ed, In ed eds /\ aged_25 df ed <> []).
Proof.
  intros Hw. revert created.
  induction eds as [|ed eds IH]; intros created; cbn [initial_income].
  - exists created. split; [reflexivity|]. split; [auto|].
    intros [E|(ed & [] & _)]. exact E.
  - destruct (aged_25 df ed) as [|p subset] eqn:E.
    + cbn [length Nat.ltb Nat.leb].
      destruct (IH created) as (c & Hc & Hiff). exists c.
      split; [exact Hc|]. rewrite Hiff. split.
      * intros [Hcr|(ed' & Hed' & Hne)]; [left; exact Hcr|].
        right. exists ed'. split; [right; exact Hed'|exact Hne].
      * intros [Hcr|(ed' & [<-|Hed'] & Hne)]; [left; exact Hcr| |].
        -- rewrite E in Hne. congruence.
        -- right. exists ed'. auto.
    + change (0 <? length (p :: subset))%nat with true. cbv iota.
      assert (Hpos : 0 < col_sum (map Panel.edWeight (p :: subset))).
      { apply col_sum_pos; [discriminate|].
        apply List.Forall_forall. intros w Hin.
        apply in_map_iff in Hin as (q & <- & Hq). apply Hw.
        rewrite <- E in Hq. apply aged_25_In in Hq as (Hq & _). exact Hq. }
      assert (Ez : eqb (col_sum (map Panel.edWeight (p :: subset))) (of_Q 0)
                   = false).
      { apply eqb_Q_neq. change (@of_Q Q Num_Q 0) with 0. lra. }
      rewrite Ez.
      destruct (IH true) as (c & Hc & Hiff). exists c.
      split; [exact Hc|].
      assert (Hct : c = true) by (apply Hiff; left; reflexivity).
      split; [|intros _; exact Hct].
      intros _. right. exists ed. split; [left; reflexivity|].
      rewrite E. discriminate.
Qed.

Lemma median_loop_runs (eds : list Z) (df : list (Panel.t Q)) :
  (forall ed, In ed eds -> exists p, In p df /\ Panel.myEd p = ed) ->
  exists medians, median_loop eds df = inr medians.
Proof.
  induction eds as [|ed eds IH]; intros Hall; cbn [median_loop].
  - exists []. reflexivity.
  - destruct (Hall ed (or_introl eq_refl)) as (p & Hp & Hed).
    assert (Hne : subset_of df ed <> []).
    { intros E.
      assert (Hin : In (p, indLWoPI p) (subset_of df ed))
        by (apply subset_of_In; auto).
      rewrite E in Hin. exact Hin. }
    destruct (weighted_median_spec _ Hne) as (m & _ & Hm & _).
    unfold wtMedLWoPI. rewrite Hm.
    destruct IH as [rest ->]; [intros e He; apply Hall; right; exact He|].
    eexists. reflexivity.
Qed.

Lemma median_loop_raises (eds : list Z) (df : list (Panel.t Q))
    (e : Stats.raised) :
  median_loop eds df = inl e ->
  e = Stats.IndexError
  /\ exists ed, In ed eds /\ forall p, In p df -> Panel.myEd p <> ed.
Proof.
  induction eds as [|ed eds IH]; cbn [median_loop]; [discriminate|].
  destruct (wtMedLWoPI df ed) as [m|] eqn:E.
  - destruct (median_loop eds df) as [e'|rest]; [|discriminate].
    intros [= <-]. destruct (IH eq_refl) as (-> & ed' & Hed' & Hnone).
    split; [reflexivity|]. exists ed'. split; [right; exact Hed'|exact Hnone].
  - intros [= <-]. split; [reflexivity|]. exists ed.
    split; [left; reflexivity|]. intros p Hp Hed.
    assert (Hne : subset_of df ed <> []).
    { intros E'.
      assert (Hin : In (p, indLWoPI p) (subset_of df ed))
        by (apply subset_of_In; auto).
      rewrite E' in Hin. exact Hin. }
    destruct (weighted_median_spec _ Hne) as (m & _ & Hm & _).
    unfold wtMedLWoPI in E. rewrite Hm in E. discriminate E.
Qed.
End StatisticsRunFacts.

(** X10.  On a panel of positive tier weights, the call of
    [calculate_statistics] gets as far as the Lorenz table of all
    households exactly when each of the three education tiers has a
    household and some household of the three tiers is aged 25.  Without a
    household aged 25 it ends in the KeyError of line 216, and with one,
    but an empty tier, in the IndexError of line 251. *)
Theorem X10_statistics_need_three_tiers_and_age_25 (df : list (Panel.t Q)) :
  (forall p, In p df -> (0 < Panel.edWeight p)%Q) ->
  df <> [] ->
  let aged25 := exists p, In p df /\ In (Panel.myEd p) [1%Z; 2%Z; 3%Z]
                          /\ (HH.age (Panel.hh p) == 25)%Q in
  let three_tiers := forall ed, In ed [1%Z; 2%Z; 3%Z] ->
                                exists p, In p df /\ Panel.myEd p = ed in
  ((exists out, calculate_statistics_to_lorenz_all df = inr out)
   <-> aged25 /\ three_tiers)
  /\ (calculate_statistics_to_lorenz_all df = inl Stats.KeyError <-> ~ aged25)
  /\ (calculate_statistics_to_lorenz_all df = inl Stats.IndexError
      <-> aged25 /\ ~ three_tiers).
Proof.
  intros Hw Hne aged25 three_tiers.
  destruct (initial_income_runs [1%Z; 2%Z; 3%Z] df false Hw) as (c & Hc & Hiff).
  assert (Haged : c = true <-> aged25).
  { rewrite Hiff. unfold aged25. split.
    - intros [Hf|(ed & Hed & Hsub)]; [discriminate|].
      destruct (aged_25 df ed) as [|p subset] eqn:E; [congruence|].
      assert (Hp : In p (aged_25 df ed)) by (rewrite E; left; reflexivity).
      apply aged_25_In in Hp as (Hp & Hmy & Hage).
      exists p. rewrite Hmy. auto.
    - intros (p & Hp & Hed & Hage). right. exists (Panel.myEd p).
      split; [exact Hed|]. intros E.
      assert (Hin : In p (aged_25 df (Panel.myEd p)))
        by (apply aged_25_In; auto).
      rewrite E in Hin. exact Hin. }
  assert (Hrun : calculate_statistics_to_lorenz_all df
                 = if c then
                     match median_loop [1%Z; 2%Z; 3%Z] df with
                     | inl e => inl e
                     | inr medians =>
                         inr (Stats.mk medians (lorenz_points df) (lorenz_all df))
                     end
                   else inl Stats.KeyError).
  { unfold calculate_statistics_to_lorenz_all.
    destruct df as [|p df]; [congruence|]. rewrite Hc.
    destruct c; reflexivity. }
  assert (Htiers : three_tiers
                   <-> exists medians, median_loop [1%Z; 2%Z; 3%Z] df = inr medians).
  { split; [apply median_loop_runs|].
    intros [medians Hm] ed Hed.
    destruct (median_loop_all _ _ _ ed Hm Hed) as (m & _ & Hwt).
    exact (wtMedLWoPI_group df ed m Hwt). }
  rewrite Hrun. destruct c.
  - assert (Ha : aged25) by (apply Haged; reflexivity).
    destruct (median_loop [1%Z; 2%Z; 3%Z] df) as [e|medians] eqn:Hloop.
    + destruct (median_loop_raises _ _ _ Hloop) as (-> & ed & Hed & Hnone).
      assert (Hnot : ~ three_tiers).
      { intros Hthree. destruct (Hthree ed Hed) as (p & Hp & Hmy).
        exact (Hnone p Hp Hmy). }
      split; [|split].
      * split; [intros [out Hout]; discriminate|]. intros [_ Hthree]. contradiction.
      * split; [discriminate|]. intros Hn. contradiction.
      * split; [intros _; auto|reflexivity].
    + assert (Hthree : three_tiers) by (apply Htiers; eauto).
      split; [|split].
      * split; [intros _; auto|]. intros _. eexists. reflexivity.
      * split; [discriminate|]. intros Hn. contradiction.
      * split; [discriminate|]. intros [_ Hn]. contradiction.
  - assert (Ha : ~ aged25) by (intros Ha; apply Haged in Ha; discriminate).
    split; [|split].
    + split; [intros [out Hout]; discriminate|]. intros [Ha' _]. contradiction.
    + split; [intros _; exact Ha|reflexivity].
    + split; [discriminate|]. intros [Ha' _]. contradiction.
Qed.

(** X10 on the panel of [raw_panel_example], which gets to the Lorenz
    table: each tier has a household. *)
Lemma X10_witness :
  (forall p, In p (calculate_liquid_wealth raw_panel_example false) ->
             (0 < Panel.edWeight p)%Q)
  /\ calculate_liquid_wealth raw_panel_example false <> []
  /\ (exists out, calculate_statistics_to_lorenz_all
                    (calculate_liquid_wealth raw_panel_example false) = inr out)
  /\ (forall ed, In ed [1%Z; 2%Z; 3%Z] ->
        exists p, In p (calculate_liquid_wealth raw_panel_example false)
                  /\ Panel.myEd p = ed).
Proof.
  assert (Hw : forall p, In p (calculate_liquid_wealth raw_panel_example false) ->
                         (0 < Panel.edWeight p)%Q).
  { intros p Hp.
    assert (Hall : forallb (fun p => negb (Qle_bool (Panel.edWeight p) 0))
                           (calculate_liquid_wealth raw_panel_example false)
                   = true) by (vm_compute; reflexivity).
    rewrite forallb_forall in Hall. specialize (Hall p Hp).
    apply negb_true_iff in Hall. apply Qnot_le_lt. intros Hle.
    apply Qle_bool_iff in Hle. congruence. }
  assert (Hne : calculate_liquid_wealth raw_panel_example false <> [])
    by (vm_compute; discriminate).
  assert (Hrun : exists out, calculate_statistics_to_lorenz_all
                    (calculate_liquid_wealth raw_panel_example false) = inr out).
  { destruct (calculate_statistics_to_lorenz_all
                (calculate_liquid_wealth raw_panel_example false))
      as [e|out] eqn:E; [vm_compute in E; discriminate|].
    exists out. reflexivity. }
  split; [exact Hw|]. split; [exact Hne|]. split; [exact Hrun|].
  exact (proj2 (proj1 (proj1 (X10_statistics_need_three_tiers_and_age_25
                                _ Hw Hne)) Hrun)).
Defined.

(** ** adjust_inflation: shape and repeated runs *)

(** X13.  [adjust_inflation] keeps the shape of the table: the columns of
    the result are the columns of the input, and every column keeps its
    number of rows. *)
Theorem X13_adjust_inflation_keeps_shape
    {A : Type} `{Num A} (df : gmap string (list A)) :
  dom (adjust_inflation df) = dom df
  /\ forall var : string,
       length <$> (adjust_inflation df !! var) = length <$> (df !! var).
Proof.
  split.
  - apply set_eq. intros var. rewrite !elem_of_dom, adjust_inflation_lookup.
    destruct (df !! var); split; intros [x Hx]; try discriminate; eauto.
  - intros var. rewrite adjust_inflation_lookup.
    destruct (df !! var) as [col|]; [|reflexivity]. cbn.
    destruct (bool_decide (var ∈ DOLLAR_VARIABLES) && has_nonzero col);
      [rewrite length_map|]; reflexivity.
Qed.

Section AdjustFacts.
Local Open Scope Q_scope.

Lemma INFLATION_FACTOR_pos : 0 < INFLATION_FACTOR.
Proof. reflexivity. Qed.

Lemma has_nonzero_divided (col : list Q) :
  has_nonzero (map (fun x => div x (of_Q INFLATION_FACTOR)) col) = has_nonzero col.
Proof.
  apply eq_true_iff_eq. rewrite !has_nonzero_Q. unfold_num. split.
  - intros (y & Hy & Hn). apply in_map_iff in Hy as (x & <- & Hx).
    exists x. split; [exact Hx|]. intros E. apply Hn. rewrite E.
    unfold Qdiv. ring.
  - intros (x & Hx & Hn). exists (x / INFLATION_FACTOR). split.
    + apply in_map_iff. exists x. auto.
    + intros E. apply Hn.
      assert (Ex : x == x / INFLATION_FACTOR * INFLATION_FACTOR)
        by (field; discriminate).
      rewrite Ex, E. ring.
Qed.

Lemma all_zero_without_nonzero (col : list Q) :
  has_nonzero col = false -> Forall (fun x => x == 0) col.
Proof.
  intros Hz. apply List.Forall_forall. intros x Hx.
  destruct (Qeq_dec x 0) as [E|N]; [exact E|]. exfalso.
  assert (Ht : has_nonzero col = true) by (apply has_nonzero_Q; eauto).
  congruence.
Qed.
End AdjustFacts.

(** X14.  The adjustment is not idempotent: run on its own output it
    divides a listed column with a non-zero entry by the factor a second
    time. *)
Theorem X14_adjust_inflation_twice_divides_twice
    (df : gmap string (list Q)) (var : string) (col : list Q) :
  In var DOLLAR_VARIABLES -> df !! var = Some col -> has_nonzero col = true ->
  adjust_inflation (adjust_inflation df) !! var
  = Some (map (fun x => (x / INFLATION_FACTOR / INFLATION_FACTOR)%Q) col)
  /\ adjust_inflation (adjust_inflation df) !! var <> adjust_inflation df !! var.
Proof.
  intros Hvar Hcol Hnz.
  assert (Hdec : bool_decide (var ∈ DOLLAR_VARIABLES) = true)
    by (apply bool_decide_eq_true, list_elem_of_In, Hvar).
  assert (H1 : adjust_inflation df !! var
               = Some (map (fun x => div x (of_Q INFLATION_FACTOR)) col)).
  { rewrite adjust_inflation_lookup, Hcol, Hdec, Hnz. reflexivity. }
  assert (H2 : adjust_inflation (adjust_inflation df) !! var
               = Some (map (fun x => (x / INFLATION_FACTOR / INFLATION_FACTOR)%Q) col)).
  { rewrite adjust_inflation_lookup, H1, Hdec, has_nonzero_divided, Hnz.
    cbn [andb]. rewrite map_map. reflexivity. }
  split; [exact H2|]. rewrite H2, H1. intros [= E].
  apply has_nonzero_Q in Hnz as (x & Hx & Hn).
  assert (Ex : (x / INFLATION_FACTOR / INFLATION_FACTOR)%Q
               = div x (of_Q INFLATION_FACTOR)).
  { exact (proj1 map_ext_in_iff E x Hx). }
  unfold_num. apply Hn.
  assert (Eq : (x / INFLATION_FACTOR / INFLATION_FACTOR == x / INFLATION_FACTOR)%Q)
    by (rewrite Ex; reflexivity).
  assert (Ez : (x == x / INFLATION_FACTOR / INFLATION_FACTOR
                    * (INFLATION_FACTOR * INFLATION_FACTOR))%Q)
    by (field; discriminate).
  assert (Ew : (x * INFLATION_FACTOR
                == x / INFLATION_FACTOR * (INFLATION_FACTOR * INFLATION_FACTOR))%Q)
    by (field; discriminate).
  rewrite Eq in Ez. rewrite <- Ew in Ez.
  unfold INFLATION_FACTOR in Ez.
  assert (Hlin : (x == x * 1.1587)%Q) by exact Ez. lra.
Qed.

(** X14 on [table_example]: the column [income] after two runs. *)
Lemma X14_witness :
  In "income" DOLLAR_VARIABLES
  /\ table_example !! "income" = Some [11587%Q; 0%Q]
  /\ has_nonzero [11587%Q; 0%Q] = true
  /\ adjust_inflation (adjust_inflation table_example) !! "income"
     = Some (map (fun x => (x / INFLATION_FACTOR / INFLATION_FACTOR)%Q)
                 [11587%Q; 0%Q]).
Proof.
  assert (Hvar : In "income" DOLLAR_VARIABLES) by (left; reflexivity).
  assert (Hcol : table_example !! "income" = Some [11587%Q; 0%Q])
    by (vm_compute; reflexivity).
  assert (Hnz : has_nonzero [11587%Q; 0%Q] = true) by (vm_compute; reflexivity).
  split; [exact Hvar|]. split; [exact Hcol|]. split; [exact Hnz|].
  exact (proj1 (X14_adjust_inflation_twice_divides_twice
                  table_example "income" _ Hvar Hcol Hnz)).
Defined.

(** X15.  In exact arithmetic the test for a non-zero entry changes
    nothing: every listed column of the result equals, entry by entry,
    the input column divided by the factor, whether the test let the
    division run or not. *)
Theorem X15_adjust_inflation_guard_is_immaterial
    (df : gmap string (list Q)) (var : string) (col : list Q) :
  In var DOLLAR_VARIABLES -> df !! var = Some col ->
  exists col',
    adjust_inflation df !! var = Some col'
    /\ Forall2 Qeq col' (map (fun x => (x / INFLATION_FACTOR)%Q) col).
Proof.
  intros Hvar Hcol.
  assert (Hdec : bool_decide (var ∈ DOLLAR_VARIABLES) = true)
    by (apply bool_decide_eq_true, list_elem_of_In, Hvar).
  rewrite adjust_inflation_lookup, Hcol, Hdec. cbn [andb].
  destruct (has_nonzero col) eqn:Hnz.
  - eexists. split; [reflexivity|]. unfold_num. clear.
    induction col as [|x col IH]; cbn [map]; constructor;
      [reflexivity|exact IH].
  - exists col. split; [reflexivity|].
    pose proof (all_zero_without_nonzero col Hnz) as Hz. clear -Hz.
    induction Hz as [|x col Hx _ IH]; constructor; [|exact IH].
    rewrite Hx. unfold Qdiv. ring.
Qed.

(** X15 on [table_example]: the all-zero column [kginc]. *)
Lemma X15_witness :
  In "kginc" DOLLAR_VARIABLES
  /\ table_example !! "kginc" = Some [0%Q; 0%Q]
  /\ exists col',
       adjust_inflation table_example !! "kginc" = Some col'
       /\ Forall2 Qeq col' (map (fun x => (x / INFLATION_FACTOR)%Q) [0%Q; 0%Q]).
Proof.
  assert (Hvar : In "kginc" DOLLAR_VARIABLES)
    by (apply list_elem_of_In, (bool_decide_unpack _); vm_compute; exact I).
  assert (Hcol : table_example !! "kginc" = Some [0%Q; 0%Q])
    by (vm_compute; reflexivity).
  split; [exact Hvar|]. split; [exact Hcol|].
  exact (X15_adjust_inflation_guard_is_immaterial table_example "kginc" _
           Hvar Hcol).
Defined.

(** ** print_comparison: the maxima, the verdict and the missing keys *)

Section ComparisonFacts.
Local Open Scope Q_scope.

Lemma pct_diff_nonzero_reference (git_val latest_val : Q) :
  ~ git_val == 0 ->
  pct_diff git_val latest_val
  = inr (Qabs (latest_val - git_val) / Qabs git_val * 100).
Proof.
  intros Hn. unfold pct_diff, checked_div.
  assert (E1 : eqb git_val (of_Q 0) = false) by (apply eqb_Q_neq; exact Hn).
  rewrite E1. cbn [negb].
  assert (E2 : eqb (abs git_val) (of_Q 0) = false).
  { apply eqb_Q_neq. unfold_num. intros E. apply Hn.
    destruct (Qabs_Qle_condition git_val 0) as [Hc _].
    rewrite E in Hc. specialize (Hc (Qle_refl 0)). lra. }
  rewrite E2. reflexivity.
Qed.

Lemma pct_diff_same (v : Q) : exists d, pct_diff v v = inr d /\ d == 0.
Proof.
  destruct (Qeq_dec v 0) as [E|N].
  - exists 0. split; [apply pct_diff_zero_reference, E|reflexivity].
  - eexists. split; [apply pct_diff_nonzero_reference, N|].
    assert (Ez : v - v == 0) by ring. rewrite Ez.
    change (Qabs 0) with 0. unfold Qdiv. ring.
Qed.

Lemma max2_keeps (m d : Q) : d <= m -> max2 m d = m.
Proof.
  intros Hle. unfold max2.
  assert (E : ltb m d = false) by (apply ltb_Q_ge; exact Hle).
  rewrite E. reflexivity.
Qed.

Lemma max2_bounds (m d : Q) :
  m <= max2 m d /\ d <= max2 m d /\ (max2 m d = m \/ max2 m d = d).
Proof.
  unfold max2. destruct (ltb m d) eqn:E.
  - apply ltb_Q_lt in E. repeat split; [lra|lra|right; reflexivity].
  - apply ltb_Q_ge in E. repeat split; [lra|lra|left; reflexivity].
Qed.

(** The loop returns the largest of the start value and the metrics'
    differences. *)
Lemma max_pct_diff_spec (metrics : list string)
    (results_git results_latest : gmap string Q) (max_diff d : Q) :
  max_pct_diff metrics results_git results_latest max_diff = inr d ->
  max_diff <= d
  /\ (d = max_diff
      \/ exists key git_val latest_val,
           In key metrics /\ results_git !! key = Some git_val
           /\ results_latest !! key = Some latest_val
           /\ pct_diff git_val latest_val = inr d)
  /\ forall key git_val latest_val x,
       In key metrics -> results_git !! key = Some git_val ->
       results_latest !! key = Some latest_val ->
       pct_diff git_val latest_val = inr x -> x <= d.
Proof.
  revert max_diff. induction metrics as [|key rest IH]; intros max_diff Hd.
  - cbn in Hd. injection Hd as <-.
    split; [lra|]. split; [left; reflexivity|]. intros ? ? ? ? [].
  - cbn [max_pct_diff] in Hd. unfold getitem in Hd.
    destruct (results_git !! key) as [gv|] eqn:Eg; [|discriminate].
    destruct (results_latest !! key) as [lv|] eqn:El; [|discriminate].
    cbn in Hd. destruct (pct_diff_is_value gv lv) as (x & Ex & Hx).
    rewrite Ex in Hd. cbn in Hd.
    destruct (IH _ Hd) as (Hle & Hatt & Hub).
    destruct (max2_bounds max_diff x) as (Hm1 & Hm2 & Hm3).
    split; [lra|]. split.
    + destruct Hatt as [->|(k & g & l & Hk & Hg & Hl & Hp)].
      * destruct Hm3 as [->| ->]; [left; reflexivity|].
        right. exists key, gv, lv. split; [left; reflexivity|]. auto.
      * right. exists k, g, l. split; [right; exact Hk|]. auto.
    + intros k g l y [<-|Hk] Hg Hl Hp.
      * rewrite Eg in Hg. rewrite El in Hl.
        injection Hg as <-. injection Hl as <-.
        rewrite Ex in Hp. injection Hp as <-. lra.
      * exact (Hub k g l y Hk Hg Hl Hp).
Qed.

(** The loop ends in a value when every key is there, and in the KeyError
    of a missing key otherwise. *)
Lemma max_pct_diff_keys (metrics : list string)
    (results_git results_latest : gmap string Q) (max_diff : Q) :
  match max_pct_diff metrics results_git results_latest max_diff with
  | inr _ => forall key, In key metrics ->
               is_Some (results_git !! key) /\ is_Some (results_latest !! key)
  | inl e => exists key, e = KeyError key /\ In key metrics
               /\ (results_git !! key = None \/ results_latest !! key = None)
  end.
Proof.
  revert max_diff. induction metrics as [|key rest IH]; intros max_diff.
  - cbn. intros ? [].
  - cbn [max_pct_diff]. unfold getitem.
    destruct (results_git !! key) as [gv|] eqn:Eg; cbn.
    2:{ exists key. split; [reflexivity|]. split; [left; reflexivity|auto]. }
    destruct (results_latest !! key) as [lv|] eqn:El; cbn.
    2:{ exists key. split; [reflexivity|]. split; [left; reflexivity|auto]. }
    destruct (pct_diff_is_value gv lv) as (x & Ex & _). rewrite Ex. cbn.
    specialize (IH (max2 max_diff x)).
    destruct (max_pct_diff rest results_git results_latest (max2 max_diff x)).
    + destruct IH as (k & -> & Hk & Hmiss). exists k.
      split; [reflexivity|]. split; [right; exact Hk|exact Hmiss].
    + intros k [<-|Hk]; [|exact (IH k Hk)].
      rewrite Eg, El. split; eexists; reflexivity.
Qed.

(** Equal values leave the running maximum as it is. *)
Lemma max_pct_diff_same (metrics : list string)
    (results_git results_latest : gmap string Q) (max_diff : Q) :
  0 <= max_diff ->
  (forall key, In key metrics ->
     is_Some (results_git !! key)
     /\ results_latest !! key = results_git !! key) ->
  max_pct_diff metrics results_git results_latest max_diff = inr max_diff.
Proof.
  intros Hm. induction metrics as [|key rest IH]; intros Hkeys; [reflexivity|].
  cbn [max_pct_diff]. unfold getitem.
  destruct (Hkeys key (or_introl eq_refl)) as [[gv Eg] El].
  rewrite El, Eg. cbn.
  destruct (pct_diff_same gv) as (d & Ed & Hz). rewrite Ed. cbn.
  rewrite max2_keeps by lra. apply IH.
  intros k Hk. apply Hkeys. right. exact Hk.
Qed.

Lemma verdict_significant (d n : Q) :
  verdict_of d n = SIGNIFICANT_DIFFERENCES <-> 0.1 <= d.
Proof.
  unfold verdict_of.
  destruct (ltb d (of_Q 0.05)) eqn:E1; destruct (ltb d (of_Q 0.1)) eqn:E2;
    destruct (ltb n (of_Q 0.01)) eqn:E3; cbn [andb];
    try apply ltb_Q_lt in E1; try apply ltb_Q_ge in E1;
    try apply ltb_Q_lt in E2; try apply ltb_Q_ge in E2;
    unfold_num; split; intros Hv; try discriminate; try reflexivity;
    try lra.
Qed.

Lemma print_comparison_inv (results_git results_latest : gmap string Q)
    (d n : Q) (v : verdict) :
  print_comparison results_git results_latest = inr (d, n, v) ->
  max_pct_diff dollar_metrics results_git results_latest 0 = inr d
  /\ max_pct_diff non_dollar_metrics results_git results_latest 0 = inr n
  /\ v = verdict_of d n.
Proof.
  unfold print_comparison, mbind, M_bind, mret, M_ret. intros Hp.
  destruct (getitem results_git "n_observations"); [discriminate|].
  destruct (getitem results_latest "n_observations"); [discriminate|].
  destruct (getitem results_git "n_households"); [discriminate|].
  destruct (getitem results_latest "n_households"); [discriminate|].
  change (@of_Q Q Num_Q 0) with 0 in Hp.
  destruct (max_pct_diff dollar_metrics results_git results_latest 0)
    as [|d']; [discriminate|].
  destruct (max_pct_diff non_dollar_metrics results_git results_latest 0)
    as [|n']; [discriminate|].
  injection Hp as <- <- <-. auto.
Qed.
End ComparisonFacts.

(** X16.  The verdict is the warning of significant differences exactly
    when one of the ten dollar statistics has a non-zero reference value
    and differs from it by 0.1 percent or more; the six other statistics
    never lead to the warning. *)
Theorem X16_warning_iff_dollar_statistic_differs
    (results_git results_latest : gmap string Q) (d n : Q) (v : verdict) :
  print_comparison results_git results_latest = inr (d, n, v) ->
  (v = SIGNIFICANT_DIFFERENCES
   <-> exists key git_val latest_val,
         In key dollar_metrics
         /\ results_git !! key = Some git_val
         /\ results_latest !! key = Some latest_val
         /\ ~ (git_val == 0)%Q
         /\ (0.1 <= Qabs (latest_val - git_val) / Qabs git_val * 100)%Q).
Proof.
  intros Hp. apply print_comparison_inv in Hp as (Ed & En & ->).
  rewrite verdict_significant.
  destruct (max_pct_diff_spec _ _ _ _ _ Ed) as (_ & Hatt & Hub). split.
  - intros Hge. destruct Hatt as [->|(k & g & l & Hk & Hg & Hl & Hpd)].
    + exfalso. unfold_num. revert Hge. unfold Qle. cbn. lia.
    + exists k, g, l. split; [exact Hk|]. split; [exact Hg|]. split; [exact Hl|].
      destruct (Qeq_dec g 0) as [E|N].
      * exfalso. rewrite (pct_diff_zero_reference g l E) in Hpd.
        injection Hpd as <-. revert Hge. unfold Qle. cbn. lia.
      * split; [exact N|].
        rewrite (pct_diff_nonzero_reference g l N) in Hpd.
        injection Hpd as <-. exact Hge.
  - intros (k & g & l & Hk & Hg & Hl & N & Hge).
    apply Qle_trans with (Qabs (l - g) / Qabs g * 100)%Q; [exact Hge|].
    apply (Hub k g l _ Hk Hg Hl). apply pct_diff_nonzero_reference, N.
Qed.

(** X16 on [results_example]: other education shares change the summary's
    second maximum, and the verdict is still not the warning. *)
Lemma X16_witness :
  exists d n v,
    print_comparison (results_example 30000) results_other_shares
    = inr (d, n, v)
    /\ (0.01 <= n)%Q /\ v = GOOD_MATCH
    /\ (v = SIGNIFICANT_DIFFERENCES
        <-> exists key git_val latest_val,
              In key dollar_metrics
              /\ results_example 30000 !! key = Some git_val
              /\ results_other_shares !! key = Some latest_val
              /\ ~ (git_val == 0)%Q
              /\ (0.1 <= Qabs (latest_val - git_val) / Qabs git_val * 100)%Q).
Proof.
  destruct (print_comparison (results_example 30000) results_other_shares)
    as [e|[[d n] v]] eqn:E; [vm_compute in E; discriminate|].
  exists d, n, v. split; [reflexivity|].
  pose proof (X16_warning_iff_dollar_statistic_differs _ _ d n v E) as Hiff.
  vm_compute in E. injection E as <- <- <-.
  split; [unfold Qle; cbn; lia|]. split; [reflexivity|exact Hiff].
Defined.

(** X17.  [print_comparison] returns its summary exactly when each of the
    eighteen keys it reads is in both dictionaries.  Otherwise it ends in
    the KeyError of a key that one of them lacks, and in no other
    error. *)
Theorem X17_print_comparison_fails_only_on_missing_key
    (results_git results_latest : gmap string Q) :
  ((exists r, print_comparison results_git results_latest = inr r)
   <-> forall key, In key keys_read ->
         is_Some (results_git !! key) /\ is_Some (results_latest !! key))
  /\ forall e, print_comparison results_git results_latest = inl e ->
       exists key, e = KeyError key /\ In key keys_read
                   /\ (results_git !! key = None
                       \/ results_latest !! key = None).
Proof.
  assert (Hmain :
    match print_comparison results_git results_latest with
    | inr _ => forall key, In key keys_read ->
                 is_Some (results_git !! key) /\ is_Some (results_latest !! key)
    | inl e => exists key, e = KeyError key /\ In key keys_read
                 /\ (results_git !! key = None \/ results_latest !! key = None)
    end).
  { unfold print_comparison, getitem, keys_read, mbind, M_bind, mret, M_ret.
    destruct (results_git !! "n_observations") eqn:E1.
    2:{ exists "n_observations". split; [reflexivity|].
        split; [left; reflexivity|auto]. }
    destruct (results_latest !! "n_observations") eqn:E2.
    2:{ exists "n_observations". split; [reflexivity|].
        split; [left; reflexivity|auto]. }
    destruct (results_git !! "n_households") eqn:E3.
    2:{ exists "n_households". split; [reflexivity|].
        split; [right; left; reflexivity|auto]. }
    destruct (results_latest !! "n_households") eqn:E4.
    2:{ exists "n_households". split; [reflexivity|].
        split; [right; left; reflexivity|auto]. }
    pose proof (max_pct_diff_keys dollar_metrics results_git results_latest
                  (of_Q 0)) as Hd.
    destruct (max_pct_diff dollar_metrics results_git results_latest (of_Q 0))
      as [e|d].
    { destruct Hd as (k & -> & Hk & Hmiss). exists k. split; [reflexivity|].
      split; [|exact Hmiss]. apply in_or_app; right; apply in_or_app; left; exact Hk. }
    pose proof (max_pct_diff_keys non_dollar_metrics results_git results_latest
                  (of_Q 0)) as Hn.
    destruct (max_pct_diff non_dollar_metrics results_git results_latest (of_Q 0))
      as [e|n].
    { destruct Hn as (k & -> & Hk & Hmiss). exists k. split; [reflexivity|].
      split; [|exact Hmiss]. apply in_or_app; right; apply in_or_app; right; exact Hk. }
    intros key Hk. apply in_app_or in Hk as [Hk|Hk].
    - destruct Hk as [<-|[<-|[]]].
      + rewrite E1, E2. split; eexists; reflexivity.
      + rewrite E3, E4. split; eexists; reflexivity.
    - apply in_app_or in Hk as [Hk|Hk]; [exact (Hd key Hk)|exact (Hn key Hk)]. }
  destruct (print_comparison results_git results_latest) as [e|r].
  - split.
    + split; [intros [r Hr]; discriminate|]. intros Hall. exfalso.
      destruct Hmain as (k & _ & Hk & Hmiss).
      destruct (Hall k Hk) as [[x Hx] [y Hy]].
      destruct Hmiss as [Hm|Hm]; congruence.
    + intros e' [= <-]. exact Hmain.
  - split.
    + split; [intros _; exact Hmain|]. intros _. exists r. reflexivity.
    + intros e [=].
Qed.

(** X18.  A dictionary compared with itself gives both maxima 0 and the
    verdict of an excellent match, whatever its values are, zero
    reference values included. *)
Theorem X18_self_comparison_is_excellent (results : gmap string Q) :
  (forall key, In key keys_read -> is_Some (results !! key)) ->
  print_comparison results results = inr (0%Q, 0%Q, EXCELLENT_MATCH).
Proof.
  intros Hkeys. unfold print_comparison, getitem, mbind, M_bind, mret, M_ret.
  destruct (Hkeys "n_observations" (or_introl eq_refl)) as [x1 ->].
  destruct (Hkeys "n_households" (or_intror (or_introl eq_refl))) as [x2 ->].
  rewrite (max_pct_diff_same dollar_metrics results results (of_Q 0)).
  - rewrite (max_pct_diff_same non_dollar_metrics results results (of_Q 0)).
    + reflexivity.
    + apply Qle_refl.
    + intros k Hk. split; [|reflexivity]. apply Hkeys. unfold keys_read.
      apply in_or_app; right; apply in_or_app; right; exact Hk.
  - apply Qle_refl.
  - intros k Hk. split; [|reflexivity]. apply Hkeys. unfold keys_read.
    apply in_or_app; right; apply in_or_app; left; exact Hk.
Qed.

(** X18 on [results_example], whose [min_income] is 0. *)
Lemma X18_witness :
  (forall key, In key keys_read -> is_Some (results_example 0 !! key))
  /\ print_comparison (results_example 0) (results_example 0)
     = inr (0%Q, 0%Q, EXCELLENT_MATCH).
Proof.
  assert (Hkeys : forall key, In key keys_read ->
                              is_Some (results_example 0 !! key)).
  { intros key Hk. unfold keys_read, dollar_metrics, non_dollar_metrics in Hk.
    cbn [app In] in Hk.
    repeat (destruct Hk as [<-|Hk]; [vm_compute; eexists; reflexivity|]).
    destruct Hk. }
  split; [exact Hkeys|].
  exact (X18_self_comparison_is_excellent (results_example 0) Hkeys).
Defined.
